(** * VSFSck: a shallow embedding of the VSFS consistency checker

    The development follows [vsfsck.c].  The file-system image is the byte
    buffer [fs_image]; the typed overlays of the C program ([superblock],
    [inode_bitmap], [data_bitmap], [inode_table] and the indirect-block
    arrays) are all views into that one buffer, so every read and write
    below goes through byte offsets of the same list. *)

From Stdlib Require Import ZArith Lia Bool String.
From Stdlib Require Import Init.Byte.
From Stdlib Require Strings.Byte.
From stdpp Require Import base list.

Local Open Scope Z_scope.

(** ** Constants of the VSFS layout *)

Definition BLOCK_SIZE : Z := 4096.
Definition TOTAL_BLOCKS : Z := 64.
Definition MAGIC_BYTES : Z := 0xD34D.
Definition INODE_SIZE : Z := 256.
Definition INODE_COUNT : Z := 80.

Definition SUPERBLOCK_NUM : Z := 0.
Definition INODE_BITMAP_BLOCK_NUM : Z := 1.
Definition DATA_BITMAP_BLOCK_NUM : Z := 2.
Definition INODE_TABLE_START_BLOCK_NUM : Z := 3.
Definition INODE_TABLE_BLOCKS : Z := 5.
Definition DATA_BLOCK_START_NUM : Z := 8.
Definition DATA_BLOCKS_COUNT : Z := 56.

(** [TOTAL_BLOCKS * BLOCK_SIZE], the only image size [main] accepts. *)
Definition IMAGE_SIZE : Z := TOTAL_BLOCKS * BLOCK_SIZE.

(** [BLOCK_SIZE / sizeof(uint32_t)], the number of entries of an indirect
    block. *)
Definition ENTRIES_PER_BLOCK : Z := BLOCK_SIZE / 4.

(** [sizeof(inode_t)]: fourteen [uint32_t] fields and [reserved[156]].
    This is the stride of [inode_table[i]]; it is not [INODE_SIZE]. *)
Definition SIZEOF_INODE : Z := 14 * 4 + 156.

(** ** Bytes and fixed-width integers *)

Definition byte_val (b : byte) : Z := Z.of_N (Byte.to_N b).

(** Storing an [int] into a [uint8_t] keeps the low eight bits. *)
Definition byte_of_Z (z : Z) : byte :=
  match Byte.of_N (Z.to_N (z mod 256)) with
  | Some b => b
  | None => x00
  end.

(** Conversion of a [uint32_t] to [int], as done when a block number is
    passed to [get_block]. *)
Definition to_int32 (v : Z) : Z :=
  if v mod 2^32 <? 2^31 then v mod 2^32 else v mod 2^32 - 2^32.

(** ** The image buffer *)

Abbreviation image := (list byte).

Definition byte_at (img : image) (off : Z) : byte :=
  if off <? 0 then x00 else default x00 (img !! Z.to_nat off).

Definition set_byte (img : image) (off : Z) (b : byte) : image :=
  if off <? 0 then img else <[Z.to_nat off := b]> img.

Definition image_len (img : image) : Z := Z.of_nat (length img).

(** Little-endian loads and stores of the widths the structures use. *)
Definition load8 (img : image) (off : Z) : Z := byte_val (byte_at img off).

Definition store8 (img : image) (off : Z) (v : Z) : image :=
  set_byte img off (byte_of_Z v).

Definition load16 (img : image) (off : Z) : Z :=
  load8 img off + 2^8 * load8 img (off + 1).

Definition store16 (img : image) (off : Z) (v : Z) : image :=
  store8 (store8 img off v) (off + 1) (v / 2^8).

Definition load32 (img : image) (off : Z) : Z :=
  load8 img off + 2^8 * load8 img (off + 1)
  + 2^16 * load8 img (off + 2) + 2^24 * load8 img (off + 3).

Definition store32 (img : image) (off : Z) (v : Z) : image :=
  store8 (store8 (store8 (store8 img off v) (off + 1) (v / 2^8))
            (off + 2) (v / 2^16)) (off + 3) (v / 2^24).

(** ** Helper functions of the checker *)

(** [get_block]: the byte offset of a block inside the buffer, [None] for
    the NULL result. *)
Definition get_block (block_num : Z) : option Z :=
  if (block_num <? 0) || (block_num >=? TOTAL_BLOCKS) then None
  else Some (block_num * BLOCK_SIZE).

(** A bitmap is given by the byte offset of its block. *)
Definition is_bit_set (img : image) (bitmap : Z) (bit_num : Z) : bool :=
  let byte_num := Z.quot bit_num 8 in
  let bit_off := Z.rem bit_num 8 in
  negb (Z.land (load8 img (bitmap + byte_num)) (Z.shiftl 1 bit_off) =? 0).

Definition set_bit (img : image) (bitmap : Z) (bit_num : Z) : image :=
  let byte_num := Z.quot bit_num 8 in
  let bit_off := Z.rem bit_num 8 in
  store8 img (bitmap + byte_num)
    (Z.lor (load8 img (bitmap + byte_num)) (Z.shiftl 1 bit_off)).

Definition clear_bit (img : image) (bitmap : Z) (bit_num : Z) : image :=
  let byte_num := Z.quot bit_num 8 in
  let bit_off := Z.rem bit_num 8 in
  store8 img (bitmap + byte_num)
    (Z.land (load8 img (bitmap + byte_num)) (Z.lnot (Z.shiftl 1 bit_off))).

(** ** Overlays

    [main] binds the four global pointers with [get_block]; the offsets
    below are the values those calls return. *)

Definition superblock : Z := SUPERBLOCK_NUM * BLOCK_SIZE.
Definition inode_bitmap : Z := INODE_BITMAP_BLOCK_NUM * BLOCK_SIZE.
Definition data_bitmap : Z := DATA_BITMAP_BLOCK_NUM * BLOCK_SIZE.
Definition inode_table : Z := INODE_TABLE_START_BLOCK_NUM * BLOCK_SIZE.

(** The fields of [superblock_t].  The structure of [vsfsck.c] carries no
    packing attribute, so the [uint32_t] fields follow the 16-bit magic at
    their natural alignment. *)
Inductive sb_field :=
| f_magic | f_block_size | f_total_blocks | f_inode_bitmap_block
| f_data_bitmap_block | f_inode_table_start | f_first_data_block
| f_inode_size | f_inode_count.

Definition sb_offset (f : sb_field) : Z :=
  match f with
  | f_magic => 0 | f_block_size => 4 | f_total_blocks => 8
  | f_inode_bitmap_block => 12 | f_data_bitmap_block => 16
  | f_inode_table_start => 20 | f_first_data_block => 24
  | f_inode_size => 28 | f_inode_count => 32
  end.

Definition sb_expected (f : sb_field) : Z :=
  match f with
  | f_magic => MAGIC_BYTES | f_block_size => BLOCK_SIZE
  | f_total_blocks => TOTAL_BLOCKS
  | f_inode_bitmap_block => INODE_BITMAP_BLOCK_NUM
  | f_data_bitmap_block => DATA_BITMAP_BLOCK_NUM
  | f_inode_table_start => INODE_TABLE_START_BLOCK_NUM
  | f_first_data_block => DATA_BLOCK_START_NUM
  | f_inode_size => INODE_SIZE | f_inode_count => INODE_COUNT
  end.

Definition sb_load (img : image) (f : sb_field) : Z :=
  match f with
  | f_magic => load16 img (superblock + sb_offset f)
  | _ => load32 img (superblock + sb_offset f)
  end.

Definition sb_store (img : image) (f : sb_field) (v : Z) : image :=
  match f with
  | f_magic => store16 img (superblock + sb_offset f) v
  | _ => store32 img (superblock + sb_offset f) v
  end.

(** The fields of [inode_t], all [uint32_t], in declaration order. *)
Inductive inode_field :=
| i_mode | i_uid | i_gid | i_size | i_atime | i_ctime | i_mtime | i_dtime
| i_links_count | i_blocks_count
| i_direct_block | i_single_indirect | i_double_indirect | i_triple_indirect.

Definition field_index (f : inode_field) : Z :=
  match f with
  | i_mode => 0 | i_uid => 1 | i_gid => 2 | i_size => 3 | i_atime => 4
  | i_ctime => 5 | i_mtime => 6 | i_dtime => 7 | i_links_count => 8
  | i_blocks_count => 9 | i_direct_block => 10 | i_single_indirect => 11
  | i_double_indirect => 12 | i_triple_indirect => 13
  end.

(** Offset of [inode_table[i].f]. *)
Definition inode_off (i : Z) (f : inode_field) : Z :=
  inode_table + i * SIZEOF_INODE + 4 * field_index f.

Definition inode_get (img : image) (i : Z) (f : inode_field) : Z :=
  load32 img (inode_off i f).

Definition inode_set (img : image) (i : Z) (f : inode_field) (v : Z) : image :=
  store32 img (inode_off i f) v.

Definition is_inode_valid (img : image) (i : Z) : bool :=
  (0 <? inode_get img i i_links_count) && (inode_get img i i_dtime =? 0).

(** Entry [j] of the [uint32_t] array that starts at byte offset [base]. *)
Definition entry_get (img : image) (base j : Z) : Z := load32 img (base + 4 * j).

Definition entry_set (img : image) (base j v : Z) : image :=
  store32 img (base + 4 * j) v.

(** ** Diagnostics

    Every [printf] of the checker is a constructor; the arguments are the
    numbers the format string prints. *)

Inductive pass :=
| PSuperblock | PDataBitmap | PInodeBitmap | PDuplicate | PBadBlock.

(** The wording that distinguishes the duplicate reports. *)
Inductive dup_tag := TagPlain | TagSingle | TagDouble | TagTriple.

(** The six places in which the bad-block pass finds a bad container entry. *)
Inductive bad_site :=
| DataInSingle | IndirectInDouble | DataInDouble
| DoubleInTriple | SingleInTriple | DataInTriple.

Inductive msg :=
| MHeader (p : pass)
| MSbError (f : sb_field) (found : Z)
| MSbFix (f : sb_field)
| MSbValid (f : sb_field) (found : Z)
| MAllocFailed
| MDbmChecking
| MDbmValidating
| MDbmErrNotMarked (blk : Z)
| MDbmFixMark (blk : Z)
| MDbmErrNotReferenced (blk : Z)
| MDbmFixClear (blk : Z)
| MIbmErrNotMarked (i : Z)
| MIbmFixMark (i : Z)
| MIbmErrInvalid (i : Z)
| MIbmFixClear (i : Z)
| MDupError (t : dup_tag) (blk owner ino : Z)
| MDupFix (ino : Z)
| MDupNote
| MBadTop (f : inode_field) (ino blk : Z)
| MBadTopFix (f : inode_field) (ino : Z)
| MBadEntry (w : bad_site) (ino blk : Z)
| MBadEntryFix (w : bad_site) (j ino : Z)
| MBanner
| MImageName (name : string)
| MMode (fix_errors : bool)
| MSummaryHeader (post_fix : bool)
| MSummary (post_fix : bool) (p : pass) (ok : bool)
| MOverall (post_fix : bool) (ok : bool)
| MRecheckHeader
| MWarning.

(** The lines that start with ["Error:"]. *)
Definition is_finding (m : msg) : bool :=
  match m with
  | MSbError _ _ | MDbmErrNotMarked _ | MDbmErrNotReferenced _
  | MIbmErrNotMarked _ | MIbmErrInvalid _ | MDupError _ _ _ _
  | MBadTop _ _ _ | MBadEntry _ _ _ => true
  | _ => false
  end.

(** ** Program state

    The global buffers of the C program together with the variables of the
    pass that is running: [isValid], the local [inode_refs] table of the
    duplicate pass, and the standard output written so far. *)

Record state := mkState {
  fs_image : image;
  block_ref_count : list bool;
  inode_refs : list Z;
  isValid : bool;
  stdout : list msg
}.

Definition with_image (s : state) (img : image) : state :=
  mkState img (block_ref_count s) (inode_refs s) (isValid s) (stdout s).

Definition with_valid (s : state) (v : bool) : state :=
  mkState (fs_image s) (block_ref_count s) (inode_refs s) v (stdout s).

Definition printf (m : msg) (s : state) : state :=
  mkState (fs_image s) (block_ref_count s) (inode_refs s) (isValid s)
    (stdout s ++ [m]).

(** [for (int j = lo; j < lo + n; j++) body], as a fold over the counter. *)
Fixpoint for_from {S : Type} (j : Z) (n : nat) (body : Z -> S -> S) (s : S) : S :=
  match n with
  | O => s
  | Datatypes.S n' => for_from (j + 1) n' body (body j s)
  end.

Definition for_loop {S : Type} (n : Z) (body : Z -> S -> S) (s : S) : S :=
  for_from 0 (Z.to_nat n) body s.

Arguments for_loop : simpl never.

(** ** 1. Superblock validator

    [validate_superblock] repeats one block of code for each of the nine
    fields; [check_sb_field] is that block. *)

Definition check_sb_field (do_fix : bool) (f : sb_field) (s : state) : state :=
  let found := sb_load (fs_image s) f in
  if negb (found =? sb_expected f) then
    let s := printf (MSbError f found) s in
    let s :=
      if do_fix then
        let s := printf (MSbFix f) s in
        with_image s (sb_store (fs_image s) f (sb_expected f))
      else s in
    with_valid s false
  else printf (MSbValid f found) s.

Definition validate_superblock (do_fix : bool) (s : state) : state :=
  let s := with_valid s true in
  let s := printf (MHeader PSuperblock) s in
  let s := check_sb_field do_fix f_magic s in
  let s := check_sb_field do_fix f_block_size s in
  let s := check_sb_field do_fix f_total_blocks s in
  let s := check_sb_field do_fix f_inode_bitmap_block s in
  let s := check_sb_field do_fix f_data_bitmap_block s in
  let s := check_sb_field do_fix f_inode_table_start s in
  let s := check_sb_field do_fix f_first_data_block s in
  let s := check_sb_field do_fix f_inode_size s in
  check_sb_field do_fix f_inode_count s.

(** ** 2. Data bitmap consistency checker *)

(** One [if (inode->p != 0) { ... block_used[block_idx] = true; }] block.
    [block_idx] is an [int] that receives the [uint32_t] difference. *)
Definition mark_block_used (ptr : Z) (block_used : list bool) : list bool :=
  if negb (ptr =? 0) then
    let block_idx := to_int32 (ptr - DATA_BLOCK_START_NUM) in
    if (0 <=? block_idx) && (block_idx <? DATA_BLOCKS_COUNT) then
      <[Z.to_nat block_idx := true]> block_used
    else block_used
  else block_used.

(** Body of the first loop: the four pointer slots of inode [i]. *)
Definition collect_inode_blocks (img : image) (i : Z) (block_used : list bool)
  : list bool :=
  if negb (is_inode_valid img i) then block_used
  else
    let block_used := mark_block_used (inode_get img i i_direct_block) block_used in
    let block_used := mark_block_used (inode_get img i i_single_indirect) block_used in
    let block_used := mark_block_used (inode_get img i i_double_indirect) block_used in
    mark_block_used (inode_get img i i_triple_indirect) block_used.

(** The array [block_used] after the first loop. *)
Definition collect_block_used (img : image) : list bool :=
  for_loop INODE_COUNT (collect_inode_blocks img)
    (replicate (Z.to_nat DATA_BLOCKS_COUNT) false).

Definition used_at (block_used : list bool) (i : Z) : bool :=
  default false (block_used !! Z.to_nat i).

(** Body of the second loop. *)
Definition reconcile_data_bit (do_fix : bool) (block_used : list bool) (i : Z)
    (s : state) : state :=
  let bitmap_used := is_bit_set (fs_image s) data_bitmap i in
  let s :=
    if used_at block_used i && negb bitmap_used then
      let s := printf (MDbmErrNotMarked (i + DATA_BLOCK_START_NUM)) s in
      let s :=
        if do_fix then
          let s := printf (MDbmFixMark (i + DATA_BLOCK_START_NUM)) s in
          with_image s (set_bit (fs_image s) data_bitmap i)
        else s in
      with_valid s false
    else s in
  if negb (used_at block_used i) && bitmap_used then
    let s := printf (MDbmErrNotReferenced (i + DATA_BLOCK_START_NUM)) s in
    let s :=
      if do_fix then
        let s := printf (MDbmFixClear (i + DATA_BLOCK_START_NUM)) s in
        with_image s (clear_bit (fs_image s) data_bitmap i)
      else s in
    with_valid s false
  else s.

(** [calloc_ok] is the result of the [calloc] of [block_used]. *)
Definition validate_data_bitmap (do_fix : bool) (calloc_ok : bool) (s : state)
  : state :=
  let s := printf (MHeader PDataBitmap) s in
  let s := with_valid s true in
  if negb calloc_ok then with_valid (printf MAllocFailed s) false
  else
    let s := printf MDbmChecking s in
    let block_used := collect_block_used (fs_image s) in
    let s := printf MDbmValidating s in
    for_loop DATA_BLOCKS_COUNT (reconcile_data_bit do_fix block_used) s.

(** ** 3. Inode bitmap consistency checker *)

Definition reconcile_inode_bit (do_fix : bool) (i : Z) (s : state) : state :=
  let is_valid := is_inode_valid (fs_image s) i in
  let bitmap_used := is_bit_set (fs_image s) inode_bitmap i in
  let s :=
    if is_valid && negb bitmap_used then
      let s := printf (MIbmErrNotMarked i) s in
      let s :=
        if do_fix then
          let s := printf (MIbmFixMark i) s in
          with_image s (set_bit (fs_image s) inode_bitmap i)
        else s in
      with_valid s false
    else s in
  if negb is_valid && bitmap_used then
    let s := printf (MIbmErrInvalid i) s in
    let s :=
      if do_fix then
        let s := printf (MIbmFixClear i) s in
        with_image s (clear_bit (fs_image s) inode_bitmap i)
      else s in
    with_valid s false
  else s.

Definition validate_inode_bitmap (do_fix : bool) (s : state) : state :=
  let s := printf (MHeader PInodeBitmap) s in
  let s := with_valid s true in
  for_loop INODE_COUNT (reconcile_inode_bit do_fix) s.

(** ** 4. Duplicate block checker *)

Definition ref_seen (s : state) (blk : Z) : bool :=
  default false (block_ref_count s !! Z.to_nat blk).

Definition ref_owner (s : state) (blk : Z) : Z :=
  default 0 (inode_refs s !! Z.to_nat blk).

(** [block_ref_count[blk] = true; inode_refs[blk] = ino;] *)
Definition mark_ref (blk ino : Z) (s : state) : state :=
  mkState (fs_image s)
    (<[Z.to_nat blk := true]> (block_ref_count s))
    (<[Z.to_nat blk := ino]> (inode_refs s))
    (isValid s) (stdout s).

Definition in_data_region (blk : Z) : bool :=
  (DATA_BLOCK_START_NUM <=? blk) && (blk <? TOTAL_BLOCKS).

(** The function returns its own [valid]; the caller's [isValid] is not
    touched here. *)
Definition check_data_block_for_duplicates (blk ino : Z) (do_fix : bool)
    (s : state) : state * bool :=
  if in_data_region blk then
    if ref_seen s blk then
      let s := printf (MDupError TagPlain blk (ref_owner s blk) ino) s in
      let s := if do_fix then printf MDupNote s else s in
      (s, false)
    else (mark_ref blk ino s, true)
  else (s, true).

(** The statement that every container loop applies to a non-zero entry
    [v] read from slot [j] of the array at [base]:
    [if (!check_data_block_for_duplicates(v, i, fix, inode_refs))
       { isValid = false; if (fix) array[j] = 0; }] *)
Definition dup_check_entry (do_fix : bool) (ino base j v : Z) (s : state)
  : state :=
  let (s, ok) := check_data_block_for_duplicates v ino do_fix s in
  if negb ok then
    let s := with_valid s false in
    if do_fix then with_image s (entry_set (fs_image s) base j 0) else s
  else s.

(** The container loops.  [dup_walk 0] is the loop over the entries of a
    single-indirect block (data leaves).  [dup_walk (S d)] is the loop whose
    entries are themselves containers: after the entry has been checked, the
    block it names is fetched with [get_block] and, when that is not NULL,
    walked with [dup_walk d].  The double-indirect block of an inode is
    walked with depth 1 and the triple-indirect block with depth 2. *)
Fixpoint dup_walk (depth : nat) (do_fix : bool) (ino base : Z) (s : state)
  : state :=
  for_loop ENTRIES_PER_BLOCK
    (fun j s =>
       let v := entry_get (fs_image s) base j in
       if negb (v =? 0) then
         let s := dup_check_entry do_fix ino base j v s in
         match depth with
         | O => s
         | Datatypes.S d =>
             match get_block (to_int32 v) with
             | Some sub => dup_walk d do_fix ino sub s
             | None => s
             end
         end
       else s) s.

(** A pointer slot of the inode itself.  [walk] is [None] for the direct
    block and the depth of the container walk for the indirect slots. *)
Definition dup_top (do_fix : bool) (i : Z) (f : inode_field) (t : dup_tag)
    (walk : option nat) (s : state) : state :=
  let p := inode_get (fs_image s) i f in
  if negb (p =? 0) then
    if in_data_region p then
      if ref_seen s p then
        let s := with_valid s false in
        let s := printf (MDupError t p (ref_owner s p) i) s in
        if do_fix then
          let s := printf (MDupFix i) s in
          with_image s (inode_set (fs_image s) i f 0)
        else s
      else
        let s := mark_ref p i s in
        match walk, get_block (to_int32 p) with
        | Some depth, Some base => dup_walk depth do_fix i base s
        | _, _ => s
        end
    else s
  else s.

(** Body of the loop over the inode table. *)
Definition dup_inode (do_fix : bool) (i : Z) (s : state) : state :=
  if negb (is_inode_valid (fs_image s) i) then s
  else
    let s := dup_top do_fix i i_direct_block TagPlain None s in
    let s := dup_top do_fix i i_single_indirect TagSingle (Some 0%nat) s in
    let s := dup_top do_fix i i_double_indirect TagDouble (Some 1%nat) s in
    dup_top do_fix i i_triple_indirect TagTriple (Some 2%nat) s.

(** [calloc_ok] is the result of the [calloc] of [inode_refs]. *)
Definition check_duplicate_blocks (do_fix : bool) (calloc_ok : bool)
    (s : state) : state :=
  let s := printf (MHeader PDuplicate) s in
  let s := with_valid s true in
  let s := mkState (fs_image s) (replicate (Z.to_nat TOTAL_BLOCKS) false)
             (inode_refs s) (isValid s) (stdout s) in
  if negb calloc_ok then with_valid (printf MAllocFailed s) false
  else
    let s := mkState (fs_image s) (block_ref_count s)
               (replicate (Z.to_nat TOTAL_BLOCKS) 0) (isValid s) (stdout s) in
    for_loop INODE_COUNT (dup_inode do_fix) s.

(** ** 5. Bad block checker *)

(** Which wording a bad entry gets: [top] is the inode slot the walk started
    from and [depth] the number of container levels still below the entry. *)
Definition bad_site_of (top : inode_field) (depth : nat) : bad_site :=
  match top, depth with
  | i_single_indirect, _ => DataInSingle
  | i_double_indirect, Datatypes.S _ => IndirectInDouble
  | i_double_indirect, O => DataInDouble
  | _, Datatypes.S (Datatypes.S _) => DoubleInTriple
  | _, Datatypes.S O => SingleInTriple
  | _, O => DataInTriple
  end.

(** The container loops of the bad-block pass, by the number of container
    levels below the entries. *)
Fixpoint bad_walk (depth : nat) (do_fix : bool) (top : inode_field)
    (i base : Z) (s : state) : state :=
  for_loop ENTRIES_PER_BLOCK
    (fun j s =>
       let v := entry_get (fs_image s) base j in
       if v >=? TOTAL_BLOCKS then
         let s := printf (MBadEntry (bad_site_of top depth) i v) s in
         let s :=
           if do_fix then
             let s := printf (MBadEntryFix (bad_site_of top depth) j i) s in
             with_image s (entry_set (fs_image s) base j 0)
           else s in
         with_valid s false
       else
         match depth with
         | O => s
         | Datatypes.S d =>
             if negb (v =? 0) then
               match get_block (to_int32 v) with
               | Some sub => bad_walk d do_fix top i sub s
               | None => s
               end
             else s
         end) s.

(** A pointer slot of the inode itself; [walk] as in [dup_top]. *)
Definition bad_top (do_fix : bool) (i : Z) (f : inode_field)
    (walk : option nat) (s : state) : state :=
  let p := inode_get (fs_image s) i f in
  if p >=? TOTAL_BLOCKS then
    let s := printf (MBadTop f i p) s in
    let s :=
      if do_fix then
        let s := printf (MBadTopFix f i) s in
        with_image s (inode_set (fs_image s) i f 0)
      else s in
    with_valid s false
  else
    match walk with
    | None => s
    | Some depth =>
        if negb (p =? 0) then
          match get_block (to_int32 p) with
          | Some base => bad_walk depth do_fix f i base s
          | None => s
          end
        else s
    end.

Definition bad_inode (do_fix : bool) (i : Z) (s : state) : state :=
  if negb (is_inode_valid (fs_image s) i) then s
  else
    let s := bad_top do_fix i i_direct_block None s in
    let s := bad_top do_fix i i_single_indirect (Some 0%nat) s in
    let s := bad_top do_fix i i_double_indirect (Some 1%nat) s in
    bad_top do_fix i i_triple_indirect (Some 2%nat) s.

Definition check_bad_blocks (do_fix : bool) (s : state) : state :=
  let s := printf (MHeader PBadBlock) s in
  let s := with_valid s true in
  for_loop INODE_COUNT (bad_inode do_fix) s.

(** ** The orchestrator

    What [main] receives from outside: the arguments, the image file, and
    the results of the library calls that can fail. *)

Record env := mkEnv {
  argv : list string;
  fopen_ok : bool;
  file_content : list byte;
  malloc_ok : bool;
  fread_ok : bool;
  (** results of the [calloc] calls, numbered in program order *)
  calloc_ok : nat -> bool;
  (** the count returned by [fwrite] *)
  fwrite_count : Z
}.

Inductive err_msg :=
| EUsage | EOpen | ESizeMismatch (file_size : Z) | EMalloc | ERead
| ECallocRefs | EWrite.

(** The library calls whose failure the program handles, with the result
    each one had. *)
Inductive sys_call :=
| SysFopen (ok : bool)
| SysMalloc (ok : bool)
| SysFread (ok : bool)
| SysCalloc (ok : bool)
| SysFwrite (count : Z)
| SysFclose.

Record outcome := mkOutcome {
  exit_code : Z;
  std_out : list msg;
  std_err : list err_msg;
  sys_calls : list sys_call;
  (** content of the image file when the process ends *)
  file_after : list byte;
  (** [fs_image] just before it is freed, when it was loaded *)
  final_buffer : option image
}.

(** The five [bool] results of one round of passes. *)
Record verdicts := mkVerdicts {
  sb_valid : bool;
  data_bitmap_valid : bool;
  inode_bitmap_valid : bool;
  no_duplicates : bool;
  no_bad_blocks : bool
}.

Definition fs_valid (v : verdicts) : bool :=
  sb_valid v && data_bitmap_valid v && inode_bitmap_valid v
  && no_duplicates v && no_bad_blocks v.

(** The five calls of [main], in the order in which [main] makes them.
    [c_used] and [c_refs] are the results of the two [calloc] calls made
    inside the passes. *)
Definition run_passes (do_fix : bool) (c_used c_refs : bool) (s : state)
  : state * verdicts :=
  let s := validate_superblock do_fix s in
  let sb := isValid s in
  let s := validate_data_bitmap do_fix c_used s in
  let db := isValid s in
  let s := validate_inode_bitmap do_fix s in
  let ib := isValid s in
  let s := check_duplicate_blocks do_fix c_refs s in
  let nd := isValid s in
  let s := check_bad_blocks do_fix s in
  let nb := isValid s in
  (s, mkVerdicts sb db ib nd nb).

Definition print_summary (post_fix : bool) (v : verdicts) (s : state) : state :=
  let s := printf (MSummaryHeader post_fix) s in
  let s := printf (MSummary post_fix PSuperblock (sb_valid v)) s in
  let s := printf (MSummary post_fix PDataBitmap (data_bitmap_valid v)) s in
  let s := printf (MSummary post_fix PInodeBitmap (inode_bitmap_valid v)) s in
  let s := printf (MSummary post_fix PDuplicate (no_duplicates v)) s in
  let s := printf (MSummary post_fix PBadBlock (no_bad_blocks v)) s in
  printf (MOverall post_fix (fs_valid v)) s.

(** [fwrite] of the whole buffer at offset 0 that reports [count] bytes
    written: the first [count] bytes of the file are replaced. *)
Definition fwrite (buf : image) (count : Z) (file : list byte) : list byte :=
  take (Z.to_nat count) buf ++ drop (Z.to_nat count) file.

Definition main (e : env) : outcome :=
  let argc := Z.of_nat (length (argv e)) in
  if (argc <? 2) || (argc >? 3) then
    mkOutcome 1 [] [EUsage] [] (file_content e) None
  else
    let fix_errors :=
      (argc =? 3) && String.eqb (nth 2 (argv e) EmptyString) "--fix" in
    if negb (fopen_ok e) then
      mkOutcome 1 [] [EOpen] [SysFopen false] (file_content e) None
    else
      let file_size := image_len (file_content e) in
      if negb (file_size =? IMAGE_SIZE) then
        mkOutcome 1 [] [ESizeMismatch file_size] [SysFopen true; SysFclose]
          (file_content e) None
      else if negb (malloc_ok e) then
        mkOutcome 1 [] [EMalloc] [SysFopen true; SysMalloc false; SysFclose]
          (file_content e) None
      else if negb (fread_ok e) then
        mkOutcome 1 [] [ERead]
          [SysFopen true; SysMalloc true; SysFread false; SysFclose]
          (file_content e) None
      else if negb (calloc_ok e 0%nat) then
        mkOutcome 1 [] [ECallocRefs]
          [SysFopen true; SysMalloc true; SysFread true; SysCalloc false;
           SysFclose]
          (file_content e) None
      else
        let s := mkState (file_content e)
                   (replicate (Z.to_nat TOTAL_BLOCKS) false) [] true [] in
        let s := printf MBanner s in
        let s := printf (MImageName (nth 1 (argv e) EmptyString)) s in
        let s := printf (MMode fix_errors) s in
        let (s, v) := run_passes fix_errors (calloc_ok e 1%nat)
                        (calloc_ok e 2%nat) s in
        let s := print_summary false v s in
        let calls :=
          [SysFopen true; SysMalloc true; SysFread true; SysCalloc true;
           SysCalloc (calloc_ok e 1%nat); SysCalloc (calloc_ok e 2%nat)] in
        if fix_errors && negb (fs_valid v) then
          let s := printf MRecheckHeader s in
          let (s, v') := run_passes false (calloc_ok e 3%nat)
                           (calloc_ok e 4%nat) s in
          let s := print_summary true v' s in
          let s := if negb (fs_valid v') then printf MWarning s else s in
          let written := fwrite_count e in
          mkOutcome 0 (stdout s)
            (if negb (written =? file_size) then [EWrite] else [])
            (calls ++ [SysCalloc (calloc_ok e 3%nat);
                       SysCalloc (calloc_ok e 4%nat);
                       SysFwrite written; SysFclose])
            (fwrite (fs_image s) written (file_content e))
            (Some (fs_image s))
        else
          mkOutcome 0 (stdout s) [] (calls ++ [SysFclose])
            (file_content e) (Some (fs_image s)).

(** * [file1.c]: the stand-alone inode-bitmap fixer

    [file1.c] is a separate program with its own [main].  It reads the
    image into the static array [disk], reconciles the inode bitmap with
    the inode table, and writes the array back.  Its two structures are
    packed; the packed [Inode] has the size and the field offsets of
    [inode_t], so [inode_get] reads its fields as well. *)

Module file1.

Definition INODE_BITMAP_BLOCK : Z := 1.
Definition INODE_TABLE_START_BLOCK : Z := 3.
Definition INODES_PER_BLOCK : Z := BLOCK_SIZE / 256.
Definition TOTAL_INODES : Z := INODES_PER_BLOCK * INODE_TABLE_BLOCKS.

(** [uint8_t disk[TOTAL_BLOCKS * BLOCK_SIZE]]: a static array, all zero
    when the program starts. *)
Definition disk_at_start : image :=
  replicate (Z.to_nat (TOTAL_BLOCKS * BLOCK_SIZE)) x00.

Inductive msg :=
| MStarting
| MFixMark (i : Z)
| MFixClear (i : Z)
| MCompleted.

Inductive err_msg := EUsage | EOpen | EWriteOpen.

Record state := mkState {
  disk : image;
  stdout : list msg
}.

Definition printf (m : msg) (s : state) : state :=
  mkState (disk s) (stdout s ++ [m]).

(** What the program receives from outside.  It looks at the result of
    neither [fread] nor [fwrite]; [fread_count] and [fwrite_count] are the
    numbers of bytes those calls transferred. *)
Record env := mkEnv {
  argv : list string;
  fopen_ok : bool;
  file_content : list byte;
  fread_count : Z;
  (** result of the [fopen] of [write_image] *)
  reopen_ok : bool;
  fwrite_count : Z
}.

Record outcome := mkOutcome {
  exit_code : Z;
  std_out : list msg;
  std_err : list err_msg;
  (** content of the image file when the process ends *)
  file_after : list byte
}.

(** [fread] into [buf] of the first [count] bytes of the file; the bytes
    of [buf] behind them keep their value. *)
Definition fread (file : list byte) (count : Z) (buf : image) : image :=
  let got := take (Z.to_nat count) file in
  take (length buf) (got ++ drop (length got) buf).

(** [load_image]; [None] is the [exit(1)] after a failed [fopen]. *)
Definition load_image (e : env) : option image :=
  if negb (fopen_ok e) then None
  else Some (fread (file_content e) (fread_count e) disk_at_start).

(** Offset of [inode_bitmap], as [load_image] binds it. *)
Definition inode_bitmap : Z := INODE_BITMAP_BLOCK * BLOCK_SIZE.

(** Body of the loop of [check_and_fix_inode_bitmap]. *)
Definition check_inode (i : Z) (s : state) : state :=
  let valid :=
    (0 <? inode_get (disk s) i i_links_count)
    && (inode_get (disk s) i i_dtime =? 0) in
  let byte_num := Z.quot i 8 in
  let mask := Z.shiftl 1 (Z.rem i 8) in
  let bitmap_set := Z.land (load8 (disk s) (inode_bitmap + byte_num)) mask in
  if valid && (bitmap_set =? 0) then
    let s := printf (MFixMark i) s in
    mkState
      (store8 (disk s) (inode_bitmap + byte_num)
         (Z.lor (load8 (disk s) (inode_bitmap + byte_num)) mask))
      (stdout s)
  else if negb valid && negb (bitmap_set =? 0) then
    let s := printf (MFixClear i) s in
    mkState
      (store8 (disk s) (inode_bitmap + byte_num)
         (Z.land (load8 (disk s) (inode_bitmap + byte_num)) (Z.lnot mask)))
      (stdout s)
  else s.

Definition check_and_fix_inode_bitmap (s : state) : state :=
  for_loop TOTAL_INODES check_inode s.

(** [write_image]; [None] is the [exit(1)] after a failed [fopen].  The
    file is opened for update, so what lies behind the bytes written
    stays. *)
Definition write_image (e : env) (buf : image) : option (list byte) :=
  if negb (reopen_ok e) then None
  else Some (fwrite buf (fwrite_count e) (file_content e)).

Definition main (e : env) : outcome :=
  if negb (Z.of_nat (length (argv e)) =? 2) then
    mkOutcome 1 [] [EUsage] (file_content e)
  else
    match load_image e with
    | None => mkOutcome 1 [] [EOpen] (file_content e)
    | Some buf =>
        let s := printf MStarting (mkState buf []) in
        let s := check_and_fix_inode_bitmap s in
        match write_image e (disk s) with
        | None => mkOutcome 1 (stdout s) [EWriteOpen] (file_content e)
        | Some file =>
            let s := printf MCompleted s in
            mkOutcome 0 (stdout s) [] file
        end
    end.

End file1.

(** ** Observations on a run *)

(** The ["Error:"] lines of an output. *)
Definition findings (out : list msg) : list msg := List.filter is_finding out.

(** The passes whose banner an output contains, in order of appearance. *)
Definition passes_run (out : list msg) : list pass :=
  List.flat_map (fun m => match m with MHeader p => [p] | _ => [] end) out.

(** Number of [fwrite] calls of a run. *)
Definition write_count (calls : list sys_call) : nat :=
  List.length
    (List.filter (fun c => match c with SysFwrite _ => true | _ => false end)
       calls).

(** ** The run of [main], named piece by piece *)

Definition argc (e : env) : Z := Z.of_nat (length (argv e)).

Definition usage_error (e : env) : bool := (argc e <? 2) || (argc e >? 3).

(** [fix_errors] of [main]. *)
Definition fix_requested (e : env) : bool :=
  (argc e =? 3) && String.eqb (nth 2 (argv e) EmptyString) "--fix".

Definition size_mismatch (e : env) : bool :=
  negb (image_len (file_content e) =? IMAGE_SIZE).

(** The failures after which [main] returns before any pass has run: bad
    usage, [fopen], the size test, [malloc] of the buffer, [fread], and the
    [calloc] of [block_ref_count]. *)
Definition startup_failure (e : env) : bool :=
  usage_error e || negb (fopen_ok e) || size_mismatch e
  || negb (malloc_ok e) || negb (fread_ok e) || negb (calloc_ok e 0%nat).

(** The state in which [main] makes its first call of a pass. *)
Definition boot_state (e : env) : state :=
  printf (MMode (fix_requested e))
    (printf (MImageName (nth 1 (argv e) EmptyString))
       (printf MBanner
          (mkState (file_content e) (replicate (Z.to_nat TOTAL_BLOCKS) false)
             [] true []))).

Definition first_round (e : env) : state * verdicts :=
  run_passes (fix_requested e) (calloc_ok e 1%nat) (calloc_ok e 2%nat)
    (boot_state e).

(** The condition [fix_errors && !fs_valid] under which [main] re-runs the
    passes and writes the image. *)
Definition rerun (e : env) : bool :=
  fix_requested e && negb (fs_valid (snd (first_round e))).

Definition second_round (e : env) : state * verdicts :=
  run_passes false (calloc_ok e 3%nat) (calloc_ok e 4%nat)
    (printf MRecheckHeader
       (print_summary false (snd (first_round e)) (fst (first_round e)))).

(** The order in which [main] calls the passes. *)
Definition code_order : list pass :=
  [PSuperblock; PDataBitmap; PInodeBitmap; PDuplicate; PBadBlock].

(** The order of sections 4.2 to 4.6 of the specification. *)
Definition spec_order : list pass :=
  [PSuperblock; PInodeBitmap; PDataBitmap; PDuplicate; PBadBlock].

(** A library call of the log that reported failure. *)
Definition io_failed (c : sys_call) : bool :=
  match c with
  | SysFopen ok | SysFread ok => negb ok
  | SysFwrite count => negb (count =? IMAGE_SIZE)
  | _ => false
  end.

Definition alloc_failed (c : sys_call) : bool :=
  match c with
  | SysMalloc ok | SysCalloc ok => negb ok
  | _ => false
  end.

Definition write_failed (c : sys_call) : bool :=
  match c with
  | SysFwrite count => negb (count =? IMAGE_SIZE)
  | _ => false
  end.

Definition is_usage_msg (m : err_msg) : bool :=
  match m with EUsage => true | _ => false end.

Definition is_size_msg (m : err_msg) : bool :=
  match m with ESizeMismatch _ => true | _ => false end.

(** The four causes that the specification gives for exit code 1, read off
    the run: a usage error, an I/O failure (open, read or write), an
    allocation failure, or an image-size mismatch. *)
Definition failure_observed (o : outcome) : bool :=
  existsb is_usage_msg (std_err o)
  || existsb io_failed (sys_calls o)
  || existsb alloc_failed (sys_calls o)
  || existsb is_size_msg (std_err o).

(** ** Sample images and environments *)

Definition blank_image : image := replicate (Z.to_nat IMAGE_SIZE) x00.

(** Writes the nine required values into the superblock. *)
Definition format_superblock (img : image) : image :=
  foldl (fun im f => sb_store im f (sb_expected f)) img
    [f_magic; f_block_size; f_total_blocks; f_inode_bitmap_block;
     f_data_bitmap_block; f_inode_table_start; f_first_data_block;
     f_inode_size; f_inode_count].

(** Scenario S1: one live inode whose direct pointer is block 8, both
    bitmaps in agreement. *)
Definition clean_image : image :=
  let img := format_superblock blank_image in
  let img := inode_set img 0 i_links_count 1 in
  let img := inode_set img 0 i_direct_block 8 in
  let img := set_bit img inode_bitmap 0 in
  set_bit img data_bitmap 0.

(** Scenario S2: S1 with bit 0 of the inode bitmap cleared. *)
Definition stale_image : image := clear_bit clean_image inode_bitmap 0.

Definition check_args : list string := ["vsfsck"%string; "vsfs.img"%string].
Definition fix_args : list string :=
  ["vsfsck"%string; "vsfs.img"%string; "--fix"%string].

(** An environment in which every library call succeeds. *)
Definition env_for (args : list string) (img : image) : env :=
  mkEnv args true img true true (fun _ => true) IMAGE_SIZE.

(** Scenario S6: an image file one byte short. *)
Definition short_image : image := replicate (Z.to_nat (IMAGE_SIZE - 1)) x00.

(** An environment in which only the [calloc] of [block_used], inside the
    data-bitmap pass, fails. *)
Definition env_pass_alloc_fails : env :=
  mkEnv check_args true blank_image true true
    (fun k => negb (Nat.eqb k 1)) IMAGE_SIZE.

(** ** Consistency of an image *)

(** The state in which a pass finds a freshly loaded image. *)
Definition pristine (img : image) : state :=
  mkState img (replicate (Z.to_nat TOTAL_BLOCKS) false) [] true [].

(** An image is consistent when a check-only round of the five passes
    reports no violation. *)
Definition consistent (img : image) : bool :=
  fs_valid (snd (run_passes false true true (pristine img))).

Definition all_sb_fields : list sb_field :=
  [f_magic; f_block_size; f_total_blocks; f_inode_bitmap_block;
   f_data_bitmap_block; f_inode_table_start; f_first_data_block;
   f_inode_size; f_inode_count].

(** Bit [i] of the inode bitmap agrees with the liveness of inode [i]. *)
Definition inode_bit_ok (img : image) (i : Z) : bool :=
  Bool.eqb (is_inode_valid img i) (is_bit_set img inode_bitmap i).

(** Bit [k] of the data bitmap agrees with [block_used[k]]. *)
Definition data_bit_ok (img : image) (block_used : list bool) (k : Z) : bool :=
  Bool.eqb (used_at block_used k) (is_bit_set img data_bitmap k).

(** The four block-pointer fields of an inode. *)
Definition pointer_slots : list inode_field :=
  [i_direct_block; i_single_indirect; i_double_indirect; i_triple_indirect].

(** Block [b] is held by one of the four pointer slots of a live inode
    with index below [n]. *)
Definition top_level_pointer (img : image) (n : Z) (b : Z) : Prop :=
  exists i f, 0 <= i < n /\ is_inode_valid img i = true
              /\ In f pointer_slots /\ inode_get img i f = b.

(** An image whose only live inode uses block 3, the first block of the
    inode table, as its single-indirect block; its link count is 100. *)
Definition self_scan_image : image :=
  let img := format_superblock blank_image in
  let img := inode_set img 0 i_links_count 100 in
  inode_set img 0 i_single_indirect 3.

(** Bit 0 of the inode bitmap, the liveness of inode 0 and its link count. *)
Definition inode0_summary (img : image) : bool * bool * Z :=
  (is_bit_set img inode_bitmap 0, is_inode_valid img 0,
   inode_get img 0 i_links_count).

(** The results of the round of passes that a run made last. *)
Definition last_verdicts (e : env) : verdicts :=
  if rerun e then snd (second_round e) else snd (first_round e).

(** The states between the passes of the first round. *)
Definition after_superblock (e : env) : state :=
  validate_superblock (fix_requested e) (boot_state e).

Definition after_data_bitmap (e : env) : state :=
  validate_data_bitmap (fix_requested e) (calloc_ok e 1%nat)
    (after_superblock e).

Definition after_inode_bitmap (e : env) : state :=
  validate_inode_bitmap (fix_requested e) (after_data_bitmap e).

Definition after_duplicates (e : env) : state :=
  check_duplicate_blocks (fix_requested e) (calloc_ok e 2%nat)
    (after_inode_bitmap e).

Definition after_bad_blocks (e : env) : state :=
  check_bad_blocks (fix_requested e) (after_duplicates e).

(** ** Vocabulary for the bad-block pass *)

(** Between [img] and [img'] every aligned 32-bit word is either unchanged
    or held a bad block number and now holds zero. *)
Definition only_bad_zeroed (img img' : image) : Prop :=
  image_len img' = image_len img
  /\ forall w, w mod 4 = 0 ->
       load32 img' w = load32 img w
       \/ (TOTAL_BLOCKS <= load32 img w /\ load32 img' w = 0).

(** Block [b], read as an indirect block with [depth] further levels of
    indirect blocks below it, holds no bad block number, and neither does
    any block reached from it. *)
Fixpoint graph_clean (depth : nat) (img : image) (b : Z) : Prop :=
  forall j, 0 <= j < ENTRIES_PER_BLOCK ->
    entry_get img (b * BLOCK_SIZE) j < TOTAL_BLOCKS
    /\ match depth with
       | O => True
       | Datatypes.S d =>
           entry_get img (b * BLOCK_SIZE) j <> 0 ->
           graph_clean d img (entry_get img (b * BLOCK_SIZE) j)
       end.

(** A pointer slot of inode [i] holds no bad block number, and the
    indirect blocks below it ([walk] levels of them) hold none either. *)
Definition slot_clean (img : image) (i : Z) (f : inode_field)
    (walk : option nat) : Prop :=
  inode_get img i f < TOTAL_BLOCKS
  /\ match walk with
     | None => True
     | Some depth =>
         inode_get img i f <> 0 -> graph_clean depth img (inode_get img i f)
     end.

Definition inode_clean (img : image) (i : Z) : Prop :=
  slot_clean img i i_direct_block None
  /\ slot_clean img i i_single_indirect (Some 0%nat)
  /\ slot_clean img i i_double_indirect (Some 1%nat)
  /\ slot_clean img i i_triple_indirect (Some 2%nat).

(** Scenario S3: the only live inode has the bad direct pointer 100. *)
Definition bad_direct_image : image :=
  let img := format_superblock blank_image in
  let img := inode_set img 0 i_links_count 1 in
  let img := inode_set img 0 i_direct_block 100 in
  set_bit img inode_bitmap 0.

(** An image whose only live inode uses block 2, the data bitmap, as its
    single-indirect block; the first 32 bits of the bitmap are set. *)
Definition bitmap_scan_image : image :=
  let img := format_superblock blank_image in
  let img := inode_set img 0 i_links_count 1 in
  let img := inode_set img 0 i_single_indirect 2 in
  store32 img data_bitmap 0xFFFFFFFF.

(** The indirect pointer slots with the number of levels below each. *)
Definition indirect_slots : list (inode_field * nat) :=
  [(i_single_indirect, 0%nat); (i_double_indirect, 1%nat);
   (i_triple_indirect, 2%nat)].

(** An image whose only live inode has the double-indirect block 9; the
    first two entries of block 9 both name block 10, and block 10 names the
    single data block 11. *)
Definition shared_container_image : image :=
  let img := format_superblock blank_image in
  let img := inode_set img 0 i_links_count 1 in
  let img := inode_set img 0 i_double_indirect 9 in
  let img := entry_set img (9 * BLOCK_SIZE) 0 10 in
  let img := entry_set img (9 * BLOCK_SIZE) 1 10 in
  entry_set img (10 * BLOCK_SIZE) 0 11.

(** The duplicate pass on an image: what it reports in check-only mode,
    and entries 0 and 1 of block 9 and entry 0 of block 10 after it has run
    in repair mode. *)
Definition dup_probe (img : image) : list msg * Z * Z * Z :=
  let checked := check_duplicate_blocks false true (pristine img) in
  let repaired := check_duplicate_blocks true true (pristine img) in
  (findings (stdout checked),
   entry_get (fs_image repaired) (9 * BLOCK_SIZE) 0,
   entry_get (fs_image repaired) (9 * BLOCK_SIZE) 1,
   entry_get (fs_image repaired) (10 * BLOCK_SIZE) 0).

(** * Relations used in the proofs *)

(** ** What every step of a pass respects

    [quiet do_fix s s'] relates the state before and after a piece of a
    pass: the buffer keeps its length; [isValid] is only ever cleared; as
    long as [isValid] is still set nothing was reported and nothing was
    written; a check-only step never writes; and no banner is printed. *)

Record quiet (do_fix : bool) (s s' : state) : Prop := mkQuiet {
  q_len : image_len (fs_image s') = image_len (fs_image s);
  q_valid : isValid s' = true ->
            isValid s = true
            /\ findings (stdout s') = findings (stdout s)
            /\ fs_image s' = fs_image s;
  q_check : do_fix = false -> fs_image s' = fs_image s;
  q_banner : passes_run (stdout s') = passes_run (stdout s)
}.

(** What a pass [p] does to the state, whatever it finds: it prints its
    banner once; when it returns [true] it has reported nothing and written
    nothing; in check-only mode it never writes. *)
Record pass_effect (p : pass) (do_fix : bool) (s s' : state) : Prop := mkPassEffect {
  pe_len : image_len (fs_image s') = image_len (fs_image s);
  pe_valid : isValid s' = true ->
             findings (stdout s') = findings (stdout s)
             /\ fs_image s' = fs_image s;
  pe_check : do_fix = false -> fs_image s' = fs_image s;
  pe_banner : passes_run (stdout s') = passes_run (stdout s) ++ [p]
}.

(** ** The passes depend on the buffer only

    What a pass writes and returns is determined by the buffer and, inside
    the duplicate pass, by the two reference tables; the output printed so
    far plays no part. *)

Definition same_data (s t : state) : Prop :=
  fs_image s = fs_image t /\ block_ref_count s = block_ref_count t
  /\ inode_refs s = inode_refs t /\ isValid s = isValid t.

Definition same_image (s t : state) : Prop :=
  fs_image s = fs_image t /\ isValid s = isValid t.

(** What one iteration of a bitmap loop achieves in repair mode: bit [i]
    of the bitmap at [bm] becomes [target], nothing else changes. *)
Definition bit_reconciled (bm i : Z) (target : bool) (img img' : image) : Prop :=
  image_len img' = image_len img
  /\ (forall j, 0 <= j ->
        is_bit_set img' bm j = if j =? i then target else is_bit_set img bm j)
  /\ (forall off, off <> bm + i / 8 -> byte_at img' off = byte_at img off).

(** State of a bitmap loop after [j] iterations: the first [j] bits hold
    their targets, the later bits and every byte outside the [n] bits of
    the bitmap are as at the start. *)
Definition bitmap_progress (bm n : Z) (target : Z -> bool) (img0 : image)
    (j : Z) (img : image) : Prop :=
  image_len img = image_len img0
  /\ (forall k, 0 <= k < j -> is_bit_set img bm k = target k)
  /\ (forall k, j <= k -> is_bit_set img bm k = is_bit_set img0 bm k)
  /\ (forall off, ~ (bm <= off < bm + (n + 7) / 8) ->
        byte_at img off = byte_at img0 off).

(** The first [n] entries of block [b] hold no bad block number, and
    neither do the blocks below them. *)
Definition entries_clean (depth : nat) (img : image) (b n : Z) : Prop :=
  forall j, 0 <= j < n ->
    entry_get img (b * BLOCK_SIZE) j < TOTAL_BLOCKS
    /\ match depth with
       | O => True
       | Datatypes.S d =>
           entry_get img (b * BLOCK_SIZE) j <> 0 ->
           graph_clean d img (entry_get img (b * BLOCK_SIZE) j)
       end.

(** ** Vocabulary for the superblock pass *)

(** Number of bytes of a superblock field. *)
Definition sb_width (f : sb_field) : Z :=
  match f with f_magic => 2 | _ => 4 end.

(** The test that [validate_superblock] makes on a field. *)
Definition sb_wrong (img : image) (f : sb_field) : bool :=
  negb (sb_load img f =? sb_expected f).

(** One ["Error:"] line for each field of [img] that fails the test, in
    the order of the structure, with the value found. *)
Definition sb_errors (img : image) : list msg :=
  List.map (fun f => MSbError f (sb_load img f))
    (List.filter (sb_wrong img) all_sb_fields).

(** ** Vocabulary for the bitmap passes *)

Definition no_lines (l : list msg) : bool :=
  match l with [] => true | _ => false end.

(** The ["Error:"] line of the inode-bitmap pass for inode [i], if any. *)
Definition ibm_error (img : image) (i : Z) : list msg :=
  if is_inode_valid img i && negb (is_bit_set img inode_bitmap i)
  then [MIbmErrNotMarked i]
  else if negb (is_inode_valid img i) && is_bit_set img inode_bitmap i
       then [MIbmErrInvalid i]
       else [].

Definition ibm_errors (img : image) : list msg :=
  List.flat_map (ibm_error img) (seqZ 0 INODE_COUNT).

(** The ["Error:"] line of the data-bitmap pass for bit [k], if any. *)
Definition dbm_error (img : image) (block_used : list bool) (k : Z)
  : list msg :=
  if used_at block_used k && negb (is_bit_set img data_bitmap k)
  then [MDbmErrNotMarked (k + DATA_BLOCK_START_NUM)]
  else if negb (used_at block_used k) && is_bit_set img data_bitmap k
       then [MDbmErrNotReferenced (k + DATA_BLOCK_START_NUM)]
       else [].

Definition dbm_errors (img : image) : list msg :=
  List.flat_map (dbm_error img (collect_block_used img))
    (seqZ 0 DATA_BLOCKS_COUNT).

(** ** Vocabulary for the duplicate pass *)

(** What every step of the duplicate pass respects: a block that has been
    seen stays seen, a line that has been printed stays printed, and the
    table [block_ref_count] keeps its length. *)
Record dup_grows (s s' : state) : Prop := mkDupGrows {
  g_seen : forall b, ref_seen s b = true -> ref_seen s' b = true;
  g_out : forall m, In m (stdout s) -> In m (stdout s');
  g_len : length (block_ref_count s') = length (block_ref_count s)
}.

(** The four pointer slots in the order in which the pass visits them,
    each with the wording of its report and the depth of its walk. *)
Definition dup_slots : list (inode_field * dup_tag * option nat) :=
  [(i_direct_block, TagPlain, None);
   (i_single_indirect, TagSingle, Some 0%nat);
   (i_double_indirect, TagDouble, Some 1%nat);
   (i_triple_indirect, TagTriple, Some 2%nat)].

Definition dup_slot (do_fix : bool) (i : Z) (t : state)
    (x : inode_field * dup_tag * option nat) : state :=
  dup_top do_fix i (fst (fst x)) (snd (fst x)) (snd x) t.

(** The pass has returned [false] and has reported block [b] as a
    duplicate. *)
Definition dup_reported (b : Z) (s : state) : Prop :=
  isValid s = false
  /\ exists tg owner ino, In (MDupError tg b owner ino) (stdout s).

(** An image in which inodes 0 and 1 are live and both have block 9 as
    their direct block. *)
Definition shared_direct_image : image :=
  let img := format_superblock blank_image in
  let img := inode_set img 0 i_links_count 1 in
  let img := inode_set img 0 i_direct_block 9 in
  let img := inode_set img 1 i_links_count 1 in
  inode_set img 1 i_direct_block 9.

(** ** Vocabulary for the passes as a family *)

(** The pass that [main] calls for [p]; [c] is the result of the [calloc]
    of the two passes that allocate a table. *)
Definition run_pass (p : pass) (do_fix c : bool) (s : state) : state :=
  match p with
  | PSuperblock => validate_superblock do_fix s
  | PDataBitmap => validate_data_bitmap do_fix c s
  | PInodeBitmap => validate_inode_bitmap do_fix s
  | PDuplicate => check_duplicate_blocks do_fix c s
  | PBadBlock => check_bad_blocks do_fix s
  end.

(** The lines that tell of a failed check: the ["Error:"] lines and
    ["Memory allocation failed"]. *)
Definition is_alarm (m : msg) : bool :=
  is_finding m || match m with MAllocFailed => true | _ => false end.

(** From [s] to [s'] the output has grown by some lines, and [isValid]
    has been cleared exactly if one of them is an alarm. *)
Definition reports (s s' : state) : Prop :=
  exists ext, stdout s' = stdout s ++ ext
              /\ isValid s' = isValid s && negb (existsb is_alarm ext).

(** Number of [fclose] calls of a run. *)
Definition close_count (calls : list sys_call) : nat :=
  List.length
    (List.filter (fun c => match c with SysFclose => true | _ => false end)
       calls).

(** A command line whose third argument is not [--fix]. *)
Definition other_flag_args : list string :=
  ["vsfsck"%string; "vsfs.img"%string; "-f"%string].

(** ** Vocabulary for [file1.c] *)

(** The line of [file1.c] that corresponds to a line of the inode-bitmap
    pass of [vsfsck.c]: only the two ["Fixing:"] lines have one. *)
Definition file1_line (m : msg) : list file1.msg :=
  match m with
  | MIbmFixMark i => [file1.MFixMark i]
  | MIbmFixClear i => [file1.MFixClear i]
  | _ => []
  end.

(** The buffer [disk] after [load_image]. *)
Definition file1_loaded (e : file1.env) : image :=
  file1.fread (file1.file_content e) (file1.fread_count e)
    file1.disk_at_start.

(** The state in which [check_and_fix_inode_bitmap] returns to [main],
    and the buffer [disk] at that point. *)
Definition file1_checked (e : file1.env) : file1.state :=
  file1.check_and_fix_inode_bitmap
    (file1.printf file1.MStarting (file1.mkState (file1_loaded e) [])).

Definition file1_repaired (e : file1.env) : image :=
  file1.disk (file1_checked e).

(** The environment of a second run on the file that the first run has
    left behind. *)
Definition file1_rerun (e : file1.env) : file1.env :=
  file1.mkEnv (file1.argv e) (file1.fopen_ok e)
    (file1.file_after (file1.main e)) (file1.fread_count e)
    (file1.reopen_ok e) (file1.fwrite_count e).

(** An environment of [file1.c] in which every call succeeds and
    transfers the whole image. *)
Definition file1_env_for (img : image) : file1.env :=
  file1.mkEnv ["file1"%string; "vsfs.img"%string] true img IMAGE_SIZE true
    IMAGE_SIZE.

(** The lines of a summary in front of its status line. *)
Definition summary_lines (post_fix : bool) (v : verdicts) : list msg :=
  [MSummaryHeader post_fix;
   MSummary post_fix PSuperblock (sb_valid v);
   MSummary post_fix PDataBitmap (data_bitmap_valid v);
   MSummary post_fix PInodeBitmap (inode_bitmap_valid v);
   MSummary post_fix PDuplicate (no_duplicates v);
   MSummary post_fix PBadBlock (no_bad_blocks v)].

(** Inode [i] of [img], if live, uses no indirect block. *)
Definition direct_only (img : image) (i : Z) : bool :=
  negb (is_inode_valid img i)
  || ((inode_get img i i_single_indirect =? 0)
      && (inode_get img i i_double_indirect =? 0)
      && (inode_get img i i_triple_indirect =? 0)).

(** Two live inodes with indices below [n] have the same block of the
    data region as their direct block. *)
Definition shared_direct (img : image) (n : Z) : Prop :=
  exists i k, 0 <= i < k /\ k < n
              /\ is_inode_valid img i = true /\ is_inode_valid img k = true
              /\ in_data_region (inode_get img i i_direct_block) = true
              /\ inode_get img i i_direct_block
                 = inode_get img k i_direct_block.

(** * Properties of the embedding *)

(** ** Pairs and options *)

Lemma some_inj {A : Type} (a b : A) : Some a = Some b -> a = b.
Proof. intros H. injection H. auto. Qed.

Lemma triple_inj {A B C : Type} (a x : A) (b y : B) (c z : C) :
  (a, b, c) = (x, y, z) -> a = x /\ b = y /\ c = z.
Proof. intros H. injection H. auto. Qed.

(** ** Bytes, loads and stores *)

Lemma byte_val_range (b : byte) : 0 <= byte_val b < 256.
Proof. unfold byte_val. pose proof (Byte.to_N_bounded b). lia. Qed.

Lemma byte_val_of_Z (z : Z) : byte_val (byte_of_Z z) = z mod 256.
Proof.
  unfold byte_val, byte_of_Z.
  pose proof (Z.mod_pos_bound z 256 eq_refl) as Hm.
  destruct (Byte.of_N (Z.to_N (z mod 256))) as [b|] eqn:E.
  - apply Byte.to_of_N in E. rewrite E. lia.
  - apply Byte.of_N_None_iff in E. lia.
Qed.

Lemma byte_of_Z_val (b : byte) : byte_of_Z (byte_val b) = b.
Proof.
  unfold byte_of_Z. pose proof (byte_val_range b) as Hr.
  rewrite Z.mod_small by lia. unfold byte_val.
  rewrite N2Z.id, Byte.of_to_N. reflexivity.
Qed.

Lemma byte_val_inj (a b : byte) : byte_val a = byte_val b -> a = b.
Proof.
  intros H. rewrite <- (byte_of_Z_val a), <- (byte_of_Z_val b). now rewrite H.
Qed.

Lemma image_len_set_byte img off b : image_len (set_byte img off b) = image_len img.
Proof.
  unfold image_len, set_byte. destruct (off <? 0); [reflexivity|].
  now rewrite length_insert.
Qed.

Lemma byte_at_set_same img off b :
  0 <= off < image_len img -> byte_at (set_byte img off b) off = b.
Proof.
  unfold image_len, byte_at, set_byte. intros H.
  destruct (Z.ltb_spec off 0); [lia|].
  rewrite list_lookup_insert_eq by lia. reflexivity.
Qed.

Lemma byte_at_set_other img off off' b :
  off <> off' -> byte_at (set_byte img off b) off' = byte_at img off'.
Proof.
  unfold byte_at, set_byte. intros H.
  destruct (Z.ltb_spec off' 0); [reflexivity|].
  destruct (Z.ltb_spec off 0); [reflexivity|].
  rewrite list_lookup_insert_ne by lia. reflexivity.
Qed.

Lemma byte_at_outside img off :
  ~ (0 <= off < image_len img) -> byte_at img off = x00.
Proof.
  unfold byte_at, image_len. intros H.
  destruct (Z.ltb_spec off 0); [reflexivity|].
  rewrite lookup_ge_None_2 by lia. reflexivity.
Qed.

Lemma set_byte_outside img off b :
  ~ (0 <= off < image_len img) -> set_byte img off b = img.
Proof.
  unfold set_byte, image_len. intros H.
  destruct (Z.ltb_spec off 0); [reflexivity|].
  apply list_insert_ge. lia.
Qed.

(** Two buffers of one length with the same bytes are the same buffer. *)
Lemma image_ext (a b : image) :
  image_len a = image_len b ->
  (forall off, 0 <= off < image_len a -> byte_at a off = byte_at b off) ->
  a = b.
Proof.
  unfold image_len. intros Hl H. apply list_eq. intros i.
  destruct (decide (i < length a)%nat) as [Hi|Hi].
  - specialize (H (Z.of_nat i)). unfold byte_at, image_len in H.
    destruct (Z.ltb_spec (Z.of_nat i) 0); [lia|].
    rewrite Nat2Z.id in H.
    destruct (lookup_lt_is_Some_2 a i Hi) as [x Hx].
    destruct (lookup_lt_is_Some_2 b i ltac:(lia)) as [y Hy].
    rewrite Hx, Hy in *. simpl in H. f_equal. apply H. lia.
  - rewrite !lookup_ge_None_2 by lia. reflexivity.
Qed.

Lemma image_len_store8 img off v : image_len (store8 img off v) = image_len img.
Proof. apply image_len_set_byte. Qed.

Lemma image_len_store16 img off v : image_len (store16 img off v) = image_len img.
Proof. unfold store16. now rewrite !image_len_store8. Qed.

Lemma image_len_store32 img off v : image_len (store32 img off v) = image_len img.
Proof. unfold store32. now rewrite !image_len_store8. Qed.

Lemma load8_range img off : 0 <= load8 img off < 256.
Proof. apply byte_val_range. Qed.

Lemma load32_range img off : 0 <= load32 img off < 2^32.
Proof.
  unfold load32.
  pose proof (load8_range img off). pose proof (load8_range img (off + 1)).
  pose proof (load8_range img (off + 2)). pose proof (load8_range img (off + 3)).
  lia.
Qed.

Lemma load8_store8_same img off v :
  0 <= off < image_len img -> load8 (store8 img off v) off = v mod 256.
Proof.
  intros H. unfold load8, store8. rewrite byte_at_set_same by assumption.
  apply byte_val_of_Z.
Qed.

Lemma load8_store8_other img off off' v :
  off <> off' -> load8 (store8 img off v) off' = load8 img off'.
Proof. intros H. unfold load8, store8. now rewrite byte_at_set_other. Qed.

Lemma load8_store32_other img off off' v :
  off' < off \/ off + 4 <= off' ->
  load8 (store32 img off v) off' = load8 img off'.
Proof.
  intros H. unfold store32. rewrite !load8_store8_other by lia. reflexivity.
Qed.

Lemma load8_store16_other img off off' v :
  off' < off \/ off + 2 <= off' ->
  load8 (store16 img off v) off' = load8 img off'.
Proof.
  intros H. unfold store16. rewrite !load8_store8_other by lia. reflexivity.
Qed.

Lemma load32_store32_other img off off' v :
  off' + 4 <= off \/ off + 4 <= off' ->
  load32 (store32 img off v) off' = load32 img off'.
Proof.
  intros H. unfold load32. rewrite !load8_store32_other by lia. reflexivity.
Qed.

Lemma load32_store32_same img off v :
  0 <= off -> off + 4 <= image_len img -> 0 <= v < 2^32 ->
  load32 (store32 img off v) off = v.
Proof.
  intros H0 H1 Hv. unfold load32, store32.
  rewrite (load8_store8_other _ (off + 3) off) by lia.
  rewrite (load8_store8_other _ (off + 2) off) by lia.
  rewrite (load8_store8_other _ (off + 1) off) by lia.
  rewrite (load8_store8_other _ (off + 3) (off + 1)) by lia.
  rewrite (load8_store8_other _ (off + 2) (off + 1)) by lia.
  rewrite (load8_store8_other _ (off + 3) (off + 2)) by lia.
  rewrite !load8_store8_same by (rewrite ?image_len_store8; lia).
  change (2^8) with 256. change (2^16) with 65536. change (2^24) with 16777216.
  change (2^32) with 4294967296 in Hv.
  Z.div_mod_to_equations. lia.
Qed.

(** ** Bits of a bitmap *)

Lemma land_shiftl_1 (b n : Z) :
  0 <= n -> (Z.land b (Z.shiftl 1 n) =? 0) = negb (Z.testbit b n).
Proof.
  intros Hn. destruct (Z.testbit b n) eqn:E; cbn [negb].
  - apply Z.eqb_neq. intros H.
    assert (T : Z.testbit (Z.land b (Z.shiftl 1 n)) n = true).
    { rewrite Z.land_spec, E, Z.shiftl_spec, Z.sub_diag by lia. reflexivity. }
    rewrite H, Z.bits_0 in T. discriminate.
  - apply Z.eqb_eq. apply Z.bits_inj'. intros k Hk.
    rewrite Z.land_spec, Z.bits_0, Z.shiftl_spec by lia.
    destruct (Z.eq_dec k n) as [->|Hne]; [now rewrite E|].
    destruct (Z.ltb_spec k n).
    + rewrite (Z.testbit_neg_r 1) by lia. apply andb_false_r.
    + replace (k - n) with (Z.succ (k - n - 1)) by lia.
      rewrite (Z.bits_above_log2 1) by (cbn; lia). apply andb_false_r.
Qed.

(** For a bit number that is not negative, [is_bit_set] tests bit
    [bit_num mod 8] of byte [bit_num / 8]. *)
Lemma is_bit_set_testbit img bm i :
  0 <= i -> is_bit_set img bm i = Z.testbit (load8 img (bm + i / 8)) (i mod 8).
Proof.
  intros Hi. unfold is_bit_set. cbv zeta.
  rewrite Z.quot_div_nonneg, Z.rem_mod_nonneg by lia.
  rewrite land_shiftl_1 by (apply Z.mod_pos_bound; lia).
  apply negb_involutive.
Qed.

Lemma testbit_shiftl_1 (n k : Z) :
  0 <= n -> 0 <= k -> Z.testbit (Z.shiftl 1 n) k = (k =? n).
Proof.
  intros Hn Hk. rewrite Z.shiftl_spec by lia.
  destruct (Z.eqb_spec k n) as [->|Hne].
  - rewrite Z.sub_diag. reflexivity.
  - destruct (Z.ltb_spec k n).
    + apply Z.testbit_neg_r. lia.
    + replace (k - n) with (Z.succ (k - n - 1)) by lia.
      apply (Z.bits_above_log2 1); cbn; lia.
Qed.

Lemma testbit_small (b k : Z) : 0 <= b < 256 -> 8 <= k -> Z.testbit b k = false.
Proof.
  intros Hb Hk. destruct (Z.eq_dec b 0) as [->|Hne]; [apply Z.bits_0|].
  apply Z.bits_above_log2; [lia|].
  assert (Z.log2 b < 8) by (apply Z.log2_lt_pow2; lia). lia.
Qed.

Lemma small_of_bits (b : Z) :
  0 <= b -> (forall k, 8 <= k -> Z.testbit b k = false) -> b < 256.
Proof.
  intros Hb H. destruct (Z.ltb_spec b 256) as [|Hge]; [assumption|].
  assert (L : 8 <= Z.log2 b) by (apply (Z.log2_le_pow2 b 8); lia).
  pose proof (Z.bit_log2 b ltac:(lia)) as T. rewrite H in T by lia. discriminate.
Qed.

(** The byte that [set_bit] stores. *)
Lemma set_bit_byte (b n : Z) :
  0 <= b < 256 -> 0 <= n < 8 ->
  0 <= Z.lor b (Z.shiftl 1 n) < 256
  /\ forall k, 0 <= k ->
       Z.testbit (Z.lor b (Z.shiftl 1 n)) k = Z.testbit b k || (k =? n).
Proof.
  intros Hb Hn.
  assert (T : forall k, 0 <= k ->
              Z.testbit (Z.lor b (Z.shiftl 1 n)) k = Z.testbit b k || (k =? n)).
  { intros k Hk. now rewrite Z.lor_spec, testbit_shiftl_1 by lia. }
  split; [|exact T].
  assert (P : 0 <= Z.lor b (Z.shiftl 1 n)).
  { apply Z.lor_nonneg. split; [lia|]. apply Z.shiftl_nonneg. lia. }
  split; [exact P|]. apply small_of_bits; [exact P|].
  intros k Hk. rewrite T by lia. rewrite testbit_small by lia.
  destruct (Z.eqb_spec k n); [lia|reflexivity].
Qed.

(** The byte that [clear_bit] stores. *)
Lemma clear_bit_byte (b n : Z) :
  0 <= b < 256 -> 0 <= n < 8 ->
  0 <= Z.land b (Z.lnot (Z.shiftl 1 n)) < 256
  /\ forall k, 0 <= k ->
       Z.testbit (Z.land b (Z.lnot (Z.shiftl 1 n))) k
       = Z.testbit b k && negb (k =? n).
Proof.
  intros Hb Hn.
  assert (T : forall k, 0 <= k ->
              Z.testbit (Z.land b (Z.lnot (Z.shiftl 1 n))) k
              = Z.testbit b k && negb (k =? n)).
  { intros k Hk.
    now rewrite Z.land_spec, Z.lnot_spec, testbit_shiftl_1 by lia. }
  split; [|exact T].
  assert (P : 0 <= Z.land b (Z.lnot (Z.shiftl 1 n))).
  { apply Z.land_nonneg. left. lia. }
  split; [exact P|]. apply small_of_bits; [exact P|].
  intros k Hk. rewrite T by lia. rewrite testbit_small by lia. reflexivity.
Qed.

Lemma store8_load8_small img off v :
  0 <= v < 256 -> 0 <= off < image_len img ->
  load8 (store8 img off v) off = v.
Proof.
  intros Hv Ho. rewrite load8_store8_same by assumption. apply Z.mod_small. lia.
Qed.

(** Where two bit numbers live. *)
Lemma bit_position (i j : Z) :
  0 <= i -> 0 <= j ->
  (i / 8 = j / 8 /\ i mod 8 = j mod 8) <-> i = j.
Proof.
  intros Hi Hj. split; [|intros ->; auto].
  intros [H1 H2].
  rewrite (Z.div_mod i 8), (Z.div_mod j 8) by lia. congruence.
Qed.

(** Effect of [set_bit] on the bits of its bitmap and on the other bytes. *)
Lemma is_bit_set_set_bit img bm i j :
  0 <= i -> 0 <= j -> 0 <= bm + i / 8 < image_len img ->
  is_bit_set (set_bit img bm i) bm j = (j =? i) || is_bit_set img bm j.
Proof.
  intros Hi Hj Hr. rewrite !is_bit_set_testbit by assumption.
  unfold set_bit. cbv zeta.
  rewrite Z.quot_div_nonneg, Z.rem_mod_nonneg by lia.
  pose proof (Z.mod_pos_bound i 8 ltac:(lia)) as Mi.
  pose proof (Z.mod_pos_bound j 8 ltac:(lia)) as Mj.
  destruct (set_bit_byte (load8 img (bm + i / 8)) (i mod 8)
              (load8_range _ _) Mi) as [R T].
  destruct (Z.eq_dec (i / 8) (j / 8)) as [E|E].
  - rewrite <- E. rewrite store8_load8_small by assumption.
    rewrite T by lia. rewrite orb_comm. f_equal.
    destruct (Z.eqb_spec (j mod 8) (i mod 8)) as [E2|E2];
      destruct (Z.eqb_spec j i) as [E3|E3]; try reflexivity.
    + exfalso. apply E3. symmetry. apply bit_position; auto.
    + subst. congruence.
  - rewrite load8_store8_other by lia.
    destruct (Z.eqb_spec j i) as [->|]; [congruence|reflexivity].
Qed.

Lemma is_bit_set_clear_bit img bm i j :
  0 <= i -> 0 <= j -> 0 <= bm + i / 8 < image_len img ->
  is_bit_set (clear_bit img bm i) bm j = negb (j =? i) && is_bit_set img bm j.
Proof.
  intros Hi Hj Hr. rewrite !is_bit_set_testbit by assumption.
  unfold clear_bit. cbv zeta.
  rewrite Z.quot_div_nonneg, Z.rem_mod_nonneg by lia.
  pose proof (Z.mod_pos_bound i 8 ltac:(lia)) as Mi.
  pose proof (Z.mod_pos_bound j 8 ltac:(lia)) as Mj.
  destruct (clear_bit_byte (load8 img (bm + i / 8)) (i mod 8)
              (load8_range _ _) Mi) as [R T].
  destruct (Z.eq_dec (i / 8) (j / 8)) as [E|E].
  - rewrite <- E. rewrite store8_load8_small by assumption.
    rewrite T by lia. rewrite andb_comm. f_equal. f_equal.
    destruct (Z.eqb_spec (j mod 8) (i mod 8)) as [E2|E2];
      destruct (Z.eqb_spec j i) as [E3|E3]; try reflexivity.
    + exfalso. apply E3. symmetry. apply bit_position; auto.
    + subst. congruence.
  - rewrite load8_store8_other by lia.
    destruct (Z.eqb_spec j i) as [->|]; [congruence|reflexivity].
Qed.

Lemma byte_at_set_bit_other img bm i off :
  0 <= i -> off <> bm + i / 8 ->
  byte_at (set_bit img bm i) off = byte_at img off.
Proof.
  intros Hi H. unfold set_bit, store8. cbv zeta.
  rewrite Z.quot_div_nonneg by lia. apply byte_at_set_other. congruence.
Qed.

Lemma byte_at_clear_bit_other img bm i off :
  0 <= i -> off <> bm + i / 8 ->
  byte_at (clear_bit img bm i) off = byte_at img off.
Proof.
  intros Hi H. unfold clear_bit, store8. cbv zeta.
  rewrite Z.quot_div_nonneg by lia. apply byte_at_set_other. congruence.
Qed.

(** ** Loops *)

Lemma for_from_ind {S : Type} (P : S -> Prop) (body : Z -> S -> S) :
  forall (n : nat) (lo : Z) (s : S),
    P s ->
    (forall j t, lo <= j < lo + Z.of_nat n -> P t -> P (body j t)) ->
    P (for_from lo n body s).
Proof.
  induction n as [|n IH]; intros lo s Hs Hstep; simpl; [exact Hs|].
  apply IH.
  - apply Hstep; [lia|exact Hs].
  - intros j t Hj Ht. apply Hstep; [lia|exact Ht].
Qed.

Lemma for_loop_ind {S : Type} (P : S -> Prop) (body : Z -> S -> S) (n : Z) (s : S) :
  P s ->
  (forall j t, 0 <= j < n -> P t -> P (body j t)) ->
  P (for_loop n body s).
Proof.
  intros Hs Hstep. unfold for_loop. apply for_from_ind; [exact Hs|].
  intros j t Hj. apply Hstep. lia.
Qed.

Lemma for_from_snoc {S : Type} (body : Z -> S -> S) :
  forall (n : nat) (lo : Z) (s : S),
    for_from lo (Datatypes.S n) body s
    = body (lo + Z.of_nat n) (for_from lo n body s).
Proof.
  induction n as [|n IH]; intros lo s.
  - simpl. now rewrite Z.add_0_r.
  - change (for_from lo (Datatypes.S (Datatypes.S n)) body s)
      with (for_from (lo + 1) (Datatypes.S n) body (body lo s)).
    rewrite IH. simpl for_from. f_equal. lia.
Qed.

Lemma quiet_refl do_fix s : quiet do_fix s s.
Proof. split; auto. Qed.

Lemma quiet_trans do_fix s1 s2 s3 :
  quiet do_fix s1 s2 -> quiet do_fix s2 s3 -> quiet do_fix s1 s3.
Proof.
  intros [L1 V1 C1 B1] [L2 V2 C2 B2]. split.
  - congruence.
  - intros H. destruct (V2 H) as (H2 & F2 & I2).
    destruct (V1 H2) as (H1 & F1 & I1). repeat split; congruence.
  - intros H. rewrite (C2 H). auto.
  - congruence.
Qed.

Lemma quiet_for_loop do_fix (body : Z -> state -> state) n s :
  (forall j t, 0 <= j < n -> quiet do_fix t (body j t)) ->
  quiet do_fix s (for_loop n body s).
Proof.
  intros H. apply (for_loop_ind (quiet do_fix s)); [apply quiet_refl|].
  intros j t Hj Ht. eapply quiet_trans; [exact Ht|]. now apply H.
Qed.

Lemma findings_snoc out m :
  findings (out ++ [m]) = findings out ++ (if is_finding m then [m] else []).
Proof. unfold findings. rewrite List.filter_app. simpl. now destruct (is_finding m). Qed.

Lemma passes_run_snoc out m :
  passes_run (out ++ [m])
  = passes_run out ++ match m with MHeader p => [p] | _ => [] end.
Proof. unfold passes_run. rewrite List.flat_map_app. simpl. now rewrite app_nil_r. Qed.

Lemma image_len_set_bit img bm i : image_len (set_bit img bm i) = image_len img.
Proof. apply image_len_store8. Qed.

Lemma image_len_clear_bit img bm i : image_len (clear_bit img bm i) = image_len img.
Proof. apply image_len_store8. Qed.

Lemma image_len_entry_set img base j v :
  image_len (entry_set img base j v) = image_len img.
Proof. apply image_len_store32. Qed.

Lemma image_len_inode_set img i f v :
  image_len (inode_set img i f v) = image_len img.
Proof. apply image_len_store32. Qed.

(** Closes the [quiet] obligations of a straight-line step once its
    branches have been separated. *)
Ltac quiet_step :=
  split; simpl;
  rewrite ?image_len_store32, ?image_len_store16, ?image_len_store8,
    ?image_len_set_bit, ?image_len_clear_bit, ?image_len_entry_set,
    ?image_len_inode_set, ?findings_snoc, ?passes_run_snoc;
  simpl; rewrite ?app_nil_r;
  try reflexivity; try (intros; discriminate); auto.

Lemma quiet_check_sb_field do_fix f s : quiet do_fix s (check_sb_field do_fix f s).
Proof.
  unfold check_sb_field.
  destruct (sb_load (fs_image s) f =? sb_expected f); simpl.
  - quiet_step.
  - destruct do_fix; quiet_step; destruct f; simpl;
      rewrite ?image_len_store32, ?image_len_store16; reflexivity.
Qed.

Lemma quiet_reconcile_data_bit do_fix used i s :
  quiet do_fix s (reconcile_data_bit do_fix used i s).
Proof.
  unfold reconcile_data_bit.
  destruct (used_at used i), (is_bit_set (fs_image s) data_bitmap i);
    simpl; destruct do_fix; quiet_step.
Qed.

Lemma quiet_reconcile_inode_bit do_fix i s :
  quiet do_fix s (reconcile_inode_bit do_fix i s).
Proof.
  unfold reconcile_inode_bit.
  destruct (is_inode_valid (fs_image s) i),
    (is_bit_set (fs_image s) inode_bitmap i);
    simpl; destruct do_fix; quiet_step.
Qed.

(** The container walks, unfolded one level. *)
Lemma dup_walk_eq depth do_fix ino base s :
  dup_walk depth do_fix ino base s =
  for_loop ENTRIES_PER_BLOCK
    (fun j s =>
       let v := entry_get (fs_image s) base j in
       if negb (v =? 0) then
         let s := dup_check_entry do_fix ino base j v s in
         match depth with
         | O => s
         | Datatypes.S d =>
             match get_block (to_int32 v) with
             | Some sub => dup_walk d do_fix ino sub s
             | None => s
             end
         end
       else s) s.
Proof. destruct depth; reflexivity. Qed.

Lemma bad_walk_eq depth do_fix top i base s :
  bad_walk depth do_fix top i base s =
  for_loop ENTRIES_PER_BLOCK
    (fun j s =>
       let v := entry_get (fs_image s) base j in
       if v >=? TOTAL_BLOCKS then
         let s := printf (MBadEntry (bad_site_of top depth) i v) s in
         let s :=
           if do_fix then
             let s := printf (MBadEntryFix (bad_site_of top depth) j i) s in
             with_image s (entry_set (fs_image s) base j 0)
           else s in
         with_valid s false
       else
         match depth with
         | O => s
         | Datatypes.S d =>
             if negb (v =? 0) then
               match get_block (to_int32 v) with
               | Some sub => bad_walk d do_fix top i sub s
               | None => s
               end
             else s
         end) s.
Proof. destruct depth; reflexivity. Qed.

Lemma quiet_dup_check_entry do_fix ino base j v s :
  quiet do_fix s (dup_check_entry do_fix ino base j v s).
Proof.
  unfold dup_check_entry, check_data_block_for_duplicates.
  destruct (in_data_region v); [destruct (ref_seen s v)|];
    simpl; destruct do_fix; quiet_step.
Qed.

Lemma quiet_dup_walk do_fix ino :
  forall depth base s, quiet do_fix s (dup_walk depth do_fix ino base s).
Proof.
  induction depth as [|d IH]; intros base s; rewrite dup_walk_eq;
    apply quiet_for_loop; intros j t _; cbv zeta;
    destruct (entry_get (fs_image t) base j =? 0); cbn [negb];
    try apply quiet_refl; try apply quiet_dup_check_entry.
  destruct (get_block _).
  - eapply quiet_trans; [apply quiet_dup_check_entry|apply IH].
  - apply quiet_dup_check_entry.
Qed.

Lemma quiet_dup_top do_fix i f t walk s :
  quiet do_fix s (dup_top do_fix i f t walk s).
Proof.
  unfold dup_top.
  destruct (inode_get (fs_image s) i f =? 0); simpl; [apply quiet_refl|].
  destruct (in_data_region _); [|apply quiet_refl].
  destruct (ref_seen s _).
  - destruct do_fix; quiet_step.
  - destruct walk as [depth|]; [destruct (get_block _)|].
    + eapply quiet_trans; [|apply quiet_dup_walk]. quiet_step.
    + quiet_step.
    + quiet_step.
Qed.

Lemma quiet_dup_inode do_fix i s : quiet do_fix s (dup_inode do_fix i s).
Proof.
  unfold dup_inode. destruct (is_inode_valid _ _); simpl; [|apply quiet_refl].
  do 3 (eapply quiet_trans; [|apply quiet_dup_top]). apply quiet_dup_top.
Qed.

Lemma quiet_bad_walk do_fix top i :
  forall depth base s, quiet do_fix s (bad_walk depth do_fix top i base s).
Proof.
  induction depth as [|d IH]; intros base s; rewrite bad_walk_eq;
    apply quiet_for_loop; intros j t _; cbv zeta;
    (destruct (entry_get (fs_image t) base j >=? TOTAL_BLOCKS);
     [destruct do_fix; quiet_step|]).
  - apply quiet_refl.
  - destruct (entry_get (fs_image t) base j =? 0); simpl; [apply quiet_refl|].
    destruct (get_block _); [apply IH|apply quiet_refl].
Qed.

Lemma quiet_bad_top do_fix i f walk s : quiet do_fix s (bad_top do_fix i f walk s).
Proof.
  unfold bad_top.
  destruct (inode_get (fs_image s) i f >=? TOTAL_BLOCKS).
  - destruct do_fix; quiet_step.
  - destruct walk as [depth|]; [|apply quiet_refl].
    destruct (inode_get (fs_image s) i f =? 0); simpl; [apply quiet_refl|].
    destruct (get_block _); [apply quiet_bad_walk|apply quiet_refl].
Qed.

Lemma quiet_bad_inode do_fix i s : quiet do_fix s (bad_inode do_fix i s).
Proof.
  unfold bad_inode. destruct (is_inode_valid _ _); simpl; [|apply quiet_refl].
  do 3 (eapply quiet_trans; [|apply quiet_bad_top]). apply quiet_bad_top.
Qed.

(** ** A repair step that finds nothing is the check-only step *)

Lemma quiet_for_from do_fix (body : Z -> state -> state) n lo s :
  (forall j t, quiet do_fix t (body j t)) ->
  quiet do_fix s (for_from lo n body s).
Proof.
  intros H. apply (for_from_ind (quiet do_fix s)); [apply quiet_refl|].
  intros j t _ Ht. eapply quiet_trans; [exact Ht|apply H].
Qed.

Lemma agree_for_loop (bt bf : Z -> state -> state) n s :
  (forall j t, quiet false t (bf j t)) ->
  (forall j t, isValid (bf j t) = true -> bt j t = bf j t) ->
  isValid (for_loop n bf s) = true ->
  for_loop n bt s = for_loop n bf s.
Proof.
  intros Hq Hagree. unfold for_loop. generalize 0 as lo.
  revert s. induction (Z.to_nat n) as [|k IH]; intros s lo Hv; simpl in *.
  - reflexivity.
  - pose proof (quiet_for_from false bf k (lo + 1) (bf lo s) Hq) as Q.
    destruct (q_valid _ _ _ Q Hv) as (Hv1 & _).
    rewrite (Hagree _ _ Hv1). now apply IH.
Qed.

(** Two loops that run in step keep a relation between their states. *)
Lemma for_loop_rel {S T : Type} (R : S -> T -> Prop)
    (b1 : Z -> S -> S) (b2 : Z -> T -> T) (n : Z) (s : S) (t : T) :
  R s t ->
  (forall j s' t', 0 <= j < n -> R s' t' -> R (b1 j s') (b2 j t')) ->
  R (for_loop n b1 s) (for_loop n b2 t).
Proof.
  unfold for_loop. intros Hst Hstep.
  assert (G : forall k lo s' t',
             0 <= lo -> lo + Z.of_nat k <= Z.max 0 n -> R s' t' ->
             R (for_from lo k b1 s') (for_from lo k b2 t')).
  { induction k as [|k IH]; intros lo s' t' Hlo Hhi H; simpl; [exact H|].
    apply IH; [lia|lia|]. apply Hstep; [lia|exact H]. }
  apply G; [lia|lia|exact Hst].
Qed.

(** A loop that never writes the buffer and clears [isValid] exactly when
    its test [ok] fails returns [true] exactly when every test passes. *)
Lemma check_loop_valid (body : Z -> state -> state) (ok : Z -> bool)
    (n : Z) (s : state) :
  (forall j t, fs_image t = fs_image s ->
               fs_image (body j t) = fs_image s
               /\ isValid (body j t) = isValid t && ok j) ->
  (isValid (for_loop n body s) = true <->
     isValid s = true /\ forall j, 0 <= j < n -> ok j = true).
Proof.
  intros Hbody. unfold for_loop.
  assert (G : forall k lo t,
             fs_image t = fs_image s ->
             (isValid (for_from lo k body t) = true <->
                isValid t = true
                /\ forall j, lo <= j < lo + Z.of_nat k -> ok j = true)).
  { induction k as [|k IH]; intros lo t Ht; simpl.
    - split; [intros H; split; [exact H|intros; lia]|intros [H _]; exact H].
    - destruct (Hbody lo t Ht) as [Hi Hv].
      rewrite (IH (lo + 1) (body lo t) Hi), Hv, andb_true_iff.
      split.
      + intros [[H1 H2] H3]. split; [exact H1|].
        intros j Hj. destruct (Z.eq_dec j lo) as [->|]; [exact H2|].
        apply H3. lia.
      + intros [H1 H2]. split; [split; [exact H1|apply H2; lia]|].
        intros j Hj. apply H2. lia. }
  rewrite (G (Z.to_nat n) 0 s eq_refl). split.
  - intros [H1 H2]. split; [exact H1|]. intros j Hj. apply H2. lia.
  - intros [H1 H2]. split; [exact H1|]. intros j Hj. apply H2. lia.
Qed.

(** Induction on a loop with an invariant that follows the counter. *)
Lemma for_loop_ind_idx {S : Type} (P : Z -> S -> Prop)
    (body : Z -> S -> S) (n : Z) (s : S) :
  0 <= n ->
  P 0 s ->
  (forall j t, 0 <= j < n -> P j t -> P (j + 1) (body j t)) ->
  P n (for_loop n body s).
Proof.
  intros Hn H0 Hstep. unfold for_loop.
  assert (G : forall k lo t,
             0 <= lo -> lo + Z.of_nat k <= n -> P lo t ->
             P (lo + Z.of_nat k) (for_from lo k body t)).
  { induction k as [|k IH]; intros lo t Hlo Hhi Ht; simpl for_from.
    - now rewrite Z.add_0_r.
    - replace (lo + Z.of_nat (Datatypes.S k)) with (lo + 1 + Z.of_nat k) by lia.
      apply IH; [lia|lia|]. apply Hstep; [lia|exact Ht]. }
  replace n with (0 + Z.of_nat (Z.to_nat n)) at 1 by lia.
  apply G; [lia|lia|exact H0].
Qed.

(** From here on a loop is only ever reasoned about through the lemmas
    above. *)
Opaque for_loop.

Lemma agree_check_sb_field f s :
  isValid (check_sb_field false f s) = true ->
  check_sb_field true f s = check_sb_field false f s.
Proof.
  unfold check_sb_field.
  destruct (sb_load (fs_image s) f =? sb_expected f); simpl;
    [reflexivity|discriminate].
Qed.

Lemma agree_reconcile_data_bit used i s :
  isValid (reconcile_data_bit false used i s) = true ->
  reconcile_data_bit true used i s = reconcile_data_bit false used i s.
Proof.
  unfold reconcile_data_bit.
  destruct (used_at used i), (is_bit_set (fs_image s) data_bitmap i);
    simpl; try reflexivity; discriminate.
Qed.

Lemma agree_reconcile_inode_bit i s :
  isValid (reconcile_inode_bit false i s) = true ->
  reconcile_inode_bit true i s = reconcile_inode_bit false i s.
Proof.
  unfold reconcile_inode_bit.
  destruct (is_inode_valid (fs_image s) i),
    (is_bit_set (fs_image s) inode_bitmap i);
    simpl; try reflexivity; discriminate.
Qed.

Lemma agree_dup_check_entry ino base j v s :
  isValid (dup_check_entry false ino base j v s) = true ->
  dup_check_entry true ino base j v s = dup_check_entry false ino base j v s.
Proof.
  unfold dup_check_entry, check_data_block_for_duplicates.
  destruct (in_data_region v); [destruct (ref_seen s v)|];
    simpl; try reflexivity; discriminate.
Qed.

Lemma agree_dup_walk ino :
  forall depth base s,
    isValid (dup_walk depth false ino base s) = true ->
    dup_walk depth true ino base s = dup_walk depth false ino base s.
Proof.
  induction depth as [|d IH]; intros base s; rewrite !dup_walk_eq;
    apply agree_for_loop; cbv zeta.
  - intros j t. destruct (entry_get (fs_image t) base j =? 0); simpl;
      [apply quiet_refl|apply quiet_dup_check_entry].
  - intros j t. destruct (entry_get (fs_image t) base j =? 0); simpl;
      [reflexivity|apply agree_dup_check_entry].
  - intros j t. destruct (entry_get (fs_image t) base j =? 0); simpl;
      [apply quiet_refl|].
    destruct (get_block _); [|apply quiet_dup_check_entry].
    eapply quiet_trans; [apply quiet_dup_check_entry|apply quiet_dup_walk].
  - intros j t. destruct (entry_get (fs_image t) base j =? 0); simpl;
      [reflexivity|].
    destruct (get_block _) as [sub|]; [|apply agree_dup_check_entry].
    intros Hv.
    pose proof (quiet_dup_walk false ino d sub
                  (dup_check_entry false ino base j
                     (entry_get (fs_image t) base j) t)) as Q.
    destruct (q_valid _ _ _ Q Hv) as (Hv1 & _).
    rewrite (agree_dup_check_entry _ _ _ _ _ Hv1). now apply IH.
Qed.

Lemma agree_dup_top i f t walk s :
  isValid (dup_top false i f t walk s) = true ->
  dup_top true i f t walk s = dup_top false i f t walk s.
Proof.
  unfold dup_top.
  destruct (inode_get (fs_image s) i f =? 0); simpl; [reflexivity|].
  destruct (in_data_region _); [|reflexivity].
  destruct (ref_seen s _); simpl; [discriminate|].
  destruct walk as [depth|]; [|reflexivity].
  destruct (get_block _); [apply agree_dup_walk|reflexivity].
Qed.

(** Two steps in sequence agree when each does. *)
Lemma agree_seq (ct cf dt df : state -> state) s :
  quiet false (cf s) (df (cf s)) ->
  (isValid (cf s) = true -> ct s = cf s) ->
  (forall t, isValid (df t) = true -> dt t = df t) ->
  isValid (df (cf s)) = true -> dt (ct s) = df (cf s).
Proof.
  intros Q Hc Hd Hv. destruct (q_valid _ _ _ Q Hv) as (Hv1 & _).
  rewrite (Hc Hv1). now apply Hd.
Qed.

Lemma agree_dup_inode i s :
  isValid (dup_inode false i s) = true ->
  dup_inode true i s = dup_inode false i s.
Proof.
  unfold dup_inode. destruct (is_inode_valid _ _); simpl; [|reflexivity].
  apply (agree_seq
           (fun s => dup_top true i i_double_indirect TagDouble (Some 1%nat)
                       (dup_top true i i_single_indirect TagSingle (Some 0%nat)
                          (dup_top true i i_direct_block TagPlain None s)))
           (fun s => dup_top false i i_double_indirect TagDouble (Some 1%nat)
                       (dup_top false i i_single_indirect TagSingle (Some 0%nat)
                          (dup_top false i i_direct_block TagPlain None s))));
    [apply quiet_dup_top| |intros; now apply agree_dup_top].
  apply (agree_seq
           (fun s => dup_top true i i_single_indirect TagSingle (Some 0%nat)
                       (dup_top true i i_direct_block TagPlain None s))
           (fun s => dup_top false i i_single_indirect TagSingle (Some 0%nat)
                       (dup_top false i i_direct_block TagPlain None s)));
    [apply quiet_dup_top| |intros; now apply agree_dup_top].
  apply (agree_seq (dup_top true i i_direct_block TagPlain None)
           (dup_top false i i_direct_block TagPlain None));
    [apply quiet_dup_top|apply agree_dup_top|intros; now apply agree_dup_top].
Qed.

Lemma agree_bad_walk top i :
  forall depth base s,
    isValid (bad_walk depth false top i base s) = true ->
    bad_walk depth true top i base s = bad_walk depth false top i base s.
Proof.
  induction depth as [|d IH]; intros base s; rewrite !bad_walk_eq;
    apply agree_for_loop; cbv zeta.
  - intros j t. destruct (entry_get (fs_image t) base j >=? TOTAL_BLOCKS);
      [quiet_step|apply quiet_refl].
  - intros j t. destruct (entry_get (fs_image t) base j >=? TOTAL_BLOCKS);
      simpl; [discriminate|reflexivity].
  - intros j t. destruct (entry_get (fs_image t) base j >=? TOTAL_BLOCKS);
      [quiet_step|].
    destruct (entry_get (fs_image t) base j =? 0); simpl; [apply quiet_refl|].
    destruct (get_block _); [apply quiet_bad_walk|apply quiet_refl].
  - intros j t. destruct (entry_get (fs_image t) base j >=? TOTAL_BLOCKS);
      simpl; [discriminate|].
    destruct (entry_get (fs_image t) base j =? 0); simpl; [reflexivity|].
    destruct (get_block _); [apply IH|reflexivity].
Qed.

Lemma agree_bad_top i f walk s :
  isValid (bad_top false i f walk s) = true ->
  bad_top true i f walk s = bad_top false i f walk s.
Proof.
  unfold bad_top.
  destruct (inode_get (fs_image s) i f >=? TOTAL_BLOCKS); simpl; [discriminate|].
  destruct walk as [depth|]; [|reflexivity].
  destruct (inode_get (fs_image s) i f =? 0); simpl; [reflexivity|].
  destruct (get_block _); [apply agree_bad_walk|reflexivity].
Qed.

Lemma agree_bad_inode i s :
  isValid (bad_inode false i s) = true ->
  bad_inode true i s = bad_inode false i s.
Proof.
  unfold bad_inode. destruct (is_inode_valid _ _); simpl; [|reflexivity].
  apply (agree_seq
           (fun s => bad_top true i i_double_indirect (Some 1%nat)
                       (bad_top true i i_single_indirect (Some 0%nat)
                          (bad_top true i i_direct_block None s)))
           (fun s => bad_top false i i_double_indirect (Some 1%nat)
                       (bad_top false i i_single_indirect (Some 0%nat)
                          (bad_top false i i_direct_block None s))));
    [apply quiet_bad_top| |intros; now apply agree_bad_top].
  apply (agree_seq
           (fun s => bad_top true i i_single_indirect (Some 0%nat)
                       (bad_top true i i_direct_block None s))
           (fun s => bad_top false i i_single_indirect (Some 0%nat)
                       (bad_top false i i_direct_block None s)));
    [apply quiet_bad_top| |intros; now apply agree_bad_top].
  apply (agree_seq (bad_top true i i_direct_block None)
           (bad_top false i i_direct_block None));
    [apply quiet_bad_top|apply agree_bad_top|intros; now apply agree_bad_top].
Qed.

(** ** Whole passes *)

Lemma pass_effect_intro p do_fix s s0 s' :
  fs_image s0 = fs_image s ->
  stdout s0 = stdout s ++ [MHeader p] ->
  quiet do_fix s0 s' ->
  pass_effect p do_fix s s'.
Proof.
  intros Hi Ho [L V C B]. split.
  - now rewrite L, Hi.
  - intros H. destruct (V H) as (_ & F & I). split.
    + rewrite F, Ho, findings_snoc. simpl. now rewrite app_nil_r.
    + now rewrite I.
  - intros H. now rewrite (C H).
  - now rewrite B, Ho, passes_run_snoc.
Qed.

Lemma validate_superblock_effect do_fix s :
  pass_effect PSuperblock do_fix s (validate_superblock do_fix s).
Proof.
  unfold validate_superblock. cbv zeta.
  eapply (pass_effect_intro _ _ _ (printf (MHeader PSuperblock) (with_valid s true)));
    [reflexivity|reflexivity|].
  do 8 (eapply quiet_trans; [|apply quiet_check_sb_field]).
  apply quiet_check_sb_field.
Qed.

Lemma validate_data_bitmap_effect do_fix c s :
  pass_effect PDataBitmap do_fix s (validate_data_bitmap do_fix c s).
Proof.
  unfold validate_data_bitmap. cbv zeta.
  eapply (pass_effect_intro _ _ _ (with_valid (printf (MHeader PDataBitmap) s) true));
    [reflexivity|reflexivity|].
  destruct c; cbn [negb].
  - eapply quiet_trans; [|apply quiet_for_loop; intros; apply quiet_reconcile_data_bit].
    quiet_step.
  - quiet_step.
Qed.

Lemma validate_inode_bitmap_effect do_fix s :
  pass_effect PInodeBitmap do_fix s (validate_inode_bitmap do_fix s).
Proof.
  unfold validate_inode_bitmap. cbv zeta.
  eapply (pass_effect_intro _ _ _ (with_valid (printf (MHeader PInodeBitmap) s) true));
    [reflexivity|reflexivity|].
  apply quiet_for_loop; intros; apply quiet_reconcile_inode_bit.
Qed.

Lemma check_duplicate_blocks_effect do_fix c s :
  pass_effect PDuplicate do_fix s (check_duplicate_blocks do_fix c s).
Proof.
  unfold check_duplicate_blocks. cbv zeta.
  eapply (pass_effect_intro _ _ _ (with_valid (printf (MHeader PDuplicate) s) true));
    [reflexivity|reflexivity|].
  destruct c; cbn [negb].
  - eapply quiet_trans; [|apply quiet_for_loop; intros; apply quiet_dup_inode].
    quiet_step.
  - quiet_step.
Qed.

Lemma check_bad_blocks_effect do_fix s :
  pass_effect PBadBlock do_fix s (check_bad_blocks do_fix s).
Proof.
  unfold check_bad_blocks. cbv zeta.
  eapply (pass_effect_intro _ _ _ (with_valid (printf (MHeader PBadBlock) s) true));
    [reflexivity|reflexivity|].
  apply quiet_for_loop; intros; apply quiet_bad_inode.
Qed.

(** A pass that finds nothing in check-only mode does the same in repair
    mode. *)
Lemma agree_check_sb_field_from f st sf :
  st = sf ->
  isValid (check_sb_field false f sf) = true ->
  check_sb_field true f st = check_sb_field false f sf.
Proof. intros ->. apply agree_check_sb_field. Qed.

Lemma validate_superblock_agree s :
  isValid (validate_superblock false s) = true ->
  validate_superblock true s = validate_superblock false s.
Proof.
  unfold validate_superblock. cbv zeta. intros Hv.
  repeat match goal with
         | H : isValid (check_sb_field false ?f ?t) = true |- _ =>
             lazymatch goal with
             | _ : isValid t = true |- _ => fail
             | _ => pose proof (proj1 (q_valid _ _ _
                                  (quiet_check_sb_field false f t) H))
             end
         end.
  repeat (apply agree_check_sb_field_from;
          [|match goal with H : ?G |- ?G => exact H end]).
  reflexivity.
Qed.

Lemma validate_data_bitmap_agree c s :
  isValid (validate_data_bitmap false c s) = true ->
  validate_data_bitmap true c s = validate_data_bitmap false c s.
Proof.
  unfold validate_data_bitmap. cbv zeta. destruct c; cbn [negb]; [|reflexivity].
  apply agree_for_loop.
  - intros; apply quiet_reconcile_data_bit.
  - intros; now apply agree_reconcile_data_bit.
Qed.

Lemma validate_inode_bitmap_agree s :
  isValid (validate_inode_bitmap false s) = true ->
  validate_inode_bitmap true s = validate_inode_bitmap false s.
Proof.
  unfold validate_inode_bitmap. cbv zeta.
  apply agree_for_loop.
  - intros; apply quiet_reconcile_inode_bit.
  - intros; now apply agree_reconcile_inode_bit.
Qed.

Lemma check_duplicate_blocks_agree c s :
  isValid (check_duplicate_blocks false c s) = true ->
  check_duplicate_blocks true c s = check_duplicate_blocks false c s.
Proof.
  unfold check_duplicate_blocks. cbv zeta. destruct c; cbn [negb]; [|reflexivity].
  apply agree_for_loop.
  - intros; apply quiet_dup_inode.
  - intros; now apply agree_dup_inode.
Qed.

Lemma check_bad_blocks_agree s :
  isValid (check_bad_blocks false s) = true ->
  check_bad_blocks true s = check_bad_blocks false s.
Proof.
  unfold check_bad_blocks. cbv zeta.
  apply agree_for_loop.
  - intros; apply quiet_bad_inode.
  - intros; now apply agree_bad_inode.
Qed.

(** ** What the bitmap and superblock passes test *)

Lemma check_sb_field_check f s :
  fs_image (check_sb_field false f s) = fs_image s
  /\ isValid (check_sb_field false f s)
     = isValid s && (sb_load (fs_image s) f =? sb_expected f).
Proof.
  unfold check_sb_field.
  destruct (sb_load (fs_image s) f =? sb_expected f); cbn;
    rewrite ?andb_true_r, ?andb_false_r; auto.
Qed.

(** The superblock pass returns [true] exactly when the nine fields hold
    their required values. *)
Lemma validate_superblock_valid s :
  isValid (validate_superblock false s) = true <->
  forall f, sb_load (fs_image s) f = sb_expected f.
Proof.
  unfold validate_superblock. cbv zeta.
  set (s0 := printf (MHeader PSuperblock) (with_valid s true)).
  assert (I0 : fs_image s0 = fs_image s) by reflexivity.
  assert (V0 : isValid s0 = true) by reflexivity.
  revert I0 V0. generalize s0. clear s0. intros s0 I0 V0. rewrite <- I0.
  repeat match goal with
         | |- context [isValid (check_sb_field false ?f ?t)] =>
             rewrite (proj2 (check_sb_field_check f t))
         end.
  repeat match goal with
         | |- context [fs_image (check_sb_field false ?f ?t)] =>
             rewrite (proj1 (check_sb_field_check f t))
         end.
  rewrite V0. cbn [andb]. rewrite !andb_true_iff, !Z.eqb_eq. split.
  - intros H f. destruct f; tauto.
  - intros H. repeat split; apply H.
Qed.

Lemma reconcile_data_bit_check used k s :
  fs_image (reconcile_data_bit false used k s) = fs_image s
  /\ isValid (reconcile_data_bit false used k s)
     = isValid s && data_bit_ok (fs_image s) used k.
Proof.
  unfold reconcile_data_bit, data_bit_ok.
  destruct (used_at used k), (is_bit_set (fs_image s) data_bitmap k); cbn;
    rewrite ?andb_true_r, ?andb_false_r; auto.
Qed.

(** With its allocation granted, the data-bitmap pass returns [true]
    exactly when the first 56 bits of the bitmap agree with [block_used]. *)
Lemma validate_data_bitmap_valid s :
  isValid (validate_data_bitmap false true s) = true <->
  forall k, 0 <= k < DATA_BLOCKS_COUNT ->
            data_bit_ok (fs_image s) (collect_block_used (fs_image s)) k = true.
Proof.
  unfold validate_data_bitmap. cbv zeta. cbn [negb].
  rewrite check_loop_valid with
    (ok := data_bit_ok (fs_image s) (collect_block_used (fs_image s))).
  - cbn. tauto.
  - intros j t Ht. cbn in Ht. cbn [fs_image printf with_valid].
    destruct (reconcile_data_bit_check (collect_block_used (fs_image s)) j t)
      as [H1 H2].
    rewrite H1, H2, Ht. auto.
Qed.

Lemma reconcile_inode_bit_check i s :
  fs_image (reconcile_inode_bit false i s) = fs_image s
  /\ isValid (reconcile_inode_bit false i s)
     = isValid s && inode_bit_ok (fs_image s) i.
Proof.
  unfold reconcile_inode_bit, inode_bit_ok.
  destruct (is_inode_valid (fs_image s) i),
    (is_bit_set (fs_image s) inode_bitmap i); cbn;
    rewrite ?andb_true_r, ?andb_false_r; auto.
Qed.

(** The inode-bitmap pass returns [true] exactly when the first 80 bits of
    the bitmap agree with the liveness of the inodes. *)
Lemma validate_inode_bitmap_valid s :
  isValid (validate_inode_bitmap false s) = true <->
  forall i, 0 <= i < INODE_COUNT -> inode_bit_ok (fs_image s) i = true.
Proof.
  unfold validate_inode_bitmap. cbv zeta.
  rewrite check_loop_valid with (ok := inode_bit_ok (fs_image s)).
  - cbn. tauto.
  - intros j t Ht. cbn in Ht.
    destruct (reconcile_inode_bit_check j t) as [H1 H2].
    rewrite H1, H2, Ht. auto.
Qed.
(** * The passes depend on the buffer only *)

Ltac same_start s t H :=
  destruct s as [si sb sr sv so], t as [ti tb tr tv to];
  unfold same_data, same_image in H;
  cbn [fs_image block_ref_count inode_refs isValid] in H;
  decompose [and] H; clear H; subst.

Ltac same_finish :=
  cbn; unfold same_data, same_image; cbn; repeat split; reflexivity.

Lemma same_dup_check_entry do_fix ino base j v s t :
  same_data s t ->
  same_data (dup_check_entry do_fix ino base j v s)
    (dup_check_entry do_fix ino base j v t).
Proof.
  intros H. same_start s t H.
  unfold dup_check_entry, check_data_block_for_duplicates, ref_seen, ref_owner.
  cbn [fs_image block_ref_count inode_refs isValid].
  destruct (in_data_region v); [destruct (default false _)|];
    destruct do_fix; same_finish.
Qed.

Lemma same_dup_walk do_fix ino :
  forall depth base s t,
    same_data s t ->
    same_data (dup_walk depth do_fix ino base s)
      (dup_walk depth do_fix ino base t).
Proof.
  induction depth as [|d IH]; intros base s t H; rewrite !dup_walk_eq;
    apply for_loop_rel; try exact H; intros j s' t' _ H'; cbv zeta;
    rewrite <- (proj1 H');
    (destruct (entry_get (fs_image s') base j =? 0); cbn [negb]; [exact H'|]).
  - now apply same_dup_check_entry.
  - destruct (get_block _); [apply IH|]; now apply same_dup_check_entry.
Qed.

Lemma same_dup_top do_fix i f tg walk s t :
  same_data s t ->
  same_data (dup_top do_fix i f tg walk s) (dup_top do_fix i f tg walk t).
Proof.
  intros H. unfold dup_top. cbv zeta.
  rewrite <- (proj1 H).
  destruct (inode_get (fs_image s) i f =? 0); cbn [negb]; [exact H|].
  destruct (in_data_region _); [|exact H].
  assert (R : ref_seen t (inode_get (fs_image s) i f)
              = ref_seen s (inode_get (fs_image s) i f)).
  { unfold ref_seen. now rewrite (proj1 (proj2 H)). }
  rewrite R. destruct (ref_seen s _).
  - same_start s t H. unfold ref_owner.
    cbn [fs_image block_ref_count inode_refs isValid].
    destruct do_fix; same_finish.
  - assert (M : same_data (mark_ref (inode_get (fs_image s) i f) i s)
                  (mark_ref (inode_get (fs_image s) i f) i t)).
    { generalize (inode_get (fs_image s) i f). intros p.
      same_start s t H. same_finish. }
    destruct walk as [depth|]; [|exact M].
    destruct (get_block _); [|exact M].
    now apply same_dup_walk.
Qed.

Lemma same_dup_inode do_fix i s t :
  same_data s t -> same_data (dup_inode do_fix i s) (dup_inode do_fix i t).
Proof.
  intros H. unfold dup_inode. rewrite <- (proj1 H).
  destruct (is_inode_valid (fs_image s) i); cbn [negb]; [|exact H].
  now do 4 apply same_dup_top.
Qed.

Lemma same_bad_walk do_fix top i :
  forall depth base s t,
    same_image s t ->
    same_image (bad_walk depth do_fix top i base s)
      (bad_walk depth do_fix top i base t).
Proof.
  induction depth as [|d IH]; intros base s t H; rewrite !bad_walk_eq;
    apply for_loop_rel; try exact H; intros j s' t' _ H'; cbv zeta;
    rewrite <- (proj1 H');
    (destruct (entry_get (fs_image s') base j >=? TOTAL_BLOCKS);
     [same_start s' t' H'; destruct do_fix; same_finish|]).
  - exact H'.
  - destruct (entry_get (fs_image s') base j =? 0); cbn [negb]; [exact H'|].
    destruct (get_block _); [now apply IH|exact H'].
Qed.

Lemma same_bad_top do_fix i f walk s t :
  same_image s t ->
  same_image (bad_top do_fix i f walk s) (bad_top do_fix i f walk t).
Proof.
  intros H. unfold bad_top. cbv zeta. rewrite <- (proj1 H).
  destruct (inode_get (fs_image s) i f >=? TOTAL_BLOCKS).
  - same_start s t H. destruct do_fix; same_finish.
  - destruct walk as [depth|]; [|exact H].
    destruct (inode_get (fs_image s) i f =? 0); cbn [negb]; [exact H|].
    destruct (get_block _); [now apply same_bad_walk|exact H].
Qed.

Lemma same_bad_inode do_fix i s t :
  same_image s t -> same_image (bad_inode do_fix i s) (bad_inode do_fix i t).
Proof.
  intros H. unfold bad_inode. rewrite <- (proj1 H).
  destruct (is_inode_valid (fs_image s) i); cbn [negb]; [|exact H].
  now do 4 apply same_bad_top.
Qed.

Lemma same_data_image s t : same_data s t -> same_image s t.
Proof. intros (H1 & _ & _ & H4). now split. Qed.

Lemma check_duplicate_blocks_same do_fix c s t :
  fs_image s = fs_image t ->
  same_image (check_duplicate_blocks do_fix c s)
    (check_duplicate_blocks do_fix c t).
Proof.
  intros H. unfold check_duplicate_blocks. cbv zeta.
  cbn [fs_image block_ref_count inode_refs isValid stdout printf with_valid].
  destruct c; cbn [negb].
  - apply same_data_image. apply for_loop_rel.
    + unfold same_data. cbn. repeat split; auto.
    + intros j s' t' _. apply same_dup_inode.
  - unfold same_image. cbn. repeat split; auto.
Qed.

Lemma check_bad_blocks_same do_fix s t :
  fs_image s = fs_image t ->
  same_image (check_bad_blocks do_fix s) (check_bad_blocks do_fix t).
Proof.
  intros H. unfold check_bad_blocks. cbv zeta.
  apply for_loop_rel.
  - unfold same_image. cbn. repeat split; auto.
  - intros j s' t' _. apply same_bad_inode.
Qed.

(** In check-only mode the result of every pass is a function of the
    buffer. *)
Lemma bool_eq_of_iff (a b : bool) (P : Prop) :
  (a = true <-> P) -> (b = true <-> P) -> a = b.
Proof. destruct a, b; intuition congruence. Qed.

Lemma validate_superblock_image_only s t :
  fs_image s = fs_image t ->
  isValid (validate_superblock false s) = isValid (validate_superblock false t).
Proof.
  intros H. eapply bool_eq_of_iff; [apply validate_superblock_valid|].
  rewrite H. apply validate_superblock_valid.
Qed.

Lemma validate_data_bitmap_image_only c s t :
  fs_image s = fs_image t ->
  isValid (validate_data_bitmap false c s)
  = isValid (validate_data_bitmap false c t).
Proof.
  intros H. destruct c; [|reflexivity].
  eapply bool_eq_of_iff; [apply validate_data_bitmap_valid|].
  rewrite H. apply validate_data_bitmap_valid.
Qed.

Lemma validate_inode_bitmap_image_only s t :
  fs_image s = fs_image t ->
  isValid (validate_inode_bitmap false s)
  = isValid (validate_inode_bitmap false t).
Proof.
  intros H. eapply bool_eq_of_iff; [apply validate_inode_bitmap_valid|].
  rewrite H. apply validate_inode_bitmap_valid.
Qed.

(** ** The orchestrator *)

(** [main] once start-up has succeeded. *)
Lemma main_started (e : env) :
  startup_failure e = false ->
  main e =
  let s := print_summary false (snd (first_round e)) (fst (first_round e)) in
  let calls :=
    [SysFopen true; SysMalloc true; SysFread true; SysCalloc true;
     SysCalloc (calloc_ok e 1%nat); SysCalloc (calloc_ok e 2%nat)] in
  if rerun e then
    let s' := print_summary true (snd (second_round e)) (fst (second_round e)) in
    let s' := if negb (fs_valid (snd (second_round e)))
              then printf MWarning s' else s' in
    mkOutcome 0 (stdout s')
      (if negb (fwrite_count e =? image_len (file_content e))
       then [EWrite] else [])
      (calls ++ [SysCalloc (calloc_ok e 3%nat); SysCalloc (calloc_ok e 4%nat);
                 SysFwrite (fwrite_count e); SysFclose])
      (fwrite (fs_image s') (fwrite_count e) (file_content e))
      (Some (fs_image s'))
  else
    mkOutcome 0 (stdout s) [] (calls ++ [SysFclose]) (file_content e)
      (Some (fs_image s)).
Proof.
  unfold startup_failure, usage_error, size_mismatch. intros H.
  apply orb_false_elim in H as [H Hc]. apply orb_false_elim in H as [H Hr].
  apply orb_false_elim in H as [H Hm]. apply orb_false_elim in H as [H Hs].
  apply orb_false_elim in H as [H Ho].
  unfold main. cbv zeta. fold (argc e). fold (fix_requested e).
  rewrite H, Ho, Hs, Hm, Hr, Hc.
  unfold rerun, second_round, first_round.
  change (printf (MMode (fix_requested e))
            (printf (MImageName (nth 1 (argv e) EmptyString))
               (printf MBanner
                  (mkState (file_content e)
                     (replicate (Z.to_nat TOTAL_BLOCKS) false) [] true []))))
    with (boot_state e).
  destruct (run_passes (fix_requested e) _ _ _) as [s v]. cbn [fst snd].
  destruct (fix_requested e); [destruct (fs_valid v)|]; cbn [negb andb].
  - reflexivity.
  - destruct (run_passes false _ _ _) as [s' v']. reflexivity.
  - reflexivity.
Qed.

Lemma main_not_started (e : env) :
  startup_failure e = true ->
  exit_code (main e) = 1 /\ std_out (main e) = []
  /\ file_after (main e) = file_content e
  /\ final_buffer (main e) = None
  /\ write_count (sys_calls (main e)) = 0%nat.
Proof.
  unfold startup_failure, usage_error, size_mismatch. intros H.
  unfold main. cbv zeta. fold (argc e).
  destruct ((argc e <? 2) || (argc e >? 3)); [repeat split|].
  destruct (fopen_ok e); cbn [negb]; [|repeat split].
  destruct (image_len (file_content e) =? IMAGE_SIZE); cbn [negb]; [|repeat split].
  destruct (malloc_ok e); cbn [negb]; [|repeat split].
  destruct (fread_ok e); cbn [negb]; [|repeat split].
  destruct (calloc_ok e 0%nat); cbn [negb]; [|repeat split].
  discriminate.
Qed.

(** One round of passes: the five banners in the order of the calls, and the
    buffer handed from each pass to the next. *)
Lemma run_passes_banners do_fix c1 c2 s :
  passes_run (stdout (fst (run_passes do_fix c1 c2 s)))
  = passes_run (stdout s) ++ code_order.
Proof.
  unfold run_passes. cbv zeta. cbn [fst].
  rewrite (pe_banner _ _ _ _ (check_bad_blocks_effect _ _)).
  rewrite (pe_banner _ _ _ _ (check_duplicate_blocks_effect _ _ _)).
  rewrite (pe_banner _ _ _ _ (validate_inode_bitmap_effect _ _)).
  rewrite (pe_banner _ _ _ _ (validate_data_bitmap_effect _ _ _)).
  rewrite (pe_banner _ _ _ _ (validate_superblock_effect _ _)).
  unfold code_order. now rewrite <- !app_assoc.
Qed.

Lemma run_passes_check_only c1 c2 s :
  fs_image (fst (run_passes false c1 c2 s)) = fs_image s.
Proof.
  unfold run_passes. cbv zeta. cbn [fst].
  rewrite (pe_check _ _ _ _ (check_bad_blocks_effect _ _) eq_refl).
  rewrite (pe_check _ _ _ _ (check_duplicate_blocks_effect _ _ _) eq_refl).
  rewrite (pe_check _ _ _ _ (validate_inode_bitmap_effect _ _) eq_refl).
  rewrite (pe_check _ _ _ _ (validate_data_bitmap_effect _ _ _) eq_refl).
  now rewrite (pe_check _ _ _ _ (validate_superblock_effect _ _) eq_refl).
Qed.

Lemma run_passes_len do_fix c1 c2 s :
  image_len (fs_image (fst (run_passes do_fix c1 c2 s))) = image_len (fs_image s).
Proof.
  unfold run_passes. cbv zeta. cbn [fst].
  rewrite (pe_len _ _ _ _ (check_bad_blocks_effect _ _)).
  rewrite (pe_len _ _ _ _ (check_duplicate_blocks_effect _ _ _)).
  rewrite (pe_len _ _ _ _ (validate_inode_bitmap_effect _ _)).
  rewrite (pe_len _ _ _ _ (validate_data_bitmap_effect _ _ _)).
  now rewrite (pe_len _ _ _ _ (validate_superblock_effect _ _)).
Qed.

Lemma print_summary_image post v s : fs_image (print_summary post v s) = fs_image s.
Proof. reflexivity. Qed.

Lemma print_summary_banners post v s :
  passes_run (stdout (print_summary post v s)) = passes_run (stdout s).
Proof.
  unfold print_summary. cbv zeta. cbn [stdout printf].
  rewrite !passes_run_snoc. now rewrite !app_nil_r.
Qed.

Lemma print_summary_findings post v s :
  findings (stdout (print_summary post v s)) = findings (stdout s).
Proof.
  unfold print_summary. cbv zeta. cbn [stdout printf].
  rewrite !findings_snoc. cbn [is_finding]. now rewrite !app_nil_r.
Qed.

(** The banners of a whole run: one round, and a second one when the
    repair found something. *)
Lemma main_banners (e : env) :
  startup_failure e = false ->
  passes_run (std_out (main e))
  = code_order ++ (if rerun e then code_order else []).
Proof.
  intros H. rewrite (main_started e H). cbv zeta.
  assert (B1 : passes_run (stdout (fst (first_round e))) = code_order).
  { unfold first_round. rewrite run_passes_banners. reflexivity. }
  destruct (rerun e); cbn [std_out].
  - assert (B2 : passes_run (stdout (fst (second_round e)))
                 = code_order ++ code_order).
    { unfold second_round. rewrite run_passes_banners.
      cbn [stdout printf]. rewrite passes_run_snoc, app_nil_r.
      now rewrite print_summary_banners, B1. }
    destruct (negb _); cbn [stdout printf];
      rewrite ?passes_run_snoc, ?app_nil_r, print_summary_banners; exact B2.
  - rewrite print_summary_banners, B1. now rewrite app_nil_r.
Qed.

(** The buffer at the end of a run is the one the first round left. *)
Lemma fs_image_printf m s : fs_image (printf m s) = fs_image s.
Proof. reflexivity. Qed.

Lemma main_final_buffer (e : env) :
  startup_failure e = false ->
  final_buffer (main e) = Some (fs_image (fst (first_round e))).
Proof.
  intros H. rewrite (main_started e H). cbv zeta.
  unfold rerun, second_round.
  destruct (first_round e) as [s1 v1]. cbn [fst snd].
  pose proof (run_passes_check_only (calloc_ok e 3%nat) (calloc_ok e 4%nat)
                (printf MRecheckHeader (print_summary false v1 s1))) as I2.
  destruct (run_passes false _ _ _) as [s2 v2]. cbn [fst snd] in *.
  rewrite fs_image_printf, print_summary_image in I2.
  destruct (fix_requested e && negb (fs_valid v1)); cbn [final_buffer];
    apply (f_equal Some).
  - destruct (negb (fs_valid v2));
      rewrite ?fs_image_printf, print_summary_image; exact I2.
  - apply print_summary_image.
Qed.

(** ** A round of passes on a consistent image *)

Lemma pass_on_consistent (P : bool -> state -> state) (p : pass) (s : state) :
  (forall fx t, pass_effect p fx t (P fx t)) ->
  (forall t, isValid (P false t) = true -> P true t = P false t) ->
  isValid (P false s) = true ->
  forall fx,
    isValid (P fx s) = true
    /\ fs_image (P fx s) = fs_image s
    /\ findings (stdout (P fx s)) = findings (stdout s).
Proof.
  intros Heff Hagree Hv fx.
  assert (E : P fx s = P false s) by (destruct fx; [now apply Hagree|reflexivity]).
  rewrite E. destruct (pe_valid _ _ _ _ (Heff false s) Hv) as [F I]. auto.
Qed.

Lemma validate_data_bitmap_no_alloc do_fix s :
  isValid (validate_data_bitmap do_fix false s) = false
  /\ fs_image (validate_data_bitmap do_fix false s) = fs_image s
  /\ findings (stdout (validate_data_bitmap do_fix false s))
     = findings (stdout s).
Proof.
  unfold validate_data_bitmap. cbn. rewrite !findings_snoc. cbn.
  now rewrite !app_nil_r.
Qed.

Lemma check_duplicate_blocks_no_alloc do_fix s :
  isValid (check_duplicate_blocks do_fix false s) = false
  /\ fs_image (check_duplicate_blocks do_fix false s) = fs_image s
  /\ findings (stdout (check_duplicate_blocks do_fix false s))
     = findings (stdout s).
Proof.
  unfold check_duplicate_blocks. cbn. rewrite !findings_snoc. cbn.
  now rewrite !app_nil_r.
Qed.

(** On a consistent image a round of passes, in either mode and whatever
    the allocations do, writes nothing and reports nothing; when the
    allocations succeed all five results are [true]. *)
Lemma run_passes_consistent img do_fix c1 c2 s :
  consistent img = true -> fs_image s = img ->
  fs_image (fst (run_passes do_fix c1 c2 s)) = img
  /\ findings (stdout (fst (run_passes do_fix c1 c2 s))) = findings (stdout s)
  /\ fs_valid (snd (run_passes do_fix c1 c2 s)) = c1 && c2.
Proof.
  unfold consistent, run_passes, fs_valid. cbv zeta.
  cbn [fst snd sb_valid data_bitmap_valid inode_bitmap_valid no_duplicates
         no_bad_blocks].
  intros HC Hs. rewrite !andb_true_iff in HC.
  destruct HC as ((((V1 & V2) & V3) & V4) & V5).
  remember (validate_superblock false (pristine img)) as k1 eqn:K1.
  remember (validate_data_bitmap false true k1) as k2 eqn:K2.
  remember (validate_inode_bitmap false k2) as k3 eqn:K3.
  remember (check_duplicate_blocks false true k3) as k4 eqn:K4.
  assert (I1 : fs_image k1 = img).
  { rewrite K1.
    exact (pe_check _ _ _ _ (validate_superblock_effect false (pristine img))
             eq_refl). }
  assert (I2 : fs_image k2 = img).
  { rewrite K2, <- I1.
    exact (pe_check _ _ _ _ (validate_data_bitmap_effect false true k1) eq_refl). }
  assert (I3 : fs_image k3 = img).
  { rewrite K3, <- I2.
    exact (pe_check _ _ _ _ (validate_inode_bitmap_effect false k2) eq_refl). }
  assert (I4 : fs_image k4 = img).
  { rewrite K4, <- I3.
    exact (pe_check _ _ _ _ (check_duplicate_blocks_effect false true k3)
             eq_refl). }
  (* superblock *)
  set (r1 := validate_superblock do_fix s).
  destruct (pass_on_consistent validate_superblock PSuperblock s
              validate_superblock_effect validate_superblock_agree) with (fx := do_fix)
    as (W1 & J1 & F1).
  { rewrite (validate_superblock_image_only s (pristine img) Hs), <- K1.
    exact V1. }
  fold r1 in W1, J1, F1. rewrite Hs in J1.
  (* data bitmap *)
  set (r2 := validate_data_bitmap do_fix c1 r1).
  assert (R2 : isValid r2 = c1 /\ fs_image r2 = img
               /\ findings (stdout r2) = findings (stdout s)).
  { subst r2. destruct c1.
    - destruct (pass_on_consistent (fun fx => validate_data_bitmap fx true)
                  PDataBitmap r1
                  (fun fx t => validate_data_bitmap_effect fx true t)
                  (validate_data_bitmap_agree true)) with (fx := do_fix)
        as (W & J & F).
      + rewrite (validate_data_bitmap_image_only true r1 k1), <- K2;
          [exact V2|congruence].
      + repeat split; congruence.
    - destruct (validate_data_bitmap_no_alloc do_fix r1) as (W & J & F).
      repeat split; congruence. }
  destruct R2 as (W2 & J2 & F2).
  (* inode bitmap *)
  set (r3 := validate_inode_bitmap do_fix r2).
  destruct (pass_on_consistent validate_inode_bitmap PInodeBitmap r2
              validate_inode_bitmap_effect validate_inode_bitmap_agree)
    with (fx := do_fix) as (W3 & J3 & F3).
  { rewrite (validate_inode_bitmap_image_only r2 k2), <- K3;
      [exact V3|congruence]. }
  fold r3 in W3, J3, F3.
  (* duplicates *)
  set (r4 := check_duplicate_blocks do_fix c2 r3).
  assert (R4 : isValid r4 = c2 /\ fs_image r4 = img
               /\ findings (stdout r4) = findings (stdout s)).
  { subst r4. destruct c2.
    - destruct (pass_on_consistent (fun fx => check_duplicate_blocks fx true)
                  PDuplicate r3
                  (fun fx t => check_duplicate_blocks_effect fx true t)
                  (check_duplicate_blocks_agree true)) with (fx := do_fix)
        as (W & J & F).
      + rewrite (proj2 (check_duplicate_blocks_same false true r3 k3
                          ltac:(congruence))), <- K4. exact V4.
      + repeat split; congruence.
    - destruct (check_duplicate_blocks_no_alloc do_fix r3) as (W & J & F).
      repeat split; congruence. }
  destruct R4 as (W4 & J4 & F4).
  (* bad blocks *)
  set (r5 := check_bad_blocks do_fix r4).
  destruct (pass_on_consistent check_bad_blocks PBadBlock r4
              check_bad_blocks_effect check_bad_blocks_agree)
    with (fx := do_fix) as (W5 & J5 & F5).
  { rewrite (proj2 (check_bad_blocks_same false r4 k4 ltac:(congruence))).
    exact V5. }
  fold r5 in W5, J5, F5.
  split; [congruence|]. split; [congruence|].
  rewrite W1, W2, W3, W4, W5. cbn [andb]. now rewrite !andb_true_r.
Qed.

(** ** The first round, pass by pass *)

Lemma first_round_state (e : env) : fst (first_round e) = after_bad_blocks e.
Proof.
  unfold first_round, run_passes, after_bad_blocks, after_duplicates,
    after_inode_bitmap, after_data_bitmap, after_superblock.
  cbv zeta. cbn [fst]. reflexivity.
Qed.

Lemma first_round_verdicts (e : env) :
  snd (first_round e)
  = mkVerdicts (isValid (after_superblock e)) (isValid (after_data_bitmap e))
      (isValid (after_inode_bitmap e)) (isValid (after_duplicates e))
      (isValid (after_bad_blocks e)).
Proof.
  unfold first_round, run_passes, after_bad_blocks, after_duplicates,
    after_inode_bitmap, after_data_bitmap, after_superblock.
  cbv zeta. cbn [snd]. reflexivity.
Qed.

Lemma fs_valid_mk (a b c d f : bool) :
  fs_valid (mkVerdicts a b c d f) = a && b && c && d && f.
Proof. reflexivity. Qed.

Lemma rerun_fix (e : env) :
  fix_requested e = true -> rerun e = negb (fs_valid (snd (first_round e))).
Proof. unfold rerun. intros ->. apply andb_true_l. Qed.

Lemma after_data_bitmap_len (e : env) :
  image_len (fs_image (after_data_bitmap e)) = image_len (file_content e).
Proof.
  unfold after_data_bitmap, after_superblock.
  rewrite (pe_len _ _ _ _ (validate_data_bitmap_effect _ _ _)).
  rewrite (pe_len _ _ _ _ (validate_superblock_effect _ _)). reflexivity.
Qed.

(** The inode-bitmap result of a check-only round of passes tests the
    buffer the round started with. *)
Lemma check_round_inode_bitmap c1 c2 s :
  inode_bitmap_valid (snd (run_passes false c1 c2 s)) = true ->
  forall i, 0 <= i < INODE_COUNT -> inode_bit_ok (fs_image s) i = true.
Proof.
  intros V i Hi.
  assert (E : inode_bitmap_valid (snd (run_passes false c1 c2 s))
              = isValid (validate_inode_bitmap false
                           (validate_data_bitmap false c1
                              (validate_superblock false s))))
    by (unfold run_passes; cbv zeta; cbn [snd inode_bitmap_valid];
        reflexivity).
  rewrite E in V.
  pose proof (proj1 (validate_inode_bitmap_valid _) V i Hi) as B.
  now rewrite (pe_check _ _ _ _ (validate_data_bitmap_effect false _ _) eq_refl),
    (pe_check _ _ _ _ (validate_superblock_effect false _) eq_refl) in B.
Qed.

(** ** The two bitmap passes in repair mode *)

Ltac layout :=
  unfold inode_off, inode_table, inode_bitmap, data_bitmap, superblock,
    IMAGE_SIZE, ENTRIES_PER_BLOCK,
    SIZEOF_INODE, INODE_TABLE_START_BLOCK_NUM, INODE_BITMAP_BLOCK_NUM,
    DATA_BITMAP_BLOCK_NUM, SUPERBLOCK_NUM, INODE_COUNT, DATA_BLOCKS_COUNT,
    DATA_BLOCK_START_NUM, TOTAL_BLOCKS, BLOCK_SIZE in *.

Lemma load32_ext a b off :
  (forall k, 0 <= k < 4 -> byte_at a (off + k) = byte_at b (off + k)) ->
  load32 a off = load32 b off.
Proof.
  intros H. unfold load32, load8.
  rewrite <- (Z.add_0_r off) at 1 5.
  rewrite !H by lia. now rewrite Z.add_0_r.
Qed.

(** The inode table is read the same in two buffers that agree from block
    3 on. *)
Lemma inode_get_ext a b i f :
  0 <= i ->
  (forall off, inode_table <= off -> byte_at a off = byte_at b off) ->
  inode_get a i f = inode_get b i f.
Proof.
  intros Hi H. unfold inode_get. apply load32_ext. intros k Hk. apply H.
  assert (0 <= field_index f) by (destruct f; cbn; lia).
  layout. lia.
Qed.

Lemma is_inode_valid_ext a b i :
  0 <= i ->
  (forall off, inode_table <= off -> byte_at a off = byte_at b off) ->
  is_inode_valid a i = is_inode_valid b i.
Proof.
  intros Hi H. unfold is_inode_valid. now rewrite !(inode_get_ext a b i) by auto.
Qed.

Lemma bit_reconciled_id bm i img :
  0 <= i -> bit_reconciled bm i (is_bit_set img bm i) img img.
Proof.
  intros Hi. repeat split; auto.
  intros j Hj. destruct (Z.eqb_spec j i) as [->|]; reflexivity.
Qed.

Lemma bit_reconciled_set bm i img :
  0 <= i -> 0 <= bm + i / 8 < image_len img ->
  bit_reconciled bm i true img (set_bit img bm i).
Proof.
  intros Hi Hr. split; [apply image_len_set_bit|]. split.
  - intros j Hj. rewrite is_bit_set_set_bit by assumption.
    now destruct (j =? i).
  - intros off Ho. now apply byte_at_set_bit_other.
Qed.

Lemma bit_reconciled_clear bm i img :
  0 <= i -> 0 <= bm + i / 8 < image_len img ->
  bit_reconciled bm i false img (clear_bit img bm i).
Proof.
  intros Hi Hr. split; [apply image_len_clear_bit|]. split.
  - intros j Hj. rewrite is_bit_set_clear_bit by assumption.
    now destruct (j =? i).
  - intros off Ho. now apply byte_at_clear_bit_other.
Qed.

Lemma reconcile_inode_bit_fix i s :
  0 <= i < INODE_COUNT -> image_len (fs_image s) = IMAGE_SIZE ->
  bit_reconciled inode_bitmap i (is_inode_valid (fs_image s) i)
    (fs_image s) (fs_image (reconcile_inode_bit true i s)).
Proof.
  intros Hi Hl.
  assert (R : 0 <= inode_bitmap + i / 8 < image_len (fs_image s))
    by (rewrite Hl; layout; Z.div_mod_to_equations; lia).
  unfold reconcile_inode_bit. cbv zeta.
  destruct (is_inode_valid (fs_image s) i) eqn:V,
    (is_bit_set (fs_image s) inode_bitmap i) eqn:B;
    cbn [negb andb fs_image printf with_image with_valid].
  - rewrite <- B. apply bit_reconciled_id. lia.
  - apply bit_reconciled_set; [lia|exact R].
  - apply bit_reconciled_clear; [lia|exact R].
  - rewrite <- B. apply bit_reconciled_id. lia.
Qed.

Lemma reconcile_data_bit_fix used k s :
  0 <= k < DATA_BLOCKS_COUNT -> image_len (fs_image s) = IMAGE_SIZE ->
  bit_reconciled data_bitmap k (used_at used k)
    (fs_image s) (fs_image (reconcile_data_bit true used k s)).
Proof.
  intros Hk Hl.
  assert (R : 0 <= data_bitmap + k / 8 < image_len (fs_image s))
    by (rewrite Hl; layout; Z.div_mod_to_equations; lia).
  unfold reconcile_data_bit. cbv zeta.
  destruct (used_at used k) eqn:V,
    (is_bit_set (fs_image s) data_bitmap k) eqn:B;
    cbn [negb andb fs_image printf with_image with_valid].
  - rewrite <- B. apply bit_reconciled_id. lia.
  - apply bit_reconciled_set; [lia|exact R].
  - apply bit_reconciled_clear; [lia|exact R].
  - rewrite <- B. apply bit_reconciled_id. lia.
Qed.

Lemma bitmap_progress_start bm n target img0 :
  bitmap_progress bm n target img0 0 img0.
Proof. repeat split; auto. intros; lia. Qed.

Lemma bitmap_progress_step bm n target img0 j img img' :
  0 <= j < n ->
  bitmap_progress bm n target img0 j img ->
  bit_reconciled bm j (target j) img img' ->
  bitmap_progress bm n target img0 (j + 1) img'.
Proof.
  intros Hj (L & Done & Todo & Frame) (L' & Bits & Bytes).
  split; [congruence|]. split; [|split].
  - intros k Hk. rewrite Bits by lia.
    destruct (Z.eqb_spec k j) as [->|]; [reflexivity|]. apply Done. lia.
  - intros k Hk. rewrite Bits by lia.
    destruct (Z.eqb_spec k j); [lia|]. apply Todo. lia.
  - intros off Ho. rewrite Bytes; [now apply Frame|].
    intros ->. apply Ho. Z.div_mod_to_equations. lia.
Qed.

(** The inode-bitmap pass in repair mode: afterwards every one of the 80
    bits states the liveness of its inode, and only the ten bytes of those
    bits may have changed. *)
Lemma validate_inode_bitmap_fix s :
  image_len (fs_image s) = IMAGE_SIZE ->
  bitmap_progress inode_bitmap INODE_COUNT (is_inode_valid (fs_image s))
    (fs_image s) INODE_COUNT (fs_image (validate_inode_bitmap true s)).
Proof.
  intros Hl. unfold validate_inode_bitmap. cbv zeta.
  apply (for_loop_ind_idx
           (fun j t => bitmap_progress inode_bitmap INODE_COUNT
                         (is_inode_valid (fs_image s)) (fs_image s) j
                         (fs_image t))).
  - layout. lia.
  - apply bitmap_progress_start.
  - intros j t Hj P. eapply bitmap_progress_step; [exact Hj|exact P|].
    destruct P as (L & _ & _ & Frame).
    rewrite <- (is_inode_valid_ext (fs_image t) (fs_image s)).
    + apply reconcile_inode_bit_fix; [exact Hj|congruence].
    + lia.
    + intros off Ho. apply Frame. layout.
      change ((80 + 7) / 8) with 10. lia.
Qed.

Lemma validate_data_bitmap_fix s :
  image_len (fs_image s) = IMAGE_SIZE ->
  bitmap_progress data_bitmap DATA_BLOCKS_COUNT
    (used_at (collect_block_used (fs_image s)))
    (fs_image s) DATA_BLOCKS_COUNT (fs_image (validate_data_bitmap true true s)).
Proof.
  intros Hl. unfold validate_data_bitmap. cbv zeta. cbn [negb].
  apply (for_loop_ind_idx
           (fun j t => bitmap_progress data_bitmap DATA_BLOCKS_COUNT
                         (used_at (collect_block_used (fs_image s)))
                         (fs_image s) j (fs_image t))).
  - layout. lia.
  - apply bitmap_progress_start.
  - intros j t Hj P. eapply bitmap_progress_step; [exact Hj|exact P|].
    destruct P as (L & _).
    apply reconcile_data_bit_fix; [exact Hj|]. cbn in L. congruence.
Qed.

(** ** The array [block_used] *)

Lemma to_int32_block_idx (p : Z) :
  0 <= p < 2^32 ->
  (0 <=? to_int32 (p - DATA_BLOCK_START_NUM))
  && (to_int32 (p - DATA_BLOCK_START_NUM) <? DATA_BLOCKS_COUNT)
  = in_data_region p
  /\ (in_data_region p = true -> to_int32 (p - DATA_BLOCK_START_NUM) = p - 8).
Proof.
  intros Hp. unfold to_int32, in_data_region. layout.
  change (2^32) with 4294967296 in *. change (2^31) with 2147483648.
  destruct (Z.ltb_spec ((p - 8) mod 4294967296) 2147483648);
    destruct (Z.leb_spec 8 p); destruct (Z.ltb_spec p 64);
    cbn [andb]; split; try (intros; discriminate);
    repeat match goal with
           | |- context [?a <=? ?b] => destruct (Z.leb_spec a b)
           | |- context [?a <? ?b] => destruct (Z.ltb_spec a b)
           end; cbn [andb]; try reflexivity; try intros _;
    Z.div_mod_to_equations; lia.
Qed.

Lemma mark_block_used_spec (p : Z) (u : list bool) (k : Z) :
  0 <= p < 2^32 -> 0 <= k < Z.of_nat (length u) ->
  length u = Z.to_nat DATA_BLOCKS_COUNT ->
  length (mark_block_used p u) = length u
  /\ used_at (mark_block_used p u) k
     = used_at u k || (in_data_region p && (p =? k + DATA_BLOCK_START_NUM)).
Proof.
  intros Hp Hk Hl. unfold mark_block_used. cbv zeta.
  destruct (to_int32_block_idx p Hp) as [E1 E2]. rewrite E1.
  destruct (Z.eqb_spec p 0) as [->|Hne]; cbn [negb].
  - split; [reflexivity|]. cbn. now rewrite orb_false_r.
  - destruct (in_data_region p) eqn:R; cbn [andb].
    + rewrite (E2 eq_refl). split; [apply length_insert|].
      unfold used_at. unfold in_data_region in R. layout.
      destruct (Z.eqb_spec p (k + 8)) as [->|Hpk].
      * replace (k + 8 - 8) with k by lia.
        rewrite list_lookup_insert_eq by lia. cbn. now rewrite orb_true_r.
      * rewrite list_lookup_insert_ne by lia. now rewrite orb_false_r.
    + split; [reflexivity|]. now rewrite orb_false_r.
Qed.

Lemma collect_inode_blocks_spec img i u k :
  0 <= k < DATA_BLOCKS_COUNT -> length u = Z.to_nat DATA_BLOCKS_COUNT ->
  length (collect_inode_blocks img i u) = length u
  /\ (used_at (collect_inode_blocks img i u) k = true <->
        used_at u k = true
        \/ (is_inode_valid img i = true
            /\ exists f, In f pointer_slots
                         /\ inode_get img i f = k + DATA_BLOCK_START_NUM)).
Proof.
  intros Hk Hl. unfold collect_inode_blocks.
  destruct (is_inode_valid img i); cbn [negb].
  2:{ split; [reflexivity|]. split; [auto|]. intros [H|[H _]]; [exact H|discriminate]. }
  assert (K : 0 <= k < Z.of_nat (length u)) by (rewrite Hl; layout; lia).
  pose proof (load32_range img (inode_off i i_direct_block)) as R1.
  pose proof (load32_range img (inode_off i i_single_indirect)) as R2.
  pose proof (load32_range img (inode_off i i_double_indirect)) as R3.
  pose proof (load32_range img (inode_off i i_triple_indirect)) as R4.
  fold (inode_get img i i_direct_block) in R1.
  fold (inode_get img i i_single_indirect) in R2.
  fold (inode_get img i i_double_indirect) in R3.
  fold (inode_get img i i_triple_indirect) in R4.
  destruct (mark_block_used_spec _ u k R1 K Hl) as [L1 U1].
  destruct (mark_block_used_spec _ _ k R2 ltac:(rewrite L1; exact K)
              ltac:(rewrite L1; exact Hl)) as [L2 U2].
  destruct (mark_block_used_spec _ _ k R3 ltac:(rewrite L2, L1; exact K)
              ltac:(rewrite L2, L1; exact Hl)) as [L3 U3].
  destruct (mark_block_used_spec _ _ k R4 ltac:(rewrite L3, L2, L1; exact K)
              ltac:(rewrite L3, L2, L1; exact Hl)) as [L4 U4].
  split; [congruence|].
  rewrite U4, U3, U2, U1. rewrite !orb_true_iff, !andb_true_iff, !Z.eqb_eq.
  unfold pointer_slots. split.
  - intros [[[[H|[_ H]]|[_ H]]|[_ H]]|[_ H]]; [left; exact H| | | |];
      right; (split; [reflexivity|]); eexists; (split; [|exact H]); cbn; auto.
  - intros [H|[_ (f & Hf & H)]]; [auto 6|].
    assert (D : in_data_region (k + DATA_BLOCK_START_NUM) = true).
    { unfold in_data_region. layout.
      destruct (Z.leb_spec 8 (k + 8)); [|lia].
      destruct (Z.ltb_spec (k + 8) 64); [reflexivity|lia]. }
    cbn in Hf. destruct Hf as [<-|[<-|[<-|[<-|[]]]]]; rewrite H, D; auto 7.
Qed.

(** [block_used[k]] is set exactly when one of the four pointer slots of a
    live inode holds block [k + 8]. *)
Lemma collect_block_used_spec img k :
  0 <= k < DATA_BLOCKS_COUNT ->
  used_at (collect_block_used img) k = true <->
  top_level_pointer img INODE_COUNT (k + DATA_BLOCK_START_NUM).
Proof.
  intros Hk. unfold collect_block_used.
  assert (G : length (for_loop INODE_COUNT (collect_inode_blocks img)
                        (replicate (Z.to_nat DATA_BLOCKS_COUNT) false))
              = Z.to_nat DATA_BLOCKS_COUNT
              /\ (used_at (for_loop INODE_COUNT (collect_inode_blocks img)
                             (replicate (Z.to_nat DATA_BLOCKS_COUNT) false)) k
                  = true <->
                  top_level_pointer img INODE_COUNT (k + DATA_BLOCK_START_NUM))).
  { apply (for_loop_ind_idx
             (fun j u => length u = Z.to_nat DATA_BLOCKS_COUNT
                         /\ (used_at u k = true <->
                             top_level_pointer img j (k + DATA_BLOCK_START_NUM)))).
    - layout. lia.
    - split; [apply length_replicate|].
      unfold used_at. split.
      + intros H. destruct (replicate _ _ !! _) as [x|] eqn:E; [|discriminate].
        apply lookup_replicate in E as [-> _]. discriminate.
      + intros (i & f & Hi & _). lia.
    - intros j u Hj [L U].
      destruct (collect_inode_blocks_spec img j u k Hk L) as [L' U'].
      split; [congruence|]. rewrite U', U. unfold top_level_pointer. split.
      + intros [(i & f & Hi & H)|(V & f & Hf & H)].
        * exists i, f. split; [lia|exact H].
        * exists j, f. repeat split; auto; lia.
      + intros (i & f & Hi & V & Hf & H).
        destruct (Z.eq_dec i j) as [->|Hne].
        * right. split; [exact V|]. exists f. auto.
        * left. exists i, f. repeat split; auto; lia. }
  apply G.
Qed.

(** [block_used] is a function of the liveness fields and the four pointer
    slots of the inodes; no other byte of the image enters it. *)
Lemma collect_block_used_ext a b :
  (forall i f, 0 <= i < INODE_COUNT ->
               In f (i_links_count :: i_dtime :: pointer_slots) ->
               inode_get a i f = inode_get b i f) ->
  collect_block_used a = collect_block_used b.
Proof.
  intros H. unfold collect_block_used.
  apply (for_loop_rel eq); [reflexivity|].
  intros j u u' Hj <-. unfold collect_inode_blocks, is_inode_valid.
  rewrite !(H j) by (auto; cbn; auto 7). reflexivity.
Qed.

(** ** Consistent images, pass by pass *)

Lemma run_passes_verdicts do_fix c1 c2 s :
  snd (run_passes do_fix c1 c2 s)
  = let s1 := validate_superblock do_fix s in
    let s2 := validate_data_bitmap do_fix c1 s1 in
    let s3 := validate_inode_bitmap do_fix s2 in
    let s4 := check_duplicate_blocks do_fix c2 s3 in
    mkVerdicts (isValid s1) (isValid s2) (isValid s3) (isValid s4)
      (isValid (check_bad_blocks do_fix s4)).
Proof. unfold run_passes. cbv zeta. cbn [snd]. reflexivity. Qed.

(** On a consistent image each of the five passes, run check-only from any
    state that holds the image, returns [true]. *)
Lemma consistent_checks img :
  consistent img = true ->
  forall s, fs_image s = img ->
    isValid (validate_superblock false s) = true
    /\ isValid (validate_data_bitmap false true s) = true
    /\ isValid (validate_inode_bitmap false s) = true
    /\ isValid (check_duplicate_blocks false true s) = true
    /\ isValid (check_bad_blocks false s) = true.
Proof.
  unfold consistent. rewrite run_passes_verdicts. cbv zeta.
  rewrite fs_valid_mk, !andb_true_iff.
  intros ((((V1 & V2) & V3) & V4) & V5) s Hs.
  remember (validate_superblock false (pristine img)) as k1 eqn:K1.
  remember (validate_data_bitmap false true k1) as k2 eqn:K2.
  remember (validate_inode_bitmap false k2) as k3 eqn:K3.
  remember (check_duplicate_blocks false true k3) as k4 eqn:K4.
  assert (I1 : fs_image k1 = img).
  { rewrite K1.
    exact (pe_check _ _ _ _ (validate_superblock_effect false (pristine img))
             eq_refl). }
  assert (I2 : fs_image k2 = img).
  { rewrite K2, <- I1.
    exact (pe_check _ _ _ _ (validate_data_bitmap_effect false true k1) eq_refl). }
  assert (I3 : fs_image k3 = img).
  { rewrite K3, <- I2.
    exact (pe_check _ _ _ _ (validate_inode_bitmap_effect false k2) eq_refl). }
  assert (I4 : fs_image k4 = img).
  { rewrite K4, <- I3.
    exact (pe_check _ _ _ _ (check_duplicate_blocks_effect false true k3)
             eq_refl). }
  split; [|split; [|split; [|split]]].
  - rewrite (validate_superblock_image_only s (pristine img) Hs), <- K1.
    exact V1.
  - rewrite (validate_data_bitmap_image_only true s k1), <- K2;
      [exact V2|congruence].
  - rewrite (validate_inode_bitmap_image_only s k2), <- K3;
      [exact V3|congruence].
  - rewrite (proj2 (check_duplicate_blocks_same false true s k3
                      ltac:(congruence))), <- K4. exact V4.
  - rewrite (proj2 (check_bad_blocks_same false s k4 ltac:(congruence))).
    exact V5.
Qed.

(** ** Repairing one stale bit of the inode bitmap *)

Lemma run_passes_state do_fix c1 c2 s :
  fst (run_passes do_fix c1 c2 s)
  = check_bad_blocks do_fix
      (check_duplicate_blocks do_fix c2
         (validate_inode_bitmap do_fix
            (validate_data_bitmap do_fix c1 (validate_superblock do_fix s)))).
Proof. unfold run_passes. cbv zeta. cbn [fst]. reflexivity. Qed.

Lemma load16_ext a b off :
  (forall k, 0 <= k < 2 -> byte_at a (off + k) = byte_at b (off + k)) ->
  load16 a off = load16 b off.
Proof.
  intros H. unfold load16, load8.
  rewrite <- (Z.add_0_r off) at 1 3.
  rewrite !H by lia. now rewrite Z.add_0_r.
Qed.

Lemma sb_load_ext a b f :
  (forall off, 0 <= off < 36 -> byte_at a off = byte_at b off) ->
  sb_load a f = sb_load b f.
Proof.
  intros H. unfold sb_load.
  destruct f; (apply load16_ext || apply load32_ext); intros k Hk; apply H;
    layout; cbn; lia.
Qed.

Lemma is_bit_set_ext a b bm k :
  0 <= k -> byte_at a (bm + k / 8) = byte_at b (bm + k / 8) ->
  is_bit_set a bm k = is_bit_set b bm k.
Proof.
  intros Hk H. rewrite !is_bit_set_testbit by assumption.
  unfold load8. now rewrite H.
Qed.

Lemma byte_eq_of_bits a b off :
  (forall k, 0 <= k < 8 ->
     Z.testbit (load8 a off) k = Z.testbit (load8 b off) k) ->
  byte_at a off = byte_at b off.
Proof.
  intros H. apply byte_val_inj. fold (load8 a off). fold (load8 b off).
  apply Z.bits_inj'. intros k Hk.
  destruct (Z.ltb_spec k 8); [apply H; lia|].
  rewrite !testbit_small; auto using load8_range.
Qed.

(** The repair pass rebuilds the ten bitmap bytes from the inodes: started
    on an image whose bitmap agrees with the inodes except for bits that
    were cleared or set by hand, it returns that image. *)
Lemma validate_inode_bitmap_restores img s :
  image_len img = IMAGE_SIZE ->
  (forall i, 0 <= i < INODE_COUNT -> inode_bit_ok img i = true) ->
  image_len (fs_image s) = IMAGE_SIZE ->
  (forall off, ~ (inode_bitmap <= off < inode_bitmap + 10) ->
     byte_at (fs_image s) off = byte_at img off) ->
  fs_image (validate_inode_bitmap true s) = img.
Proof.
  intros Hl Hok Hs Hsame.
  destruct (validate_inode_bitmap_fix s Hs) as (L & Bits & _ & Frame).
  change ((INODE_COUNT + 7) / 8) with 10 in Frame.
  apply image_ext; [congruence|].
  intros off Ho.
  destruct (Z_le_dec inode_bitmap off) as [H1|H1];
    [destruct (Z_lt_dec off (inode_bitmap + 10)) as [H2|H2]|].
  - apply byte_eq_of_bits. intros k Hk.
    assert (Hi : 0 <= 8 * (off - inode_bitmap) + k < INODE_COUNT)
      by (layout; lia).
    replace off with (inode_bitmap + (8 * (off - inode_bitmap) + k) / 8)
      by (Z.div_mod_to_equations; lia).
    replace k with ((8 * (off - inode_bitmap) + k) mod 8) at 2 4
      by (Z.div_mod_to_equations; lia).
    rewrite <- !is_bit_set_testbit by lia.
    rewrite (Bits _ Hi).
    specialize (Hok _ Hi). unfold inode_bit_ok in Hok. apply eqb_prop in Hok.
    rewrite <- Hok. apply is_inode_valid_ext; [lia|].
    intros o Hoo. apply Hsame. layout. lia.
  - rewrite Frame by lia. apply Hsame. lia.
  - rewrite Frame by lia. apply Hsame. lia.
Qed.

(** A repair round on a consistent image whose inode-bitmap bit 0 has been
    cleared: the round ends with the consistent image in the buffer, and
    the inode-bitmap pass has returned [false]. *)
Lemma run_passes_stale img c1 c2 s :
  image_len img = IMAGE_SIZE ->
  consistent img = true ->
  is_bit_set img inode_bitmap 0 = true ->
  fs_image s = clear_bit img inode_bitmap 0 ->
  fs_image (fst (run_passes true c1 c2 s)) = img
  /\ inode_bitmap_valid (snd (run_passes true c1 c2 s)) = false.
Proof.
  intros Hl C B0 Hs.
  destruct (consistent_checks img C (pristine img) eq_refl)
    as (V1 & V2 & V3 & _ & _).
  pose proof (proj1 (validate_superblock_valid _) V1) as SB.
  pose proof (proj1 (validate_data_bitmap_valid _) V2) as DB.
  pose proof (proj1 (validate_inode_bitmap_valid _) V3) as IB.
  change (fs_image (pristine img)) with img in SB, DB, IB.
  clear V1 V2 V3.
  assert (Same : forall off, off <> inode_bitmap ->
                 byte_at (fs_image s) off = byte_at img off).
  { intros off Ho. rewrite Hs. apply byte_at_clear_bit_other; [lia|].
    change (0 / 8) with 0. lia. }
  assert (Ls : image_len (fs_image s) = IMAGE_SIZE)
    by (rewrite Hs, image_len_clear_bit; exact Hl).
  rewrite run_passes_state, run_passes_verdicts. cbv zeta.
  cbn [inode_bitmap_valid].
  (* superblock *)
  destruct (pass_on_consistent validate_superblock PSuperblock s
              validate_superblock_effect validate_superblock_agree)
    with (fx := true) as (_ & J1 & _).
  { apply validate_superblock_valid. intros f. rewrite <- SB.
    apply sb_load_ext. intros off Ho. apply Same. layout. lia. }
  remember (validate_superblock true s) as s1 eqn:E1. clear E1.
  (* data bitmap *)
  assert (J2 : fs_image (validate_data_bitmap true c1 s1) = fs_image s).
  { rewrite <- J1. destruct c1.
    - apply (pass_on_consistent (fun fx => validate_data_bitmap fx true)
               PDataBitmap s1
               (fun fx t => validate_data_bitmap_effect fx true t)
               (validate_data_bitmap_agree true)).
      apply validate_data_bitmap_valid. intros k Hk. rewrite <- (DB k Hk).
      unfold data_bit_ok. rewrite J1. f_equal.
      + f_equal. apply collect_block_used_ext. intros i f Hi _.
        apply inode_get_ext; [lia|]. intros off Ho. apply Same. layout. lia.
      + apply is_bit_set_ext; [lia|]. apply Same.
        layout. Z.div_mod_to_equations. lia.
    - apply validate_data_bitmap_no_alloc. }
  assert (L2 : image_len (fs_image (validate_data_bitmap true c1 s1)) = IMAGE_SIZE)
    by (rewrite J2; exact Ls).
  remember (validate_data_bitmap true c1 s1) as s2 eqn:E2. clear E2 J1 s1.
  (* inode bitmap *)
  assert (J3 : fs_image (validate_inode_bitmap true s2) = img).
  { apply validate_inode_bitmap_restores; auto.
    intros off Ho. rewrite J2. apply Same. lia. }
  assert (W3 : isValid (validate_inode_bitmap true s2) = false).
  { destruct (isValid (validate_inode_bitmap true s2)) eqn:W; [|reflexivity].
    exfalso.
    destruct (pe_valid _ _ _ _ (validate_inode_bitmap_effect true s2) W)
      as [_ I].
    rewrite J3, J2, Hs in I.
    assert (B : is_bit_set (clear_bit img inode_bitmap 0) inode_bitmap 0 = true)
      by (rewrite <- I; exact B0).
    rewrite is_bit_set_clear_bit in B
      by (try lia; rewrite Hl; change (0 / 8) with 0; layout; lia).
    discriminate B. }
  split; [|exact W3].
  remember (validate_inode_bitmap true s2) as s3 eqn:E3. clear E3 W3 L2 J2 s2.
  destruct (consistent_checks img C s3 J3) as (_ & _ & _ & V4 & _).
  (* duplicates *)
  assert (J4 : fs_image (check_duplicate_blocks true c2 s3) = img).
  { rewrite <- J3. destruct c2.
    - apply (pass_on_consistent (fun fx => check_duplicate_blocks fx true)
               PDuplicate s3
               (fun fx t => check_duplicate_blocks_effect fx true t)
               (check_duplicate_blocks_agree true)). exact V4.
    - apply check_duplicate_blocks_no_alloc. }
  remember (check_duplicate_blocks true c2 s3) as s4 eqn:E4. clear E4 V4 J3 s3.
  destruct (consistent_checks img C s4 J4) as (_ & _ & _ & _ & V5).
  rewrite <- J4.
  apply (pass_on_consistent check_bad_blocks PBadBlock s4
           check_bad_blocks_effect check_bad_blocks_agree). exact V5.
Qed.

Lemma main_exit_code (e : env) :
  startup_failure e = false -> exit_code (main e) = 0.
Proof.
  intros S. rewrite (main_started e S). cbv zeta.
  destruct (rerun e); reflexivity.
Qed.

Lemma main_file_after_rerun (e : env) :
  startup_failure e = false -> rerun e = true ->
  file_after (main e)
  = fwrite (fs_image (fst (first_round e))) (fwrite_count e) (file_content e).
Proof.
  intros S R. rewrite (main_started e S). cbv zeta. rewrite R.
  cbn [file_after].
  assert (I : fs_image (fst (second_round e)) = fs_image (fst (first_round e))).
  { unfold second_round. rewrite run_passes_check_only.
    rewrite fs_image_printf. apply print_summary_image. }
  destruct (negb (fs_valid (snd (second_round e))));
    rewrite ?fs_image_printf, print_summary_image, I; reflexivity.
Qed.

Lemma fs_valid_inode_bitmap (v : verdicts) :
  inode_bitmap_valid v = false -> fs_valid v = false.
Proof.
  destruct v as [a b c d f]. unfold fs_valid. cbn. intros ->.
  now rewrite andb_false_r.
Qed.

Lemma fwrite_whole (buf file : image) :
  image_len buf = IMAGE_SIZE -> image_len file = IMAGE_SIZE ->
  fwrite buf IMAGE_SIZE file = buf.
Proof.
  unfold fwrite, image_len. intros Hb Hf.
  rewrite take_ge, drop_ge by lia. apply app_nil_r.
Qed.

Lemma startup_env_for_fix (img : image) :
  image_len img = IMAGE_SIZE ->
  startup_failure (env_for fix_args img) = false
  /\ fix_requested (env_for fix_args img) = true.
Proof.
  intros Hl. unfold startup_failure, usage_error, size_mismatch, fix_requested,
    argc, env_for.
  cbn [argv fopen_ok file_content malloc_ok fread_ok calloc_ok negb orb].
  rewrite Hl, Z.eqb_refl. split; reflexivity.
Qed.

(** The whole repair run on a consistent image whose inode-bitmap bit 0 was
    cleared: the run exits with 0, buffer and file end as the consistent
    image, and the re-audit finds nothing. *)
Lemma stale_bit_repair (img : image) :
  image_len img = IMAGE_SIZE ->
  consistent img = true ->
  is_inode_valid img 0 = true ->
  let e := env_for fix_args (clear_bit img inode_bitmap 0) in
  exit_code (main e) = 0
  /\ file_after (main e) = img
  /\ final_buffer (main e) = Some img
  /\ fs_valid (snd (second_round e)) = true
  /\ is_bit_set img inode_bitmap 0 = true.
Proof.
  intros Hl C V0. cbv zeta.
  set (input := clear_bit img inode_bitmap 0).
  assert (Li : image_len input = IMAGE_SIZE)
    by (unfold input; rewrite image_len_clear_bit; exact Hl).
  destruct (startup_env_for_fix input Li) as [S F].
  assert (B0 : is_bit_set img inode_bitmap 0 = true).
  { destruct (consistent_checks img C (pristine img) eq_refl)
      as (_ & _ & V3 & _).
    pose proof (proj1 (validate_inode_bitmap_valid _) V3 0
                  ltac:(unfold INODE_COUNT; lia)) as K.
    change (fs_image (pristine img)) with img in K.
    unfold inode_bit_ok in K. apply eqb_prop in K. congruence. }
  destruct (run_passes_stale img (calloc_ok (env_for fix_args input) 1%nat)
              (calloc_ok (env_for fix_args input) 2%nat)
              (boot_state (env_for fix_args input)) Hl C B0 eq_refl)
    as [I1 W1].
  assert (FR : first_round (env_for fix_args input)
               = run_passes true (calloc_ok (env_for fix_args input) 1%nat)
                   (calloc_ok (env_for fix_args input) 2%nat)
                   (boot_state (env_for fix_args input)))
    by (unfold first_round; rewrite F; reflexivity).
  rewrite <- FR in I1, W1.
  assert (R : rerun (env_for fix_args input) = true)
    by (rewrite (rerun_fix _ F), (fs_valid_inode_bitmap _ W1); reflexivity).
  split; [apply (main_exit_code _ S)|].
  split; [|split; [|split; [|exact B0]]].
  - rewrite (main_file_after_rerun _ S R), I1.
    apply fwrite_whole; [exact Hl|exact Li].
  - rewrite (main_final_buffer _ S), I1. reflexivity.
  - unfold second_round.
    apply (run_passes_consistent img false true true _ C).
    rewrite fs_image_printf, print_summary_image. exact I1.
Qed.

(** ** The bad-block pass *)

Lemma only_bad_zeroed_refl img : only_bad_zeroed img img.
Proof. split; auto. Qed.

Lemma only_bad_zeroed_trans a b c :
  only_bad_zeroed a b -> only_bad_zeroed b c -> only_bad_zeroed a c.
Proof.
  intros [L1 W1] [L2 W2]. split; [congruence|].
  intros w Hw. destruct (W1 w Hw) as [E1|[B1 Z1]], (W2 w Hw) as [E2|[B2 Z2]].
  - left. congruence.
  - right. split; congruence.
  - right. split; congruence.
  - right. split; congruence.
Qed.

(** A word that holds no bad block number is never written. *)
Lemma only_bad_zeroed_keeps a b w :
  only_bad_zeroed a b -> w mod 4 = 0 -> load32 a w < TOTAL_BLOCKS ->
  load32 b w = load32 a w.
Proof. intros [_ W] Hw Hc. destruct (W w Hw) as [E|[B _]]; [exact E|lia]. Qed.

Lemma store_zero_bad img w :
  0 <= w -> w + 4 <= image_len img -> w mod 4 = 0 ->
  TOTAL_BLOCKS <= load32 img w ->
  only_bad_zeroed img (store32 img w 0).
Proof.
  intros H0 H1 Ha Hb. split; [apply image_len_store32|].
  intros w' Hw'. destruct (Z.eq_dec w' w) as [->|Hne].
  - right. split; [exact Hb|]. apply load32_store32_same; try assumption.
    change (2^32) with 4294967296. lia.
  - left. apply load32_store32_other. Z.div_mod_to_equations. lia.
Qed.

Lemma get_block_some x o :
  get_block x = Some o -> 0 <= x < TOTAL_BLOCKS /\ o = x * BLOCK_SIZE.
Proof.
  unfold get_block. destruct (Z.ltb_spec x 0); cbn [orb]; [discriminate|].
  destruct (Z.geb_spec x TOTAL_BLOCKS); [discriminate|].
  intros E. apply some_inj in E. lia.
Qed.

Lemma to_int32_small v : 0 <= v < TOTAL_BLOCKS -> to_int32 v = v.
Proof.
  intros H. unfold to_int32. layout. rewrite Z.mod_small by lia.
  destruct (Z.ltb_spec v (2^31)); [reflexivity|]. change (2^31) with 2147483648 in *. lia.
Qed.

Lemma get_block_pointer v :
  0 <= v < TOTAL_BLOCKS -> get_block (to_int32 v) = Some (v * BLOCK_SIZE).
Proof.
  intros H. rewrite to_int32_small by assumption. unfold get_block.
  destruct (Z.ltb_spec v 0); [lia|]. destruct (Z.geb_spec v TOTAL_BLOCKS); [lia|].
  reflexivity.
Qed.

Lemma entry_aligned b j : (b * BLOCK_SIZE + 4 * j) mod 4 = 0.
Proof. layout. Z.div_mod_to_equations. lia. Qed.

Lemma inode_aligned i f : inode_off i f mod 4 = 0.
Proof. layout. Z.div_mod_to_equations. lia. Qed.

Lemma entry_in_image b j :
  0 <= b < TOTAL_BLOCKS -> 0 <= j < ENTRIES_PER_BLOCK ->
  0 <= b * BLOCK_SIZE + 4 * j /\ b * BLOCK_SIZE + 4 * j + 4 <= IMAGE_SIZE.
Proof. layout. change (4096 / 4) with 1024. lia. Qed.

Lemma inode_in_image i f :
  0 <= i < INODE_COUNT ->
  0 <= inode_off i f /\ inode_off i f + 4 <= IMAGE_SIZE.
Proof.
  intros H. assert (0 <= field_index f <= 13) by (destruct f; cbn; lia).
  layout. lia.
Qed.

(** The walks write nothing but zeros over bad block numbers. *)
Lemma bad_walk_only_zeroes do_fix top i :
  forall depth b s,
    0 <= b < TOTAL_BLOCKS -> image_len (fs_image s) = IMAGE_SIZE ->
    only_bad_zeroed (fs_image s)
      (fs_image (bad_walk depth do_fix top i (b * BLOCK_SIZE) s)).
Proof.
  induction depth as [|d IH]; intros b s Hb Hl; rewrite bad_walk_eq;
    apply (for_loop_ind (fun t => only_bad_zeroed (fs_image s) (fs_image t)));
    try apply only_bad_zeroed_refl; intros j t Hj Ht; cbv zeta;
    (destruct (Z.geb_spec (entry_get (fs_image t) (b * BLOCK_SIZE) j)
                 TOTAL_BLOCKS) as [Hbad|Hok];
     [destruct do_fix;
      cbn [fs_image printf with_image with_valid]; [|exact Ht];
      eapply only_bad_zeroed_trans; [exact Ht|];
      destruct (entry_in_image b j Hb Hj);
      apply store_zero_bad;
      [lia|rewrite (proj1 Ht), Hl; lia|apply entry_aligned|exact Hbad]|]).
  - exact Ht.
  - destruct (entry_get (fs_image t) (b * BLOCK_SIZE) j =? 0);
      cbn [negb]; [exact Ht|].
    destruct (get_block _) as [sub|] eqn:G; [|exact Ht].
    apply get_block_some in G. destruct G as [Hx ->].
    eapply only_bad_zeroed_trans; [exact Ht|].
    apply IH; [exact Hx|]. rewrite (proj1 Ht). exact Hl.
Qed.

Lemma bad_top_only_zeroes do_fix i f walk s :
  0 <= i < INODE_COUNT -> image_len (fs_image s) = IMAGE_SIZE ->
  only_bad_zeroed (fs_image s) (fs_image (bad_top do_fix i f walk s)).
Proof.
  intros Hi Hl. unfold bad_top. cbv zeta.
  destruct (Z.geb_spec (inode_get (fs_image s) i f) TOTAL_BLOCKS) as [Hbad|Hok].
  - destruct do_fix; cbn [fs_image printf with_image with_valid];
      [|apply only_bad_zeroed_refl].
    destruct (inode_in_image i f Hi).
    apply store_zero_bad; [lia|rewrite Hl; lia|apply inode_aligned|exact Hbad].
  - destruct walk as [depth|]; [|apply only_bad_zeroed_refl].
    destruct (inode_get (fs_image s) i f =? 0); cbn [negb];
      [apply only_bad_zeroed_refl|].
    destruct (get_block _) as [sub|] eqn:G; [|apply only_bad_zeroed_refl].
    apply get_block_some in G. destruct G as [Hx ->].
    now apply bad_walk_only_zeroes.
Qed.

Lemma bad_inode_only_zeroes do_fix i s :
  0 <= i < INODE_COUNT -> image_len (fs_image s) = IMAGE_SIZE ->
  only_bad_zeroed (fs_image s) (fs_image (bad_inode do_fix i s)).
Proof.
  intros Hi Hl. unfold bad_inode.
  destruct (is_inode_valid (fs_image s) i); cbn [negb];
    [|apply only_bad_zeroed_refl].
  pose proof (bad_top_only_zeroes do_fix i i_direct_block None s Hi Hl) as O1.
  pose proof (bad_top_only_zeroes do_fix i i_single_indirect (Some 0%nat) _ Hi
                ltac:(rewrite (proj1 O1); exact Hl)) as O2.
  pose proof (bad_top_only_zeroes do_fix i i_double_indirect (Some 1%nat) _ Hi
                ltac:(rewrite (proj1 O2), (proj1 O1); exact Hl)) as O3.
  pose proof (bad_top_only_zeroes do_fix i i_triple_indirect (Some 2%nat) _ Hi
                ltac:(rewrite (proj1 O3), (proj1 O2), (proj1 O1); exact Hl))
    as O4.
  eauto using only_bad_zeroed_trans.
Qed.

Lemma check_bad_blocks_only_zeroes do_fix s :
  image_len (fs_image s) = IMAGE_SIZE ->
  only_bad_zeroed (fs_image s) (fs_image (check_bad_blocks do_fix s)).
Proof.
  intros Hl. unfold check_bad_blocks. cbv zeta.
  apply (for_loop_ind (fun t => only_bad_zeroed (fs_image s) (fs_image t)));
    [apply only_bad_zeroed_refl|].
  intros j t Hj Ht. eapply only_bad_zeroed_trans; [exact Ht|].
  apply bad_inode_only_zeroes; [exact Hj|]. rewrite (proj1 Ht). exact Hl.
Qed.

Lemma graph_clean_stable a b :
  only_bad_zeroed a b ->
  forall depth blk, graph_clean depth a blk -> graph_clean depth b blk.
Proof.
  intros O. induction depth as [|d IH]; intros blk G j Hj;
    destruct (G j Hj) as [C Sub]; unfold entry_get in *;
    rewrite (only_bad_zeroed_keeps a b _ O (entry_aligned blk j) C).
  - split; [exact C|exact I].
  - split; [exact C|]. intros Hne. apply IH. now apply Sub.
Qed.

Lemma slot_clean_stable a b i f walk :
  only_bad_zeroed a b -> slot_clean a i f walk -> slot_clean b i f walk.
Proof.
  intros O [C G]. unfold slot_clean, inode_get in *.
  rewrite (only_bad_zeroed_keeps a b _ O (inode_aligned i f) C).
  split; [exact C|]. destruct walk as [d|]; [|exact I].
  intros Hne. eapply graph_clean_stable; eauto.
Qed.

Lemma graph_clean_entries depth img b :
  graph_clean depth img b <-> entries_clean depth img b ENTRIES_PER_BLOCK.
Proof. destruct depth; reflexivity. Qed.

Lemma entries_clean_stable a b depth blk n :
  only_bad_zeroed a b ->
  entries_clean depth a blk n -> entries_clean depth b blk n.
Proof.
  intros O C j Hj. destruct (C j Hj) as [C1 C2]. unfold entry_get in *.
  rewrite (only_bad_zeroed_keeps a b _ O (entry_aligned blk j) C1).
  split; [exact C1|]. destruct depth as [|d]; [exact I|].
  intros Hne. eapply graph_clean_stable; [exact O|]. now apply C2.
Qed.

Lemma entries_clean_next depth img b n :
  entries_clean depth img b n ->
  entry_get img (b * BLOCK_SIZE) n < TOTAL_BLOCKS ->
  match depth with
  | O => True
  | Datatypes.S d =>
      entry_get img (b * BLOCK_SIZE) n <> 0 ->
      graph_clean d img (entry_get img (b * BLOCK_SIZE) n)
  end ->
  entries_clean depth img b (n + 1).
Proof.
  intros C H1 H2 j Hj. destruct (Z.eq_dec j n) as [->|Hne];
    [split; assumption|apply C; lia].
Qed.

Lemma bad_walk_cleans_step top i depth :
  (forall d, depth = Datatypes.S d ->
     forall b s, 0 <= b < TOTAL_BLOCKS ->
                 image_len (fs_image s) = IMAGE_SIZE ->
                 graph_clean d
                   (fs_image (bad_walk d true top i (b * BLOCK_SIZE) s)) b) ->
  forall b s,
    0 <= b < TOTAL_BLOCKS -> image_len (fs_image s) = IMAGE_SIZE ->
    graph_clean depth
      (fs_image (bad_walk depth true top i (b * BLOCK_SIZE) s)) b.
Proof.
  intros IH b s Hb Hl. rewrite bad_walk_eq. apply graph_clean_entries.
  match goal with
  | |- entries_clean _ (fs_image (for_loop ?n ?body s)) _ _ =>
      enough (P : only_bad_zeroed (fs_image s) (fs_image (for_loop n body s))
                  /\ entries_clean depth (fs_image (for_loop n body s)) b n)
        by apply P;
      apply (for_loop_ind_idx
               (fun k t => only_bad_zeroed (fs_image s) (fs_image t)
                           /\ entries_clean depth (fs_image t) b k))
  end.
  - layout. change (4096 / 4) with 1024. lia.
  - split; [apply only_bad_zeroed_refl|intros j Hj; lia].
  - intros n t Hn [O C]. cbv zeta.
    destruct (entry_in_image b n Hb Hn) as [E0 E1].
    assert (Lt : image_len (fs_image t) = IMAGE_SIZE)
      by (rewrite (proj1 O); exact Hl).
    pose proof (load32_range (fs_image t) (b * BLOCK_SIZE + 4 * n)) as R.
    fold (entry_get (fs_image t) (b * BLOCK_SIZE) n) in R.
    destruct (Z.geb_spec (entry_get (fs_image t) (b * BLOCK_SIZE) n)
                TOTAL_BLOCKS) as [Hbad|Hok].
    + (* a bad entry: zeroed *)
      cbn [fs_image printf with_image with_valid].
      assert (O' : only_bad_zeroed (fs_image t)
                     (entry_set (fs_image t) (b * BLOCK_SIZE) n 0)).
      { apply store_zero_bad;
          [lia|rewrite Lt; lia|apply entry_aligned|exact Hbad]. }
      assert (Z0 : entry_get (entry_set (fs_image t) (b * BLOCK_SIZE) n 0)
                     (b * BLOCK_SIZE) n = 0).
      { unfold entry_get, entry_set. apply load32_store32_same;
          [lia|rewrite Lt; lia|change (2^32) with 4294967296; lia]. }
      split; [eapply only_bad_zeroed_trans; eauto|].
      apply entries_clean_next.
      * eapply entries_clean_stable; eauto.
      * rewrite Z0. layout. lia.
      * destruct depth; [exact I|]. rewrite Z0. intros X. now elim X.
    + destruct depth as [|d].
      * split; [exact O|]. apply entries_clean_next; auto.
      * destruct (Z.eqb_spec (entry_get (fs_image t) (b * BLOCK_SIZE) n) 0)
          as [Hz|Hnz]; cbn [negb].
        -- split; [exact O|]. apply entries_clean_next; auto.
           intros X. now elim X.
        -- rewrite get_block_pointer by lia.
           set (v := entry_get (fs_image t) (b * BLOCK_SIZE) n) in *.
           pose proof (bad_walk_only_zeroes true top i d v t ltac:(lia) Lt)
             as O'.
           assert (E : entry_get
                         (fs_image (bad_walk d true top i (v * BLOCK_SIZE) t))
                         (b * BLOCK_SIZE) n = v).
           { unfold entry_get.
             apply (only_bad_zeroed_keeps _ _ _ O' (entry_aligned b n)).
             exact Hok. }
           split; [eapply only_bad_zeroed_trans; eauto|].
           apply entries_clean_next.
           ++ eapply entries_clean_stable; eauto.
           ++ rewrite E. exact Hok.
           ++ rewrite E. intros _. apply (IH d eq_refl); [lia|exact Lt].
Qed.

(** In repair mode a walk leaves its block, and every block below it,
    without a bad block number. *)
Lemma bad_walk_cleans top i :
  forall depth b s,
    0 <= b < TOTAL_BLOCKS -> image_len (fs_image s) = IMAGE_SIZE ->
    graph_clean depth
      (fs_image (bad_walk depth true top i (b * BLOCK_SIZE) s)) b.
Proof.
  induction depth as [|d IH]; apply bad_walk_cleans_step.
  - intros d E. discriminate E.
  - intros d' E. injection E as <-. exact IH.
Qed.

(** In repair mode the check of one pointer slot leaves the slot, and the
    blocks below it, without a bad block number. *)
Lemma bad_top_cleans i f walk s :
  0 <= i < INODE_COUNT -> image_len (fs_image s) = IMAGE_SIZE ->
  slot_clean (fs_image (bad_top true i f walk s)) i f walk.
Proof.
  intros Hi Hl. unfold bad_top. cbv zeta.
  destruct (inode_in_image i f Hi) as [I0 I1].
  pose proof (load32_range (fs_image s) (inode_off i f)) as R.
  fold (inode_get (fs_image s) i f) in R.
  destruct (Z.geb_spec (inode_get (fs_image s) i f) TOTAL_BLOCKS) as [Hbad|Hok].
  - cbn [fs_image printf with_image with_valid].
    assert (Z0 : inode_get (inode_set (fs_image s) i f 0) i f = 0).
    { unfold inode_get, inode_set. apply load32_store32_same;
        [lia|rewrite Hl; lia|change (2^32) with 4294967296; lia]. }
    unfold slot_clean. rewrite Z0. split; [layout; lia|].
    destruct walk; [intros X; now elim X|exact I].
  - destruct walk as [depth|]; [|split; [exact Hok|exact I]].
    destruct (Z.eqb_spec (inode_get (fs_image s) i f) 0) as [Hz|Hnz];
      cbn [negb].
    + split; [exact Hok|]. intros X. now elim X.
    + rewrite get_block_pointer by lia.
      set (p := inode_get (fs_image s) i f) in *.
      pose proof (bad_walk_only_zeroes true f i depth p s ltac:(lia) Hl) as O.
      assert (E : inode_get
                    (fs_image (bad_walk depth true f i (p * BLOCK_SIZE) s)) i f
                  = p).
      { unfold inode_get.
        apply (only_bad_zeroed_keeps _ _ _ O (inode_aligned i f)). exact Hok. }
      unfold slot_clean. rewrite E. split; [exact Hok|]. intros _.
      apply bad_walk_cleans; [lia|exact Hl].
Qed.

Lemma bad_inode_cleans i s :
  0 <= i < INODE_COUNT -> image_len (fs_image s) = IMAGE_SIZE ->
  is_inode_valid (fs_image s) i = true ->
  inode_clean (fs_image (bad_inode true i s)) i.
Proof.
  intros Hi Hl V. unfold bad_inode. rewrite V. cbn [negb].
  set (s1 := bad_top true i i_direct_block None s).
  set (s2 := bad_top true i i_single_indirect (Some 0%nat) s1).
  set (s3 := bad_top true i i_double_indirect (Some 1%nat) s2).
  set (s4 := bad_top true i i_triple_indirect (Some 2%nat) s3).
  pose proof (bad_top_only_zeroes true i i_direct_block None s Hi Hl) as O1.
  fold s1 in O1.
  assert (L1 : image_len (fs_image s1) = IMAGE_SIZE)
    by (rewrite (proj1 O1); exact Hl).
  pose proof (bad_top_only_zeroes true i i_single_indirect (Some 0%nat) s1 Hi L1)
    as O2. fold s2 in O2.
  assert (L2 : image_len (fs_image s2) = IMAGE_SIZE)
    by (rewrite (proj1 O2); exact L1).
  pose proof (bad_top_only_zeroes true i i_double_indirect (Some 1%nat) s2 Hi L2)
    as O3. fold s3 in O3.
  assert (L3 : image_len (fs_image s3) = IMAGE_SIZE)
    by (rewrite (proj1 O3); exact L2).
  pose proof (bad_top_only_zeroes true i i_triple_indirect (Some 2%nat) s3 Hi L3)
    as O4. fold s4 in O4.
  pose proof (bad_top_cleans i i_direct_block None s Hi Hl) as C1. fold s1 in C1.
  pose proof (bad_top_cleans i i_single_indirect (Some 0%nat) s1 Hi L1) as C2.
  fold s2 in C2.
  pose proof (bad_top_cleans i i_double_indirect (Some 1%nat) s2 Hi L2) as C3.
  fold s3 in C3.
  pose proof (bad_top_cleans i i_triple_indirect (Some 2%nat) s3 Hi L3) as C4.
  fold s4 in C4.
  unfold inode_clean. split; [|split; [|split]].
  - eapply slot_clean_stable; [exact O4|].
    eapply slot_clean_stable; [exact O3|].
    eapply slot_clean_stable; [exact O2|exact C1].
  - eapply slot_clean_stable; [exact O4|].
    eapply slot_clean_stable; [exact O3|exact C2].
  - eapply slot_clean_stable; [exact O4|exact C3].
  - exact C4.
Qed.

Lemma inode_clean_stable a b i :
  only_bad_zeroed a b -> inode_clean a i -> inode_clean b i.
Proof.
  intros O (C1 & C2 & C3 & C4).
  split; [|split; [|split]]; eapply slot_clean_stable; eauto.
Qed.

(** An inode that was live, and is live after words have been zeroed, was
    live all along. *)
Lemma live_before a b i :
  only_bad_zeroed a b ->
  inode_get a i i_dtime = 0 ->
  is_inode_valid b i = true ->
  is_inode_valid a i = true /\ inode_get b i i_dtime = 0.
Proof.
  intros [_ W] D V. unfold is_inode_valid, inode_get in *.
  apply andb_true_iff in V. destruct V as [V1 V2].
  apply Z.ltb_lt in V1. apply Z.eqb_eq in V2.
  split; [|exact V2]. apply andb_true_iff. split; [|now apply Z.eqb_eq].
  apply Z.ltb_lt.
  destruct (W _ (inode_aligned i i_links_count)) as [E|[_ Z0]]; lia.
Qed.

Lemma dtime_stays_zero a b i :
  only_bad_zeroed a b -> inode_get a i i_dtime = 0 -> inode_get b i i_dtime = 0.
Proof.
  intros O D. unfold inode_get in *.
  rewrite (only_bad_zeroed_keeps a b _ O (inode_aligned i i_dtime));
    [exact D|rewrite D; layout; lia].
Qed.

(** The pass in repair mode: afterwards no inode that was live before and
    is live after holds a bad block number in a pointer slot or anywhere
    below its indirect slots. *)
Lemma check_bad_blocks_cleans s :
  image_len (fs_image s) = IMAGE_SIZE ->
  forall i, 0 <= i < INODE_COUNT ->
    is_inode_valid (fs_image s) i = true ->
    is_inode_valid (fs_image (check_bad_blocks true s)) i = true ->
    inode_clean (fs_image (check_bad_blocks true s)) i.
Proof.
  intros Hl. unfold check_bad_blocks. cbv zeta.
  set (s0 := with_valid (printf (MHeader PBadBlock) s) true).
  change (fs_image s) with (fs_image s0) in *.
  enough (P : only_bad_zeroed (fs_image s0)
                (fs_image (for_loop INODE_COUNT (bad_inode true) s0))
              /\ forall i, 0 <= i < INODE_COUNT ->
                   is_inode_valid (fs_image s0) i = true ->
                   is_inode_valid
                     (fs_image (for_loop INODE_COUNT (bad_inode true) s0)) i
                   = true ->
                   inode_clean
                     (fs_image (for_loop INODE_COUNT (bad_inode true) s0)) i)
    by apply P.
  apply (for_loop_ind_idx
           (fun n t => only_bad_zeroed (fs_image s0) (fs_image t)
                       /\ forall i, 0 <= i < n ->
                            is_inode_valid (fs_image s0) i = true ->
                            is_inode_valid (fs_image t) i = true ->
                            inode_clean (fs_image t) i)).
  - layout. lia.
  - split; [apply only_bad_zeroed_refl|intros; lia].
  - intros n t Hn [O C].
    assert (Lt : image_len (fs_image t) = IMAGE_SIZE)
      by (rewrite (proj1 O); exact Hl).
    pose proof (bad_inode_only_zeroes true n t Hn Lt) as O'.
    split; [eapply only_bad_zeroed_trans; eauto|].
    intros i Hi V0 V'.
    assert (D0 : inode_get (fs_image s0) i i_dtime = 0).
    { unfold is_inode_valid in V0. apply andb_true_iff in V0.
      now apply Z.eqb_eq. }
    pose proof (dtime_stays_zero _ _ i O D0) as Dt.
    destruct (live_before _ _ i O' Dt V') as [Vt _].
    destruct (Z.eq_dec i n) as [->|Hne].
    + now apply bad_inode_cleans.
    + eapply inode_clean_stable; [exact O'|]. apply C; [lia|exact V0|exact Vt].
Qed.

(** *** What the pass reports about the pointer slots *)

Lemma in_snoc {A : Type} (x m : A) (l : list A) :
  In x (l ++ [m]) <-> In x l \/ x = m.
Proof.
  rewrite in_app_iff. cbn. intuition congruence.
Qed.

Lemma in_printf_other (x m : msg) (s : state) :
  x <> m -> (In x (stdout (printf m s)) <-> In x (stdout s)).
Proof.
  intros H. cbn [stdout printf]. rewrite in_snoc. intuition congruence.
Qed.

(** The walks report entries of indirect blocks, never a slot of an
    inode. *)
Lemma bad_walk_top_reports do_fix top i0 f i p :
  forall depth base s,
    In (MBadTop f i p) (stdout (bad_walk depth do_fix top i0 base s))
    <-> In (MBadTop f i p) (stdout s).
Proof.
  induction depth as [|d IH]; intros base s; rewrite bad_walk_eq;
    apply (for_loop_ind
             (fun t => In (MBadTop f i p) (stdout t)
                       <-> In (MBadTop f i p) (stdout s)));
    try reflexivity; intros j t _ Ht; cbv zeta;
    (destruct (entry_get (fs_image t) base j >=? TOTAL_BLOCKS);
     [destruct do_fix; cbn [stdout printf with_image with_valid];
      rewrite ?in_snoc; rewrite Ht; intuition discriminate|]).
  - exact Ht.
  - destruct (entry_get (fs_image t) base j =? 0); cbn [negb]; [exact Ht|].
    destruct (get_block _); [|exact Ht]. now rewrite IH.
Qed.

Lemma bad_top_reports i f walk s f' i' p' :
  In (MBadTop f' i' p') (stdout (bad_top false i f walk s))
  <-> In (MBadTop f' i' p') (stdout s)
      \/ (f' = f /\ i' = i /\ p' = inode_get (fs_image s) i f
          /\ TOTAL_BLOCKS <= p').
Proof.
  unfold bad_top. cbv zeta.
  destruct (Z.geb_spec (inode_get (fs_image s) i f) TOTAL_BLOCKS) as [Hbad|Hok].
  - cbn [stdout printf with_valid]. rewrite in_snoc. split.
    + intros [H|H]; [now left|]. injection H as -> -> ->. right. auto.
    + intros [H|(-> & -> & -> & _)]; [now left|now right].
  - assert (N : In (MBadTop f' i' p') (stdout s)
                \/ f' = f /\ i' = i /\ p' = inode_get (fs_image s) i f
                   /\ TOTAL_BLOCKS <= p'
                <-> In (MBadTop f' i' p') (stdout s))
      by (split; [intros [H|(_ & _ & -> & H)]; [exact H|lia]|now left]).
    rewrite N.
    destruct walk as [depth|]; [|reflexivity].
    destruct (inode_get (fs_image s) i f =? 0); cbn [negb]; [reflexivity|].
    destruct (get_block _); [|reflexivity]. apply bad_walk_top_reports.
Qed.

Lemma bad_top_check_image i f walk s :
  fs_image (bad_top false i f walk s) = fs_image s.
Proof. apply (q_check _ _ _ (quiet_bad_top false i f walk s) eq_refl). Qed.

Lemma bad_inode_reports i s f' i' p' :
  In (MBadTop f' i' p') (stdout (bad_inode false i s))
  <-> In (MBadTop f' i' p') (stdout s)
      \/ (i' = i /\ is_inode_valid (fs_image s) i = true
          /\ In f' pointer_slots /\ inode_get (fs_image s) i f' = p'
          /\ TOTAL_BLOCKS <= p').
Proof.
  unfold bad_inode.
  destruct (is_inode_valid (fs_image s) i); cbn [negb].
  2:{ split; [now left|]. intros [H|(_ & H & _)]; [exact H|discriminate]. }
  rewrite !bad_top_reports, !bad_top_check_image.
  unfold pointer_slots. cbn [In]. split.
  - intros [[[[H|H]|H]|H]|H]; [now left| | | |];
      destruct H as (-> & -> & -> & H); right; intuition.
  - intros [H|(-> & _ & Hf & <- & H)]; [tauto|].
    destruct Hf as [<-|[<-|[<-|[<-|[]]]]]; tauto.
Qed.

Lemma bad_inode_check_image i s : fs_image (bad_inode false i s) = fs_image s.
Proof. apply (q_check _ _ _ (quiet_bad_inode false i s) eq_refl). Qed.

(** In check-only mode the pass reports slot [f] of inode [i] with value
    [p] exactly when inode [i] is live, the slot holds [p], and [p] is at
    least [TOTAL_BLOCKS]. *)
Lemma check_bad_blocks_reports s f i p :
  In (MBadTop f i p) (stdout (check_bad_blocks false s))
  <-> In (MBadTop f i p) (stdout s)
      \/ (0 <= i < INODE_COUNT /\ is_inode_valid (fs_image s) i = true
          /\ In f pointer_slots /\ inode_get (fs_image s) i f = p
          /\ TOTAL_BLOCKS <= p).
Proof.
  unfold check_bad_blocks. cbv zeta.
  set (s0 := with_valid (printf (MHeader PBadBlock) s) true).
  enough (P : fs_image (for_loop INODE_COUNT (bad_inode false) s0) = fs_image s
              /\ (In (MBadTop f i p)
                    (stdout (for_loop INODE_COUNT (bad_inode false) s0))
                  <-> In (MBadTop f i p) (stdout s)
                      \/ (0 <= i < INODE_COUNT
                          /\ is_inode_valid (fs_image s) i = true
                          /\ In f pointer_slots
                          /\ inode_get (fs_image s) i f = p
                          /\ TOTAL_BLOCKS <= p)))
    by apply P.
  apply (for_loop_ind_idx
           (fun n t => fs_image t = fs_image s
                       /\ (In (MBadTop f i p) (stdout t)
                           <-> In (MBadTop f i p) (stdout s)
                               \/ (0 <= i < n
                                   /\ is_inode_valid (fs_image s) i = true
                                   /\ In f pointer_slots
                                   /\ inode_get (fs_image s) i f = p
                                   /\ TOTAL_BLOCKS <= p)))).
  - layout. lia.
  - split; [reflexivity|]. unfold s0. cbn [stdout printf with_valid].
    rewrite in_snoc. split.
    + intros [H|H]; [now left|discriminate].
    + intros [H|(H & _)]; [now left|lia].
  - intros n t Hn [It R]. split; [now rewrite bad_inode_check_image|].
    rewrite bad_inode_reports, R, It. split.
    + intros [[H|(H & R')]|(-> & R')]; [now left| |];
        right; (split; [lia|tauto]).
    + intros [H|(H & R')]; [tauto|].
      destruct (Z.eq_dec i n) as [->|Hne]; [tauto|].
      left. right. split; [lia|tauto].
Qed.

(** ** Claims about the orchestrator *)

(** C2, as stated, does not hold: the claim puts the inode-bitmap pass
    before the data-bitmap pass, while a run that gets past start-up prints
    the banners in another order. *)
Lemma C2_spec_order_refuted :
  ~ (forall e : env,
       startup_failure e = false ->
       take 5 (passes_run (std_out (main e))) = spec_order).
Proof.
  intros H. specialize (H (env_for check_args blank_image)).
  assert (S : startup_failure (env_for check_args blank_image) = false)
    by (vm_compute; reflexivity).
  specialize (H S). rewrite (main_banners _ S) in H.
  revert H. generalize (if rerun (env_for check_args blank_image)
                        then code_order else []).
  intros l H. cbn in H. discriminate H.
Qed.

(** C2, amended: [main] calls the passes in the order superblock, data
    bitmap, inode bitmap, duplicate blocks, bad blocks (and once more in
    that order when a repair run found something); each pass receives the
    state its predecessor returned, and the buffer at the end of the run is
    the one the fifth pass of the first round left. *)
Theorem C2_pass_order (e : env) :
  startup_failure e = false ->
  passes_run (std_out (main e))
  = code_order ++ (if rerun e then code_order else [])
  /\ (let do_fix := fix_requested e in
      let s1 := validate_superblock do_fix (boot_state e) in
      let s2 := validate_data_bitmap do_fix (calloc_ok e 1%nat) s1 in
      let s3 := validate_inode_bitmap do_fix s2 in
      let s4 := check_duplicate_blocks do_fix (calloc_ok e 2%nat) s3 in
      let s5 := check_bad_blocks do_fix s4 in
      final_buffer (main e) = Some (fs_image s5)
      /\ snd (first_round e)
         = mkVerdicts (isValid s1) (isValid s2) (isValid s3) (isValid s4)
             (isValid s5)).
Proof.
  intros H. split; [apply (main_banners e H)|].
  cbv zeta. split; [|reflexivity].
  rewrite (main_final_buffer e H). reflexivity.
Qed.

Lemma C2_pass_order_witness :
  startup_failure (env_for check_args blank_image) = false
  /\ passes_run (std_out (main (env_for check_args blank_image)))
     = code_order
       ++ (if rerun (env_for check_args blank_image) then code_order else []).
Proof.
  split; [vm_compute; reflexivity|].
  apply (C2_pass_order (env_for check_args blank_image)).
  vm_compute; reflexivity.
Defined.

(** C3, as stated, does not hold: a repair run on the consistent image of
    scenario S1 does not write the file at all. *)
Lemma C3_always_written_refuted :
  ~ (forall e : env,
       startup_failure e = false -> fix_requested e = true ->
       write_count (sys_calls (main e)) = 1%nat).
Proof.
  intros H.
  assert (S : startup_failure (env_for fix_args clean_image) = false)
    by (vm_compute; reflexivity).
  assert (F : fix_requested (env_for fix_args clean_image) = true)
    by (vm_compute; reflexivity).
  assert (W : write_count (sys_calls (main (env_for fix_args clean_image)))
              = 0%nat)
    by (vm_compute; reflexivity).
  specialize (H _ S F). rewrite W in H. discriminate H.
Qed.

(** C3, amended: the image file is written exactly when start-up succeeded,
    repair was requested and the first round of passes reported a
    violation; it is then written once, as the last call before the file
    is closed.  In every other run, and so in every check-only run, the
    file keeps its content. *)
Theorem C3_write_back (e : env) :
  let written := negb (startup_failure e) && rerun e in
  write_count (sys_calls (main e)) = (if written then 1%nat else 0%nat)
  /\ written && negb (fix_requested e) = false
  /\ (if written
      then exists before,
             sys_calls (main e)
             = before ++ [SysFwrite (fwrite_count e); SysFclose]
             /\ write_count before = 0%nat
      else file_after (main e) = file_content e).
Proof.
  cbv zeta. destruct (startup_failure e) eqn:S; cbn [negb andb].
  - destruct (main_not_started e S) as (_ & _ & F & _ & W). auto.
  - rewrite (main_started e S). cbv zeta. unfold rerun.
    destruct (fix_requested e); cbn [andb negb];
      [destruct (negb (fs_valid (snd (first_round e))))|];
      cbn [sys_calls file_after].
    + split; [reflexivity|]. split; [reflexivity|].
      exists [SysFopen true; SysMalloc true; SysFread true; SysCalloc true;
              SysCalloc (calloc_ok e 1%nat); SysCalloc (calloc_ok e 2%nat);
              SysCalloc (calloc_ok e 3%nat); SysCalloc (calloc_ok e 4%nat)].
      split; reflexivity.
    + repeat split; reflexivity.
    + repeat split; reflexivity.
Qed.

(** C4, as stated, does not hold: when the allocation of [block_used]
    fails inside the data-bitmap pass the run reports an allocation failure
    and still exits with 0. *)
Lemma C4_exit_code_refuted :
  ~ (forall e : env,
       exit_code (main e) = 1 <-> failure_observed (main e) = true).
Proof.
  intros H. destruct (H env_pass_alloc_fails) as [_ H1].
  assert (F : failure_observed (main env_pass_alloc_fails) = true)
    by (vm_compute; reflexivity).
  assert (E : exit_code (main env_pass_alloc_fails) = 0)
    by (vm_compute; reflexivity).
  specialize (H1 F). rewrite E in H1. discriminate H1.
Qed.

(** C4, amended: in a run whose write-back does not fail, the exit code is
    0 exactly when the five passes have run, whatever they found, and 1
    exactly when start-up failed: a usage error, a failure to open or read
    the image, an image-size mismatch, or a failure to allocate the buffer
    or the reference table in [main].  An allocation failure inside a pass
    is not among the causes of exit code 1. *)
Theorem C4_exit_code (e : env) :
  existsb write_failed (sys_calls (main e)) = false ->
  (exit_code (main e) = 0 <->
     take 5 (passes_run (std_out (main e))) = code_order)
  /\ (exit_code (main e) = 1 <-> startup_failure e = true).
Proof.
  intros _. destruct (startup_failure e) eqn:S.
  - destruct (main_not_started e S) as (E & O & _). rewrite E, O. cbn.
    repeat split; intros; try reflexivity; discriminate.
  - rewrite (main_banners e S).
    assert (E : exit_code (main e) = 0).
    { rewrite (main_started e S). cbv zeta. now destruct (rerun e). }
    rewrite E. generalize (if rerun e then code_order else []). intros l.
    repeat split; intros; try reflexivity; try discriminate.
Qed.

Lemma C4_exit_code_witness :
  existsb write_failed (sys_calls (main (env_for fix_args short_image))) = false
  /\ (exit_code (main (env_for fix_args short_image)) = 1 <->
        startup_failure (env_for fix_args short_image) = true).
Proof.
  split; [vm_compute; reflexivity|].
  apply (C4_exit_code (env_for fix_args short_image)).
  vm_compute; reflexivity.
Defined.

(** C9: a repair run on an image that is already consistent reports no
    finding and changes no byte, neither of the buffer nor of the file.
    The passes are not run a second time and the file is not written,
    unless an allocation inside a pass failed; even then the bytes written
    are the bytes read. *)
Theorem C9_consistent_untouched (e : env) :
  startup_failure e = false ->
  fix_requested e = true ->
  consistent (file_content e) = true ->
  findings (std_out (main e)) = []
  /\ final_buffer (main e) = Some (file_content e)
  /\ file_after (main e) = file_content e
  /\ rerun e = negb (calloc_ok e 1%nat && calloc_ok e 2%nat).
Proof.
  intros S F C.
  pose proof (run_passes_consistent (file_content e) (fix_requested e)
                (calloc_ok e 1%nat) (calloc_ok e 2%nat) (boot_state e) C eq_refl)
    as (I1 & F1 & V1).
  fold (first_round e) in I1, F1, V1.
  assert (R : rerun e = negb (calloc_ok e 1%nat && calloc_ok e 2%nat)).
  { unfold rerun. rewrite V1, F. reflexivity. }
  rewrite (main_final_buffer e S), I1.
  rewrite (main_started e S). cbv zeta.
  pose proof (run_passes_consistent (file_content e) false
                (calloc_ok e 3%nat) (calloc_ok e 4%nat)
                (printf MRecheckHeader
                   (print_summary false (snd (first_round e))
                      (fst (first_round e)))) C) as (I2 & F2 & _).
  { rewrite fs_image_printf, print_summary_image. exact I1. }
  fold (second_round e) in I2, F2.
  revert I1 F1 I2 F2.
  generalize (second_round e). generalize (first_round e).
  intros [s1 v1] [s2 v2]. cbn [fst snd]. intros I1 F1 I2 F2.
  cbn [stdout printf] in F2. rewrite findings_snoc in F2. cbn [is_finding] in F2.
  rewrite app_nil_r, print_summary_findings, F1 in F2.
  destruct (rerun e); cbn [std_out file_after].
  - split; [|split; [reflexivity|split; [|exact R]]].
    + destruct (negb (fs_valid v2)); cbn [stdout printf];
        rewrite ?findings_snoc, ?app_nil_r; cbn [is_finding];
        rewrite ?app_nil_r, print_summary_findings; exact F2.
    + assert (B : fs_image (if negb (fs_valid v2)
                            then printf MWarning (print_summary true v2 s2)
                            else print_summary true v2 s2)
                  = file_content e).
      { destruct (negb (fs_valid v2));
          rewrite ?fs_image_printf, print_summary_image; exact I2. }
      rewrite B. unfold fwrite. apply take_drop.
  - split; [|split; [reflexivity|split; [reflexivity|exact R]]].
    rewrite print_summary_findings. exact F1.
Qed.

Lemma C9_consistent_untouched_witness :
  startup_failure (env_for fix_args clean_image) = false
  /\ fix_requested (env_for fix_args clean_image) = true
  /\ consistent (file_content (env_for fix_args clean_image)) = true
  /\ findings (std_out (main (env_for fix_args clean_image))) = []
  /\ final_buffer (main (env_for fix_args clean_image))
     = Some (file_content (env_for fix_args clean_image))
  /\ file_after (main (env_for fix_args clean_image))
     = file_content (env_for fix_args clean_image)
  /\ rerun (env_for fix_args clean_image)
     = negb (calloc_ok (env_for fix_args clean_image) 1%nat
             && calloc_ok (env_for fix_args clean_image) 2%nat).
Proof.
  assert (S : startup_failure (env_for fix_args clean_image) = false)
    by (vm_compute; reflexivity).
  assert (F : fix_requested (env_for fix_args clean_image) = true)
    by (vm_compute; reflexivity).
  assert (C : consistent (file_content (env_for fix_args clean_image)) = true)
    by (vm_compute; reflexivity).
  exact (conj S (conj F (conj C
           (C9_consistent_untouched (env_for fix_args clean_image) S F C)))).
Defined.

(** ** Claims about the bitmap passes *)

(** C5: the data-bitmap pass computes [block_used] from the four pointer
    slots of the live inodes alone: [block_used[b - 8]] is set exactly when
    such a slot holds a block [b] of the data region, and any image with
    the same liveness fields and pointer slots, whatever its indirect
    blocks contain, yields the same array.  In repair mode every one of the
    56 bits of the data bitmap then agrees with [block_used], also when
    [block_used] is computed again from the repaired image, and no byte
    outside those bits is written. *)
Theorem C5_data_bitmap_reconciled (s : state) :
  image_len (fs_image s) = IMAGE_SIZE ->
  let img := fs_image s in
  let block_used := collect_block_used img in
  let img' := fs_image (validate_data_bitmap true true s) in
  (forall b, DATA_BLOCK_START_NUM <= b < TOTAL_BLOCKS ->
     (used_at block_used (b - DATA_BLOCK_START_NUM) = true <->
        top_level_pointer img INODE_COUNT b))
  /\ (forall other,
        (forall i f, 0 <= i < INODE_COUNT ->
                     In f (i_links_count :: i_dtime :: pointer_slots) ->
                     inode_get other i f = inode_get img i f) ->
        collect_block_used other = block_used)
  /\ (forall k, 0 <= k < DATA_BLOCKS_COUNT ->
        is_bit_set img' data_bitmap k = used_at block_used k)
  /\ collect_block_used img' = block_used
  /\ (forall off, ~ (data_bitmap <= off < data_bitmap + 7) ->
        byte_at img' off = byte_at img off).
Proof.
  intros Hl. cbv zeta.
  destruct (validate_data_bitmap_fix s Hl) as (L & Bits & _ & Frame).
  split; [|split; [|split; [|split]]].
  - intros b Hb.
    rewrite collect_block_used_spec by (layout; lia).
    replace (b - DATA_BLOCK_START_NUM + DATA_BLOCK_START_NUM) with b by lia.
    reflexivity.
  - intros other H. now apply collect_block_used_ext.
  - exact Bits.
  - apply collect_block_used_ext. intros i f Hi _.
    apply inode_get_ext; [lia|]. intros off Ho. apply Frame.
    layout. change ((56 + 7) / 8) with 7. lia.
  - intros off Ho. apply Frame. layout. change ((56 + 7) / 8) with 7. lia.
Qed.

Lemma C5_data_bitmap_reconciled_witness :
  image_len (fs_image (pristine stale_image)) = IMAGE_SIZE
  /\ forall k, 0 <= k < DATA_BLOCKS_COUNT ->
       is_bit_set (fs_image (validate_data_bitmap true true (pristine stale_image)))
         data_bitmap k
       = used_at (collect_block_used (fs_image (pristine stale_image))) k.
Proof.
  assert (H : image_len (fs_image (pristine stale_image)) = IMAGE_SIZE)
    by (vm_compute; reflexivity).
  split; [exact H|].
  exact (proj1 (proj2 (proj2 (C5_data_bitmap_reconciled (pristine stale_image) H)))).
Defined.

(** C6, as stated, does not hold.  On [self_scan_image] the repair run
    completes and writes the file, yet in the result bit 0 of the inode
    bitmap is set while inode 0 is not live: the bad-block pass, walking
    block 3 as an indirect block, has zeroed the link count that the
    inode-bitmap pass had read as 100. *)
Lemma C6_bitmap_invariant_refuted :
  ~ (forall e : env,
       startup_failure e = false -> fix_requested e = true ->
       forall i, 0 <= i < INODE_COUNT ->
         is_bit_set (file_after (main e)) inode_bitmap i
         = is_inode_valid (file_after (main e)) i)
  /\ inode_get self_scan_image 0 i_links_count = 100
  /\ inode_get (file_after (main (env_for fix_args self_scan_image))) 0
       i_links_count = 0.
Proof.
  assert (S : startup_failure (env_for fix_args self_scan_image) = false)
    by (vm_compute; reflexivity).
  assert (F : fix_requested (env_for fix_args self_scan_image) = true)
    by (vm_compute; reflexivity).
  assert (R : inode0_summary
                 (file_after (main (env_for fix_args self_scan_image)))
               = (true, false, 0))
    by (vm_compute; reflexivity).
  unfold inode0_summary in R. apply triple_inj in R. destruct R as (R1 & R2 & R3).
  split; [|split; [vm_compute; reflexivity|exact R3]].
  intros H. specialize (H _ S F 0 ltac:(unfold INODE_COUNT; lia)).
  rewrite R1, R2 in H. discriminate H.
Qed.

(** The inode-bitmap pass in repair mode, from any state whose buffer has
    the size of an image. *)
Lemma validate_inode_bitmap_reconciles s :
  image_len (fs_image s) = IMAGE_SIZE ->
  (forall i, 0 <= i < INODE_COUNT ->
     is_bit_set (fs_image (validate_inode_bitmap true s)) inode_bitmap i
     = is_inode_valid (fs_image (validate_inode_bitmap true s)) i)
  /\ (forall i f, 0 <= i ->
        inode_get (fs_image (validate_inode_bitmap true s)) i f
        = inode_get (fs_image s) i f).
Proof.
  intros Hl. destruct (validate_inode_bitmap_fix s Hl) as (L & Bits & _ & Frame).
  assert (T : forall off, inode_table <= off ->
              byte_at (fs_image (validate_inode_bitmap true s)) off
              = byte_at (fs_image s) off).
  { intros off Ho. apply Frame. layout. change ((80 + 7) / 8) with 10. lia. }
  split.
  - intros i Hi. rewrite (Bits i Hi). symmetry.
    apply is_inode_valid_ext; [lia|exact T].
  - intros i f Hi. now apply inode_get_ext.
Qed.

Lemma startup_image_len (e : env) :
  startup_failure e = false -> image_len (file_content e) = IMAGE_SIZE.
Proof.
  unfold startup_failure, size_mismatch. intros H.
  repeat (apply orb_false_elim in H; destruct H as [H ?]).
  match goal with
  | Hs : negb (_ =? _) = false |- _ =>
      apply negb_false_iff, Z.eqb_eq in Hs; exact Hs
  end.
Qed.

(** C6, amended: in a repair run, when the inode-bitmap pass returns, bit
    [i] of the inode bitmap is set if and only if inode [i] is live, for
    every [i] in [0, 80), and the pass itself has changed no field of any
    inode.  The two later passes can write into the inode table and the
    bitmap through block pointers that name those blocks; at the end of the
    run the equivalence holds whenever the last inode-bitmap check of the
    run (the re-audit's, or the first round's when it found nothing)
    returned [true]. *)
Theorem C6_inode_bitmap_invariant (e : env) :
  startup_failure e = false ->
  fix_requested e = true ->
  (forall i, 0 <= i < INODE_COUNT ->
     is_bit_set (fs_image (after_inode_bitmap e)) inode_bitmap i
     = is_inode_valid (fs_image (after_inode_bitmap e)) i)
  /\ (forall i f, 0 <= i ->
        inode_get (fs_image (after_inode_bitmap e)) i f
        = inode_get (fs_image (after_data_bitmap e)) i f)
  /\ (inode_bitmap_valid (last_verdicts e) = true ->
      forall buf, final_buffer (main e) = Some buf ->
      forall i, 0 <= i < INODE_COUNT ->
        is_bit_set buf inode_bitmap i = is_inode_valid buf i).
Proof.
  intros S F.
  assert (L2 : image_len (fs_image (after_data_bitmap e)) = IMAGE_SIZE)
    by (rewrite after_data_bitmap_len; apply (startup_image_len e S)).
  assert (BI : (forall i, 0 <= i < INODE_COUNT ->
                  is_bit_set (fs_image (after_inode_bitmap e)) inode_bitmap i
                  = is_inode_valid (fs_image (after_inode_bitmap e)) i)
               /\ (forall i f, 0 <= i ->
                     inode_get (fs_image (after_inode_bitmap e)) i f
                     = inode_get (fs_image (after_data_bitmap e)) i f)).
  { unfold after_inode_bitmap. rewrite F.
    apply validate_inode_bitmap_reconciles. exact L2. }
  destruct BI as [B I].
  split; [exact B|]. split; [exact I|].
  intros V buf Hbuf i Hi.
  rewrite (main_final_buffer e S) in Hbuf. apply some_inj in Hbuf. subst buf.
  unfold last_verdicts in V. rewrite (rerun_fix e F) in V.
  destruct (fs_valid (snd (first_round e))) eqn:FV.
  - (* nothing was found: the later passes have not written *)
    clear V. rewrite first_round_verdicts, fs_valid_mk in FV.
    rewrite !andb_true_iff in FV. destruct FV as (((_ & _) & V4) & V5).
    rewrite first_round_state.
    assert (I5 : fs_image (after_bad_blocks e) = fs_image (after_duplicates e)).
    { revert V5. unfold after_bad_blocks. intros V5.
      apply (pe_valid _ _ _ _ (check_bad_blocks_effect _ _) V5). }
    assert (I4 : fs_image (after_duplicates e) = fs_image (after_inode_bitmap e)).
    { revert V4. unfold after_duplicates. intros V4.
      apply (pe_valid _ _ _ _ (check_duplicate_blocks_effect _ _ _) V4). }
    rewrite I5, I4. apply B. exact Hi.
  - (* the re-audit checked the bitmap of the final buffer *)
    change (negb false) with true in V. cbv iota in V.
    unfold second_round in V.
    pose proof (check_round_inode_bitmap _ _ _ V i Hi) as K.
    rewrite fs_image_printf, print_summary_image in K.
    unfold inode_bit_ok in K. apply eqb_prop in K. symmetry. exact K.
Qed.

Lemma C6_inode_bitmap_invariant_witness :
  startup_failure (env_for fix_args stale_image) = false
  /\ fix_requested (env_for fix_args stale_image) = true
  /\ inode_bitmap_valid (last_verdicts (env_for fix_args stale_image)) = true
  /\ forall buf,
       final_buffer (main (env_for fix_args stale_image)) = Some buf ->
       forall i, 0 <= i < INODE_COUNT ->
         is_bit_set buf inode_bitmap i = is_inode_valid buf i.
Proof.
  assert (S : startup_failure (env_for fix_args stale_image) = false)
    by (vm_compute; reflexivity).
  assert (F : fix_requested (env_for fix_args stale_image) = true)
    by (vm_compute; reflexivity).
  assert (V : inode_bitmap_valid (last_verdicts (env_for fix_args stale_image))
              = true)
    by (vm_compute; reflexivity).
  split; [exact S|]. split; [exact F|]. split; [exact V|].
  exact (proj2 (proj2 (C6_inode_bitmap_invariant
                         (env_for fix_args stale_image) S F)) V).
Defined.

(** C8, as stated, does not hold: after the repair run on the image of
    scenario S2, byte 128 of the file is what it was. *)
Lemma C8_byte_128_refuted :
  ~ (Z.lxor (load8 (file_after (main (env_for fix_args stale_image))) 128)
       (load8 stale_image 128) = 1
     /\ forall off, off <> 128 ->
          byte_at (file_after (main (env_for fix_args stale_image))) off
          = byte_at stale_image off).
Proof.
  assert (L : image_len clean_image = IMAGE_SIZE) by (vm_compute; reflexivity).
  assert (C : consistent clean_image = true) by (vm_compute; reflexivity).
  assert (V : is_inode_valid clean_image 0 = true) by (vm_compute; reflexivity).
  destruct (stale_bit_repair clean_image L C V) as (_ & A & _).
  assert (B1 : load8 clean_image 128 = 0) by (vm_compute; reflexivity).
  assert (B2 : load8 stale_image 128 = 0) by (vm_compute; reflexivity).
  rewrite B2. unfold stale_image. rewrite A, B1. intros [H _]. discriminate H.
Qed.

(** C8, amended: take any consistent image whose inode 0 is live and clear
    bit 0 of its inode bitmap (scenario S2).  A repair run on the result
    exits with 0, sets the bit again and finds nothing in its re-audit;
    the image it writes differs from its input in exactly one bit, bit 0 of
    byte 4096, the first byte of the inode bitmap in block 1. *)
Theorem C8_stale_bit_repaired (img : image) :
  image_len img = IMAGE_SIZE ->
  consistent img = true ->
  is_inode_valid img 0 = true ->
  let input := clear_bit img inode_bitmap 0 in
  let output := file_after (main (env_for fix_args input)) in
  exit_code (main (env_for fix_args input)) = 0
  /\ fs_valid (snd (second_round (env_for fix_args input))) = true
  /\ is_bit_set input inode_bitmap 0 = false
  /\ is_bit_set output inode_bitmap 0 = true
  /\ (forall off, off <> 4096 -> byte_at output off = byte_at input off)
  /\ (forall k, 0 < k ->
        Z.testbit (load8 output 4096) k = Z.testbit (load8 input 4096) k).
Proof.
  intros Hl C V0. cbv zeta.
  destruct (stale_bit_repair img Hl C V0) as (E & A & _ & R & B0).
  cbv zeta in E, A, R. rewrite A.
  assert (In4096 : 0 <= inode_bitmap + 0 / 8 < image_len img)
    by (rewrite Hl; change (0 / 8) with 0; layout; lia).
  split; [exact E|]. split; [exact R|]. split; [|split; [exact B0|split]].
  - rewrite is_bit_set_clear_bit by (try lia; exact In4096). reflexivity.
  - intros off Ho. symmetry. apply byte_at_clear_bit_other; [lia|].
    change (0 / 8) with 0. layout. lia.
  - intros k Hk.
    pose proof (is_bit_set_clear_bit img inode_bitmap 0 k ltac:(lia)
                  ltac:(lia) In4096) as T.
    destruct (Z.ltb_spec k 8) as [Hs|Hb].
    + rewrite !is_bit_set_testbit in T by lia.
      replace (k / 8) with 0 in T by (Z.div_mod_to_equations; lia).
      replace (k mod 8) with k in T by (Z.div_mod_to_equations; lia).
      change (inode_bitmap + 0) with 4096 in T. rewrite T.
      destruct (Z.eqb_spec k 0); [lia|reflexivity].
    + rewrite !testbit_small; auto using load8_range.
Qed.

Lemma C8_stale_bit_repaired_witness :
  image_len clean_image = IMAGE_SIZE
  /\ consistent clean_image = true
  /\ is_inode_valid clean_image 0 = true
  /\ exit_code (main (env_for fix_args (clear_bit clean_image inode_bitmap 0)))
     = 0.
Proof.
  assert (L : image_len clean_image = IMAGE_SIZE) by (vm_compute; reflexivity).
  assert (C : consistent clean_image = true) by (vm_compute; reflexivity).
  assert (V : is_inode_valid clean_image 0 = true) by (vm_compute; reflexivity).
  split; [exact L|]. split; [exact C|]. split; [exact V|].
  exact (proj1 (C8_stale_bit_repaired clean_image L C V)).
Defined.

(** ** Claims about the bad-block pass *)

(** C7: the bad-block pass treats a block number as bad exactly when it is
    at least [TOTAL_BLOCKS].  In check-only mode it writes nothing and
    reports slot [f] of inode [i] exactly when the inode is live and the
    slot holds a number of at least 64; zero and the numbers 1 to 7 are
    never reported.  In repair mode every aligned word of the image is
    either left as it was or held a bad number and now holds zero, so
    numbers below 64 are never touched; and afterwards every inode that was
    live before and is live after has four pointer slots below 64 and
    indirect blocks, at every level, whose entries are all below 64. *)
Theorem C7_bad_block_detector (s : state) :
  image_len (fs_image s) = IMAGE_SIZE ->
  (forall f i p,
     In (MBadTop f i p) (stdout (check_bad_blocks false s))
     <-> In (MBadTop f i p) (stdout s)
         \/ (0 <= i < INODE_COUNT /\ is_inode_valid (fs_image s) i = true
             /\ In f pointer_slots /\ inode_get (fs_image s) i f = p
             /\ TOTAL_BLOCKS <= p))
  /\ fs_image (check_bad_blocks false s) = fs_image s
  /\ only_bad_zeroed (fs_image s) (fs_image (check_bad_blocks true s))
  /\ (forall i, 0 <= i < INODE_COUNT ->
        is_inode_valid (fs_image s) i = true ->
        is_inode_valid (fs_image (check_bad_blocks true s)) i = true ->
        inode_clean (fs_image (check_bad_blocks true s)) i).
Proof.
  intros Hl. split; [|split; [|split]].
  - intros f i p. apply check_bad_blocks_reports.
  - apply (pe_check _ _ _ _ (check_bad_blocks_effect false s) eq_refl).
  - now apply check_bad_blocks_only_zeroes.
  - now apply check_bad_blocks_cleans.
Qed.

Lemma C7_bad_block_detector_witness :
  image_len (fs_image (pristine bad_direct_image)) = IMAGE_SIZE
  /\ only_bad_zeroed (fs_image (pristine bad_direct_image))
       (fs_image (check_bad_blocks true (pristine bad_direct_image))).
Proof.
  assert (H : image_len (fs_image (pristine bad_direct_image)) = IMAGE_SIZE)
    by (vm_compute; reflexivity).
  split; [exact H|].
  exact (proj1 (proj2 (proj2 (C7_bad_block_detector
                                (pristine bad_direct_image) H)))).
Defined.

(** C10: the bad-block pass walks the block named by any indirect pointer
    between 1 and 63, the metadata blocks 1 to 7 included: after the slot
    has been checked in repair mode that block, read as an array of block
    numbers, holds no entry of 64 or more.  On [bitmap_scan_image], whose
    live inode names the data bitmap as its single-indirect block, the
    pass zeroes the first word of the data bitmap. *)
Theorem C10_metadata_walked :
  (forall s i f depth,
     image_len (fs_image s) = IMAGE_SIZE ->
     0 <= i < INODE_COUNT ->
     In (f, depth) indirect_slots ->
     0 < inode_get (fs_image s) i f < TOTAL_BLOCKS ->
     graph_clean depth (fs_image (bad_top true i f (Some depth) s))
       (inode_get (fs_image s) i f))
  /\ inode_get bitmap_scan_image 0 i_single_indirect = DATA_BITMAP_BLOCK_NUM
  /\ load32 bitmap_scan_image data_bitmap = 0xFFFFFFFF
  /\ load32 (fs_image (check_bad_blocks true (pristine bitmap_scan_image)))
       data_bitmap = 0.
Proof.
  split; [|split; [|split]]; [|vm_compute; reflexivity..].
  intros s i f depth Hl Hi _ Hp.
  destruct (bad_top_cleans i f (Some depth) s Hi Hl) as [C G].
  pose proof (bad_top_only_zeroes true i f (Some depth) s Hi Hl) as O.
  assert (E : inode_get (fs_image (bad_top true i f (Some depth) s)) i f
              = inode_get (fs_image s) i f).
  { unfold inode_get.
    apply (only_bad_zeroed_keeps _ _ _ O (inode_aligned i f)).
    unfold inode_get in Hp. lia. }
  rewrite E in G. apply G. lia.
Qed.

(** * Further properties of the helper functions *)

Lemma blank_image_len : image_len blank_image = IMAGE_SIZE.
Proof.
  unfold image_len, blank_image. rewrite length_replicate.
  apply Z2Nat.id. unfold IMAGE_SIZE, TOTAL_BLOCKS, BLOCK_SIZE. lia.
Qed.

(** ** [get_block] *)

(** X1: [get_block] takes an [int].  A [uint32_t] block number handed to
    it yields a block exactly when it is below [TOTAL_BLOCKS]; the numbers
    from [2^31] on, which arrive as negative [int]s, yield NULL like the
    other numbers out of range.  A block that is returned lies inside the
    image with all its [BLOCK_SIZE] bytes. *)
Theorem X1_get_block_of_uint32 (v : Z) :
  0 <= v < 2^32 ->
  get_block (to_int32 v)
  = (if v <? TOTAL_BLOCKS then Some (v * BLOCK_SIZE) else None)
  /\ (forall off, get_block (to_int32 v) = Some off ->
        0 <= off /\ off + BLOCK_SIZE <= IMAGE_SIZE).
Proof.
  intros Hv.
  assert (E : get_block (to_int32 v)
              = (if v <? TOTAL_BLOCKS then Some (v * BLOCK_SIZE) else None)).
  { unfold get_block, to_int32. rewrite (Z.mod_small v) by lia.
    unfold TOTAL_BLOCKS.
    destruct (Z.ltb_spec v (2^31)).
    - destruct (Z.ltb_spec v 0); [lia|].
      destruct (Z.geb_spec v 64), (Z.ltb_spec v 64); try lia; reflexivity.
    - destruct (Z.ltb_spec (v - 2^32) 0); [|lia].
      destruct (Z.ltb_spec v 64); [lia|reflexivity]. }
  split; [exact E|].
  intros off. rewrite E. unfold IMAGE_SIZE, TOTAL_BLOCKS, BLOCK_SIZE.
  destruct (Z.ltb_spec v 64); [|discriminate].
  intros Eq. apply some_inj in Eq. lia.
Qed.

Lemma X1_get_block_of_uint32_witness :
  0 <= 0xFFFFFFFF < 2^32
  /\ get_block (to_int32 0xFFFFFFFF)
     = (if 0xFFFFFFFF <? TOTAL_BLOCKS
        then Some (0xFFFFFFFF * BLOCK_SIZE) else None).
Proof.
  split; [lia|]. apply (X1_get_block_of_uint32 0xFFFFFFFF). lia.
Defined.

(** ** The bitmap operations *)

(** X2: [set_bit] sets bit [bit_num] of the bitmap and nothing else: the
    other bits read as before, every other byte of the buffer is untouched
    and the buffer keeps its length. *)
Theorem X2_set_bit_sets_one_bit (img : image) (bm i : Z) :
  0 <= i -> 0 <= bm + i / 8 < image_len img ->
  image_len (set_bit img bm i) = image_len img
  /\ (forall j, 0 <= j ->
        is_bit_set (set_bit img bm i) bm j = (j =? i) || is_bit_set img bm j)
  /\ (forall off, off <> bm + i / 8 ->
        byte_at (set_bit img bm i) off = byte_at img off).
Proof.
  intros Hi Hr. split; [apply image_len_set_bit|]. split.
  - intros j Hj. now apply is_bit_set_set_bit.
  - intros off Ho. now apply byte_at_set_bit_other.
Qed.

Lemma X2_set_bit_sets_one_bit_witness :
  0 <= 9 /\ 0 <= 0 + 9 / 8 < image_len [x00; xf0]
  /\ forall j, 0 <= j ->
       is_bit_set (set_bit [x00; xf0] 0 9) 0 j
       = (j =? 9) || is_bit_set [x00; xf0] 0 j.
Proof.
  assert (A : 0 <= 9) by lia.
  assert (B : 0 <= 0 + 9 / 8 < image_len [x00; xf0]) by (vm_compute; split; [discriminate|reflexivity]).
  exact (conj A (conj B
           (proj1 (proj2 (X2_set_bit_sets_one_bit [x00; xf0] 0 9 A B))))).
Defined.

(** X3: [clear_bit] clears bit [bit_num] of the bitmap and nothing else. *)
Theorem X3_clear_bit_clears_one_bit (img : image) (bm i : Z) :
  0 <= i -> 0 <= bm + i / 8 < image_len img ->
  image_len (clear_bit img bm i) = image_len img
  /\ (forall j, 0 <= j ->
        is_bit_set (clear_bit img bm i) bm j
        = negb (j =? i) && is_bit_set img bm j)
  /\ (forall off, off <> bm + i / 8 ->
        byte_at (clear_bit img bm i) off = byte_at img off).
Proof.
  intros Hi Hr. split; [apply image_len_clear_bit|]. split.
  - intros j Hj. now apply is_bit_set_clear_bit.
  - intros off Ho. now apply byte_at_clear_bit_other.
Qed.

Lemma X3_clear_bit_clears_one_bit_witness :
  0 <= 12 /\ 0 <= 0 + 12 / 8 < image_len [x00; xf0]
  /\ forall j, 0 <= j ->
       is_bit_set (clear_bit [x00; xf0] 0 12) 0 j
       = negb (j =? 12) && is_bit_set [x00; xf0] 0 j.
Proof.
  assert (A : 0 <= 12) by lia.
  assert (B : 0 <= 0 + 12 / 8 < image_len [x00; xf0]) by (vm_compute; split; [discriminate|reflexivity]).
  exact (conj A (conj B
           (proj1 (proj2 (X3_clear_bit_clears_one_bit [x00; xf0] 0 12 A B))))).
Defined.

(** Two buffers of one length that agree on every bit of a bitmap and on
    every byte other than the one that holds bit [i] are equal. *)
Lemma image_eq_by_bits (a b : image) (bm i : Z) :
  0 <= i -> image_len a = image_len b ->
  (forall off, off <> bm + i / 8 -> byte_at a off = byte_at b off) ->
  (forall j, 0 <= j -> is_bit_set a bm j = is_bit_set b bm j) ->
  a = b.
Proof.
  intros Hi Hl Hother Hbits. apply image_ext; [exact Hl|].
  intros off _. destruct (Z.eq_dec off (bm + i / 8)) as [->|N]; [|auto].
  apply byte_eq_of_bits. intros k Hk.
  assert (Q : (8 * (i / 8) + k) / 8 = i / 8)
    by (Z.div_mod_to_equations; lia).
  assert (R : (8 * (i / 8) + k) mod 8 = k)
    by (Z.div_mod_to_equations; lia).
  assert (P : 0 <= 8 * (i / 8) + k) by (Z.div_mod_to_equations; lia).
  pose proof (Hbits _ P) as H.
  rewrite !is_bit_set_testbit in H by exact P.
  rewrite Q, R in H. exact H.
Qed.

(** X4: the two operations undo each other and are idempotent.  Clearing
    a bit that [set_bit] has just set gives back the buffer in which the bit
    was clear, setting a bit that [clear_bit] has just cleared gives back
    the buffer in which it was set, and a second [set_bit] or [clear_bit]
    of the same bit changes nothing. *)
Theorem X4_set_clear_round_trip (img : image) (bm i : Z) :
  0 <= i -> 0 <= bm + i / 8 < image_len img ->
  (is_bit_set img bm i = false -> clear_bit (set_bit img bm i) bm i = img)
  /\ (is_bit_set img bm i = true -> set_bit (clear_bit img bm i) bm i = img)
  /\ set_bit (set_bit img bm i) bm i = set_bit img bm i
  /\ clear_bit (clear_bit img bm i) bm i = clear_bit img bm i.
Proof.
  intros Hi Hr.
  assert (Rs : 0 <= bm + i / 8 < image_len (set_bit img bm i))
    by now rewrite image_len_set_bit.
  assert (Rc : 0 <= bm + i / 8 < image_len (clear_bit img bm i))
    by now rewrite image_len_clear_bit.
  split; [|split; [|split]].
  - intros B. apply (image_eq_by_bits _ _ bm i Hi).
    + now rewrite image_len_clear_bit, image_len_set_bit.
    + intros off Ho.
      now rewrite byte_at_clear_bit_other, byte_at_set_bit_other.
    + intros j Hj. rewrite is_bit_set_clear_bit, is_bit_set_set_bit by auto.
      destruct (Z.eqb_spec j i) as [->|]; [now rewrite B|reflexivity].
  - intros B. apply (image_eq_by_bits _ _ bm i Hi).
    + now rewrite image_len_set_bit, image_len_clear_bit.
    + intros off Ho.
      now rewrite byte_at_set_bit_other, byte_at_clear_bit_other.
    + intros j Hj. rewrite is_bit_set_set_bit, is_bit_set_clear_bit by auto.
      destruct (Z.eqb_spec j i) as [->|]; [now rewrite B|reflexivity].
  - apply (image_eq_by_bits _ _ bm i Hi).
    + now rewrite image_len_set_bit.
    + intros off Ho. now rewrite byte_at_set_bit_other.
    + intros j Hj. rewrite !is_bit_set_set_bit by auto.
      destruct (j =? i); reflexivity.
  - apply (image_eq_by_bits _ _ bm i Hi).
    + now rewrite image_len_clear_bit.
    + intros off Ho. now rewrite byte_at_clear_bit_other.
    + intros j Hj. rewrite !is_bit_set_clear_bit by auto.
      destruct (j =? i); reflexivity.
Qed.

Lemma X4_set_clear_round_trip_witness :
  0 <= 9 /\ 0 <= 0 + 9 / 8 < image_len [x00; xf0]
  /\ set_bit (set_bit [x00; xf0] 0 9) 0 9 = set_bit [x00; xf0] 0 9.
Proof.
  assert (A : 0 <= 9) by lia.
  assert (B : 0 <= 0 + 9 / 8 < image_len [x00; xf0]) by (vm_compute; split; [discriminate|reflexivity]).
  exact (conj A (conj B
           (proj1 (proj2 (proj2
              (X4_set_clear_round_trip [x00; xf0] 0 9 A B)))))).
Defined.

(** ** The inode table *)

Lemma field_index_range (f : inode_field) : 0 <= field_index f <= 13.
Proof. destruct f; cbn; lia. Qed.

Lemma field_index_inj (f g : inode_field) :
  field_index f = field_index g -> f = g.
Proof. destruct f, g; cbn; intros H; try reflexivity; discriminate. Qed.

(** X5: the overlay [inode_table[i]].  The fields of the eighty inodes lie
    inside blocks 3 to 7, at the stride [sizeof(inode_t)] of 212 bytes;
    an assignment to one field is read back from that field and changes
    no other field of any inode. *)
Theorem X5_inode_field_assignment (img : image) (i : Z) (f : inode_field)
    (v : Z) :
  image_len img = IMAGE_SIZE -> 0 <= i < INODE_COUNT -> 0 <= v < 2^32 ->
  INODE_TABLE_START_BLOCK_NUM * BLOCK_SIZE <= inode_off i f
  /\ inode_off i f + 4 <= DATA_BLOCK_START_NUM * BLOCK_SIZE
  /\ inode_get (inode_set img i f v) i f = v
  /\ (forall i' f', 0 <= i' -> (i', f') <> (i, f) ->
        inode_get (inode_set img i f v) i' f' = inode_get img i' f').
Proof.
  intros Hl Hi Hv. pose proof (field_index_range f) as Rf.
  split; [layout; lia|]. split; [layout; lia|]. split.
  - unfold inode_get, inode_set. apply load32_store32_same; [| |exact Hv].
    + layout. lia.
    + rewrite Hl. layout. lia.
  - intros i' f' Hi' N. unfold inode_get, inode_set.
    apply load32_store32_other.
    pose proof (field_index_range f') as Rf'.
    destruct (Z.eq_dec i' i) as [->|Ni].
    + assert (field_index f' <> field_index f).
      { intros E. apply N. now rewrite (field_index_inj _ _ E). }
      layout. lia.
    + layout. lia.
Qed.

Lemma X5_inode_field_assignment_witness :
  image_len blank_image = IMAGE_SIZE /\ 0 <= 79 < INODE_COUNT /\ 0 <= 8 < 2^32
  /\ inode_off 79 i_triple_indirect + 4 <= DATA_BLOCK_START_NUM * BLOCK_SIZE.
Proof.
  assert (B : 0 <= 79 < INODE_COUNT) by (unfold INODE_COUNT; lia).
  assert (C : 0 <= 8 < 2^32) by lia.
  exact (conj blank_image_len (conj B (conj C
           (proj1 (proj2
              (X5_inode_field_assignment blank_image 79 i_triple_indirect 8
                 blank_image_len B C)))))).
Defined.

(** * The superblock pass *)

Lemma load16_store16_same img off v :
  0 <= off -> off + 2 <= image_len img -> 0 <= v < 2^16 ->
  load16 (store16 img off v) off = v.
Proof.
  intros H0 H1 Hv. unfold load16, store16.
  rewrite (load8_store8_other _ (off + 1) off) by lia.
  rewrite !load8_store8_same by (rewrite ?image_len_store8; lia).
  change (2^8) with 256. change (2^16) with 65536 in Hv.
  Z.div_mod_to_equations. lia.
Qed.

Lemma load32_store16_other img off off' v :
  off' + 4 <= off \/ off + 2 <= off' ->
  load32 (store16 img off v) off' = load32 img off'.
Proof.
  intros H. unfold load32. rewrite !load8_store16_other by lia. reflexivity.
Qed.

Lemma load16_store32_other img off off' v :
  off' + 2 <= off \/ off + 4 <= off' ->
  load16 (store32 img off v) off' = load16 img off'.
Proof.
  intros H. unfold load16. rewrite !load8_store32_other by lia. reflexivity.
Qed.

Lemma byte_at_store8_other img off off' v :
  off <> off' -> byte_at (store8 img off v) off' = byte_at img off'.
Proof. intros H. unfold store8. now apply byte_at_set_other. Qed.

Lemma image_len_sb_store img f v : image_len (sb_store img f v) = image_len img.
Proof.
  destruct f; unfold sb_store;
    rewrite ?image_len_store32, ?image_len_store16; reflexivity.
Qed.

Lemma sb_load_store_same img f :
  36 <= image_len img ->
  sb_load (sb_store img f (sb_expected f)) f = sb_expected f.
Proof.
  intros H.
  destruct f; unfold sb_load, sb_store, sb_offset, superblock, SUPERBLOCK_NUM;
    cbn [Z.mul Z.add];
    (apply load16_store16_same || apply load32_store32_same);
    try lia; vm_compute; split; discriminate || reflexivity.
Qed.

Lemma sb_load_store_other img f g v :
  g <> f -> sb_load (sb_store img f v) g = sb_load img g.
Proof.
  intros N.
  destruct f, g; try congruence;
    unfold sb_load, sb_store, sb_offset, superblock, SUPERBLOCK_NUM;
    cbn [Z.mul Z.add];
    (apply load32_store32_other || apply load32_store16_other
     || apply load16_store32_other); lia.
Qed.

Lemma byte_at_sb_store_other img f v off :
  ~ (sb_offset f <= off < sb_offset f + sb_width f) ->
  byte_at (sb_store img f v) off = byte_at img off.
Proof.
  intros N.
  destruct f; unfold sb_store, store32, store16, sb_offset, sb_width,
    superblock, SUPERBLOCK_NUM in *; cbn [Z.mul Z.add] in *;
    rewrite !byte_at_store8_other by lia; reflexivity.
Qed.

(** One field, in either mode: what is returned and what is reported are
    decided by the value found; the other fields keep their values. *)
Lemma check_sb_field_report do_fix f s :
  isValid (check_sb_field do_fix f s)
  = isValid s && negb (sb_wrong (fs_image s) f)
  /\ findings (stdout (check_sb_field do_fix f s))
     = findings (stdout s)
       ++ (if sb_wrong (fs_image s) f
           then [MSbError f (sb_load (fs_image s) f)] else [])
  /\ (forall g, g <> f ->
        sb_load (fs_image (check_sb_field do_fix f s)) g
        = sb_load (fs_image s) g).
Proof.
  unfold check_sb_field, sb_wrong. cbv zeta.
  destruct (sb_load (fs_image s) f =? sb_expected f); cbn [negb].
  - cbn [isValid fs_image stdout printf]. rewrite findings_snoc. cbn.
    rewrite andb_true_r. auto.
  - destruct do_fix;
      cbn [isValid fs_image stdout printf with_valid with_image];
      rewrite !findings_snoc; cbn [is_finding]; rewrite ?app_nil_r,
        andb_false_r; (split; [reflexivity|split; [reflexivity|]]);
      intros g N; [now apply sb_load_store_other|reflexivity].
Qed.

(** One field in repair mode: it holds its required value afterwards, and
    no byte outside the field has changed. *)
Lemma check_sb_field_fix f s :
  36 <= image_len (fs_image s) ->
  image_len (fs_image (check_sb_field true f s)) = image_len (fs_image s)
  /\ sb_load (fs_image (check_sb_field true f s)) f = sb_expected f
  /\ (forall off, ~ (sb_offset f <= off < sb_offset f + sb_width f) ->
        byte_at (fs_image (check_sb_field true f s)) off
        = byte_at (fs_image s) off).
Proof.
  intros Hl. unfold check_sb_field. cbv zeta.
  destruct (Z.eqb_spec (sb_load (fs_image s) f) (sb_expected f)) as [E|E];
    cbn [negb fs_image printf with_valid with_image].
  - auto.
  - split; [apply image_len_sb_store|]. split.
    + now apply sb_load_store_same.
    + intros off N. now apply byte_at_sb_store_other.
Qed.

(** The pass is the same test applied to the nine fields in turn. *)
Lemma validate_superblock_fold do_fix s :
  validate_superblock do_fix s
  = fold_left (fun t f => check_sb_field do_fix f t) all_sb_fields
      (printf (MHeader PSuperblock) (with_valid s true)).
Proof.
  unfold validate_superblock, all_sb_fields. cbv zeta. cbn [fold_left].
  reflexivity.
Qed.

Lemma sb_wrong_filter_ext (a b : image) (l : list sb_field) :
  (forall g, In g l -> sb_load a g = sb_load b g) ->
  List.map (fun f => MSbError f (sb_load a f)) (List.filter (sb_wrong a) l)
  = List.map (fun f => MSbError f (sb_load b f)) (List.filter (sb_wrong b) l).
Proof.
  induction l as [|f l IH]; intros H; [reflexivity|].
  cbn [List.filter].
  assert (E : sb_load a f = sb_load b f) by (apply H; now left).
  assert (W : sb_wrong a f = sb_wrong b f) by (unfold sb_wrong; now rewrite E).
  assert (T := IH (fun g Hg => H g (or_intror Hg))).
  rewrite W. destruct (sb_wrong b f); cbn [List.map]; rewrite T, ?E; reflexivity.
Qed.

Lemma sb_fold_report do_fix :
  forall l s, List.NoDup l ->
    let s' := fold_left (fun t f => check_sb_field do_fix f t) l s in
    isValid s'
    = isValid s
      && match List.filter (sb_wrong (fs_image s)) l with
         | [] => true | _ => false
         end
    /\ findings (stdout s')
       = findings (stdout s)
         ++ List.map (fun f => MSbError f (sb_load (fs_image s) f))
              (List.filter (sb_wrong (fs_image s)) l).
Proof.
  induction l as [|f l IH]; intros s ND; cbv zeta.
  - cbn. now rewrite andb_true_r, app_nil_r.
  - apply List.NoDup_cons_iff in ND. destruct ND as [Nin ND].
    cbn [fold_left].
    destruct (check_sb_field_report do_fix f s) as (V & F & O).
    destruct (IH (check_sb_field do_fix f s) ND) as [V' F'].
    assert (Same : forall g, In g l ->
              sb_load (fs_image (check_sb_field do_fix f s)) g
              = sb_load (fs_image s) g).
    { intros g Hg. apply O. intros ->. contradiction. }
    assert (Fl : List.filter (sb_wrong (fs_image (check_sb_field do_fix f s))) l
                 = List.filter (sb_wrong (fs_image s)) l).
    { apply List.filter_ext_in. intros g Hg. unfold sb_wrong.
      now rewrite Same. }
    rewrite V', F', V, F. rewrite (sb_wrong_filter_ext _ (fs_image s)) by exact Same.
    rewrite Fl. cbn [List.filter].
    destruct (sb_wrong (fs_image s) f); cbn [negb List.map].
    + rewrite andb_false_r. cbn [andb]. split; [reflexivity|].
      now rewrite <- app_assoc.
    + rewrite andb_true_r, app_nil_r. auto.
Qed.

Lemma sb_fold_fix :
  forall l s, 36 <= image_len (fs_image s) ->
    let s' := fold_left (fun t f => check_sb_field true f t) l s in
    image_len (fs_image s') = image_len (fs_image s)
    /\ (forall f, In f l -> sb_load (fs_image s') f = sb_expected f)
    /\ (forall f, ~ In f l -> sb_load (fs_image s') f = sb_load (fs_image s) f)
    /\ (forall off, 36 <= off \/ 2 <= off < 4 ->
          byte_at (fs_image s') off = byte_at (fs_image s) off).
Proof.
  induction l as [|f l IH]; intros s Hl; cbv zeta.
  - cbn. repeat split; auto. intros f [].
  - cbn [fold_left].
    destruct (check_sb_field_fix f s Hl) as (L1 & E1 & B1).
    destruct (check_sb_field_report true f s) as (_ & _ & O1).
    destruct (IH (check_sb_field true f s) ltac:(lia)) as (L & E & O & B).
    split; [congruence|]. split; [|split].
    + intros g [<-|Hg]; [|now apply E].
      destruct (in_dec (fun a b : sb_field => ltac:(decide equality)) f l)
        as [I|I]; [now apply E|].
      now rewrite O.
    + intros g Hg. rewrite O by (intros I; apply Hg; now right).
      apply O1. intros ->. apply Hg. now left.
    + intros off Ho. rewrite B by exact Ho. apply B1.
      destruct f; unfold sb_offset, sb_width; lia.
Qed.

Lemma all_sb_fields_complete (f : sb_field) : In f all_sb_fields.
Proof. destruct f; cbn; tauto. Qed.

Lemma all_sb_fields_nodup : List.NoDup all_sb_fields.
Proof.
  unfold all_sb_fields.
  repeat (apply List.NoDup_cons; [cbn; intuition discriminate|]).
  apply List.NoDup_nil.
Qed.

(** X6: the superblock pass in check-only mode.  It returns [true]
    exactly when each of the nine fields holds its required value, and it
    leaves the buffer as it found it. *)
Theorem X6_superblock_check (s : state) :
  (isValid (validate_superblock false s) = true <->
     forall f, sb_load (fs_image s) f = sb_expected f)
  /\ fs_image (validate_superblock false s) = fs_image s.
Proof.
  split; [apply validate_superblock_valid|].
  apply (pe_check _ _ _ _ (validate_superblock_effect false s)). reflexivity.
Qed.

(** X7: the superblock pass in repair mode.  Afterwards each of the nine
    fields holds its required value, so that the pass run again on the
    result returns [true]; the buffer keeps its length, and neither the
    two padding bytes behind the magic number nor any byte from offset 36
    on has changed. *)
Theorem X7_superblock_repair (s : state) :
  36 <= image_len (fs_image s) ->
  (forall f, sb_load (fs_image (validate_superblock true s)) f = sb_expected f)
  /\ image_len (fs_image (validate_superblock true s)) = image_len (fs_image s)
  /\ (forall off, 36 <= off \/ 2 <= off < 4 ->
        byte_at (fs_image (validate_superblock true s)) off
        = byte_at (fs_image s) off)
  /\ isValid (validate_superblock false (validate_superblock true s)) = true.
Proof.
  intros Hl. rewrite (validate_superblock_fold true s).
  destruct (sb_fold_fix all_sb_fields
              (printf (MHeader PSuperblock) (with_valid s true)) Hl)
    as (L & E & _ & B).
  assert (All : forall f,
            sb_load (fs_image
              (fold_left (fun t f => check_sb_field true f t) all_sb_fields
                 (printf (MHeader PSuperblock) (with_valid s true)))) f
            = sb_expected f).
  { intros f. apply E. apply all_sb_fields_complete. }
  split; [exact All|]. split; [exact L|]. split; [exact B|].
  apply validate_superblock_valid. exact All.
Qed.

Lemma X7_superblock_repair_witness :
  36 <= image_len (fs_image (pristine (replicate 36 x00)))
  /\ isValid (validate_superblock false
                (validate_superblock true (pristine (replicate 36 x00))))
     = true.
Proof.
  assert (A : 36 <= image_len (fs_image (pristine (replicate 36 x00))))
    by (vm_compute; discriminate).
  exact (conj A
           (proj2 (proj2 (proj2
              (X7_superblock_repair (pristine (replicate 36 x00)) A))))).
Defined.

(** X8: what the superblock pass reports and returns is the same in both
    modes and is decided by the buffer it is given: one ["Error:"] line
    for each field that fails its test, in the order of the structure and
    with the value found, and [true] exactly when there is no such line.
    In repair mode the value returned therefore describes the superblock
    before the repair. *)
Theorem X8_superblock_report (do_fix : bool) (s : state) :
  findings (stdout (validate_superblock do_fix s))
  = findings (stdout s) ++ sb_errors (fs_image s)
  /\ isValid (validate_superblock do_fix s)
     = match sb_errors (fs_image s) with [] => true | _ => false end.
Proof.
  rewrite (validate_superblock_fold do_fix s).
  destruct (sb_fold_report do_fix all_sb_fields
              (printf (MHeader PSuperblock) (with_valid s true))
              all_sb_fields_nodup) as [V F].
  cbv zeta in V, F. rewrite V, F.
  cbn [fs_image stdout isValid printf with_valid andb].
  rewrite findings_snoc. cbn [is_finding]. rewrite app_nil_r.
  split; [reflexivity|]. unfold sb_errors.
  destruct (List.filter (sb_wrong (fs_image s)) all_sb_fields); reflexivity.
Qed.

(** * The two bitmap passes *)

Lemma no_lines_app (a b : list msg) :
  no_lines (a ++ b) = no_lines a && no_lines b.
Proof. destruct a; reflexivity. Qed.

Lemma seqZ_snoc (j : Z) : 0 <= j -> seqZ 0 (j + 1) = seqZ 0 j ++ [j].
Proof.
  intros Hj. rewrite seqZ_app by lia. f_equal.
Qed.

(** ** A loop that reconciles one bit per iteration

    Both bitmap passes end in a loop whose iteration [j] compares bit [j]
    of a bitmap with a target and, in repair mode, makes the bit equal to
    the target.  The section states once what such a loop reports and
    leaves behind. *)
Section BitLoop.

Variables (bm n : Z).
Variable target : image -> Z -> bool.
Variable err : image -> Z -> list msg.
Variable body : bool -> Z -> state -> state.

Hypothesis n_nonneg : 0 <= n.

Hypothesis body_step : forall (do_fix : bool) (j : Z) (t : state),
  0 <= j < n -> image_len (fs_image t) = IMAGE_SIZE ->
  bit_reconciled bm j
    (if do_fix then target (fs_image t) j else is_bit_set (fs_image t) bm j)
    (fs_image t) (fs_image (body do_fix j t))
  /\ findings (stdout (body do_fix j t))
     = findings (stdout t) ++ err (fs_image t) j
  /\ isValid (body do_fix j t)
     = isValid t && no_lines (err (fs_image t) j).

Hypothesis target_frame : forall a b j,
  0 <= j < n ->
  (forall off, ~ (bm <= off < bm + (n + 7) / 8) ->
     byte_at a off = byte_at b off) ->
  target a j = target b j.

Hypothesis err_ext : forall a b j,
  target a j = target b j -> is_bit_set a bm j = is_bit_set b bm j ->
  err a j = err b j.

Lemma bit_loop_report (do_fix : bool) (s : state) :
  image_len (fs_image s) = IMAGE_SIZE ->
  bitmap_progress bm n
    (fun k => if do_fix then target (fs_image s) k
              else is_bit_set (fs_image s) bm k)
    (fs_image s) n (fs_image (for_loop n (body do_fix) s))
  /\ findings (stdout (for_loop n (body do_fix) s))
     = findings (stdout s) ++ List.flat_map (err (fs_image s)) (seqZ 0 n)
  /\ isValid (for_loop n (body do_fix) s)
     = isValid s && no_lines (List.flat_map (err (fs_image s)) (seqZ 0 n)).
Proof.
  intros Hl.
  apply (for_loop_ind_idx
           (fun j t =>
              bitmap_progress bm n
                (fun k => if do_fix then target (fs_image s) k
                          else is_bit_set (fs_image s) bm k)
                (fs_image s) j (fs_image t)
              /\ findings (stdout t)
                 = findings (stdout s)
                   ++ List.flat_map (err (fs_image s)) (seqZ 0 j)
              /\ isValid t
                 = isValid s
                   && no_lines (List.flat_map (err (fs_image s)) (seqZ 0 j)))).
  - exact n_nonneg.
  - split; [apply bitmap_progress_start|].
    cbn. now rewrite app_nil_r, andb_true_r.
  - intros j t Hj (BP & F & V).
    pose proof BP as (L & _ & Todo & Frame).
    destruct (body_step do_fix j t Hj ltac:(congruence)) as (BR & F' & V').
    assert (T : target (fs_image t) j = target (fs_image s) j)
      by (apply target_frame; [exact Hj|exact Frame]).
    assert (B : is_bit_set (fs_image t) bm j = is_bit_set (fs_image s) bm j)
      by (apply Todo; lia).
    assert (E : err (fs_image t) j = err (fs_image s) j)
      by (apply err_ext; assumption).
    rewrite T, B in BR. rewrite E in F', V'.
    split; [|split].
    + apply (bitmap_progress_step bm n _ (fs_image s) j (fs_image t));
        [exact Hj|exact BP|exact BR].
    + rewrite F', F, seqZ_snoc, List.flat_map_app by lia.
      cbn [List.flat_map]. now rewrite app_nil_r, app_assoc.
    + rewrite V', V, seqZ_snoc, List.flat_map_app by lia.
      cbn [List.flat_map].
      now rewrite app_nil_r, no_lines_app, andb_assoc.
Qed.

End BitLoop.

(** ** The inode-bitmap pass *)

Lemma reconcile_inode_bit_step (do_fix : bool) (j : Z) (t : state) :
  0 <= j < INODE_COUNT -> image_len (fs_image t) = IMAGE_SIZE ->
  bit_reconciled inode_bitmap j
    (if do_fix then is_inode_valid (fs_image t) j
     else is_bit_set (fs_image t) inode_bitmap j)
    (fs_image t) (fs_image (reconcile_inode_bit do_fix j t))
  /\ findings (stdout (reconcile_inode_bit do_fix j t))
     = findings (stdout t) ++ ibm_error (fs_image t) j
  /\ isValid (reconcile_inode_bit do_fix j t)
     = isValid t && no_lines (ibm_error (fs_image t) j).
Proof.
  intros Hj Hl. split.
  - destruct do_fix; [now apply reconcile_inode_bit_fix|].
    rewrite (proj1 (reconcile_inode_bit_check j t)).
    apply bit_reconciled_id. lia.
  - unfold reconcile_inode_bit, ibm_error. cbv zeta.
    destruct (is_inode_valid (fs_image t) j),
      (is_bit_set (fs_image t) inode_bitmap j), do_fix;
      cbn [negb andb isValid stdout fs_image printf with_valid with_image
           no_lines];
      rewrite ?findings_snoc; cbn [is_finding];
      rewrite ?app_nil_r, ?andb_true_r, ?andb_false_r; auto.
Qed.

Lemma inode_bitmap_frame (a b : image) :
  (forall off, ~ (inode_bitmap <= off < inode_bitmap + (INODE_COUNT + 7) / 8) ->
     byte_at a off = byte_at b off) ->
  forall off, inode_table <= off -> byte_at a off = byte_at b off.
Proof.
  intros H off Ho. apply H. layout. change ((80 + 7) / 8) with 10. lia.
Qed.

Lemma ibm_error_ext (a b : image) (j : Z) :
  is_inode_valid a j = is_inode_valid b j ->
  is_bit_set a inode_bitmap j = is_bit_set b inode_bitmap j ->
  ibm_error a j = ibm_error b j.
Proof. intros V B. unfold ibm_error. now rewrite V, B. Qed.

Lemma validate_inode_bitmap_report (do_fix : bool) (s : state) :
  image_len (fs_image s) = IMAGE_SIZE ->
  bitmap_progress inode_bitmap INODE_COUNT
    (fun k => if do_fix then is_inode_valid (fs_image s) k
              else is_bit_set (fs_image s) inode_bitmap k)
    (fs_image s) INODE_COUNT (fs_image (validate_inode_bitmap do_fix s))
  /\ findings (stdout (validate_inode_bitmap do_fix s))
     = findings (stdout s) ++ ibm_errors (fs_image s)
  /\ isValid (validate_inode_bitmap do_fix s) = no_lines (ibm_errors (fs_image s)).
Proof.
  intros Hl. unfold validate_inode_bitmap, ibm_errors. cbv zeta.
  destruct (bit_loop_report inode_bitmap INODE_COUNT is_inode_valid ibm_error
              reconcile_inode_bit ltac:(unfold INODE_COUNT; lia)
              reconcile_inode_bit_step
              (fun a b j Hj H =>
                 is_inode_valid_ext a b j (proj1 Hj) (inode_bitmap_frame a b H))
              ibm_error_ext do_fix
              (with_valid (printf (MHeader PInodeBitmap) s) true) Hl)
    as (BP & F & V).
  cbn [fs_image stdout isValid printf with_valid andb] in BP, F, V.
  rewrite findings_snoc in F. cbn [is_finding] in F.
  rewrite app_nil_r in F. auto.
Qed.

(** X9: the inode-bitmap pass in check-only mode returns [true] exactly
    when, for each of the eighty inodes, the bit of the inode bitmap says
    whether the inode is live; the buffer is left as it was found. *)
Theorem X9_inode_bitmap_check (s : state) :
  (isValid (validate_inode_bitmap false s) = true <->
     forall i, 0 <= i < INODE_COUNT ->
       is_bit_set (fs_image s) inode_bitmap i = is_inode_valid (fs_image s) i)
  /\ fs_image (validate_inode_bitmap false s) = fs_image s.
Proof.
  split.
  - rewrite validate_inode_bitmap_valid. unfold inode_bit_ok.
    split; intros H i Hi; specialize (H i Hi).
    + symmetry. now apply Bool.eqb_prop.
    + rewrite H. apply Bool.eqb_reflx.
  - apply (pe_check _ _ _ _ (validate_inode_bitmap_effect false s)).
    reflexivity.
Qed.

(** X10: what the inode-bitmap pass reports and returns is the same in
    both modes and is decided by the buffer it is given: for each inode in
    ascending order, one ["Error:"] line when the inode is live and its bit
    is clear, or when it is not live and its bit is set; the pass returns
    [true] exactly when there is no such line. *)
Theorem X10_inode_bitmap_report (do_fix : bool) (s : state) :
  image_len (fs_image s) = IMAGE_SIZE ->
  findings (stdout (validate_inode_bitmap do_fix s))
  = findings (stdout s) ++ ibm_errors (fs_image s)
  /\ isValid (validate_inode_bitmap do_fix s)
     = no_lines (ibm_errors (fs_image s)).
Proof. intros Hl. apply (validate_inode_bitmap_report do_fix s Hl). Qed.

Lemma X10_inode_bitmap_report_witness :
  image_len (fs_image (pristine blank_image)) = IMAGE_SIZE
  /\ isValid (validate_inode_bitmap true (pristine blank_image))
     = no_lines (ibm_errors (fs_image (pristine blank_image))).
Proof.
  exact (conj blank_image_len
           (proj2 (X10_inode_bitmap_report true (pristine blank_image)
                     blank_image_len))).
Defined.

Lemma inode_bitmap_settled (s : state) :
  image_len (fs_image s) = IMAGE_SIZE ->
  forall i, 0 <= i < INODE_COUNT ->
    inode_bit_ok (fs_image (validate_inode_bitmap true s)) i = true.
Proof.
  intros Hl i Hi.
  destruct (validate_inode_bitmap_fix s Hl) as (_ & Bits & _ & Frame).
  unfold inode_bit_ok. rewrite (Bits i Hi).
  rewrite (is_inode_valid_ext _ (fs_image s) i (proj1 Hi)
             (inode_bitmap_frame _ _ Frame)).
  apply Bool.eqb_reflx.
Qed.

(** X11: the inode-bitmap pass in repair mode writes nothing but the ten
    bytes that hold the eighty bits, and it settles the bitmap: the pass
    run again on the result returns [true], and a second repair leaves the
    result as it is. *)
Theorem X11_inode_bitmap_repair_settles (s : state) :
  image_len (fs_image s) = IMAGE_SIZE ->
  (forall off, ~ (inode_bitmap <= off < inode_bitmap + 10) ->
     byte_at (fs_image (validate_inode_bitmap true s)) off
     = byte_at (fs_image s) off)
  /\ isValid (validate_inode_bitmap false (validate_inode_bitmap true s)) = true
  /\ fs_image (validate_inode_bitmap true (validate_inode_bitmap true s))
     = fs_image (validate_inode_bitmap true s).
Proof.
  intros Hl.
  destruct (validate_inode_bitmap_fix s Hl) as (_ & _ & _ & Frame).
  change ((INODE_COUNT + 7) / 8) with 10 in Frame.
  assert (V : isValid (validate_inode_bitmap false
                         (validate_inode_bitmap true s)) = true).
  { apply validate_inode_bitmap_valid. now apply inode_bitmap_settled. }
  split; [exact Frame|]. split; [exact V|].
  rewrite (validate_inode_bitmap_agree _ V).
  apply (pe_check _ _ _ _ (validate_inode_bitmap_effect false _)). reflexivity.
Qed.

Lemma X11_inode_bitmap_repair_settles_witness :
  image_len (fs_image (pristine blank_image)) = IMAGE_SIZE
  /\ isValid (validate_inode_bitmap false
                (validate_inode_bitmap true (pristine blank_image))) = true.
Proof.
  exact (conj blank_image_len
           (proj1 (proj2 (X11_inode_bitmap_repair_settles
                            (pristine blank_image) blank_image_len)))).
Defined.

(** ** The data-bitmap pass *)

Lemma reconcile_data_bit_step (used : list bool) (do_fix : bool) (j : Z)
    (t : state) :
  0 <= j < DATA_BLOCKS_COUNT -> image_len (fs_image t) = IMAGE_SIZE ->
  bit_reconciled data_bitmap j
    (if do_fix then used_at used j
     else is_bit_set (fs_image t) data_bitmap j)
    (fs_image t) (fs_image (reconcile_data_bit do_fix used j t))
  /\ findings (stdout (reconcile_data_bit do_fix used j t))
     = findings (stdout t) ++ dbm_error (fs_image t) used j
  /\ isValid (reconcile_data_bit do_fix used j t)
     = isValid t && no_lines (dbm_error (fs_image t) used j).
Proof.
  intros Hj Hl. split.
  - destruct do_fix; [now apply reconcile_data_bit_fix|].
    rewrite (proj1 (reconcile_data_bit_check used j t)).
    apply bit_reconciled_id. lia.
  - unfold reconcile_data_bit, dbm_error. cbv zeta.
    destruct (used_at used j),
      (is_bit_set (fs_image t) data_bitmap j), do_fix;
      cbn [negb andb isValid stdout fs_image printf with_valid with_image
           no_lines];
      rewrite ?findings_snoc; cbn [is_finding];
      rewrite ?app_nil_r, ?andb_true_r, ?andb_false_r; auto.
Qed.

Lemma dbm_error_ext used (a b : image) (j : Z) :
  used_at used j = used_at used j ->
  is_bit_set a data_bitmap j = is_bit_set b data_bitmap j ->
  dbm_error a used j = dbm_error b used j.
Proof. intros _ B. unfold dbm_error. now rewrite B. Qed.

Lemma data_bit_loop_report (used : list bool) (do_fix : bool) (t : state) :
  image_len (fs_image t) = IMAGE_SIZE ->
  findings (stdout (for_loop DATA_BLOCKS_COUNT (reconcile_data_bit do_fix used) t))
  = findings (stdout t)
    ++ List.flat_map (fun k => dbm_error (fs_image t) used k)
         (seqZ 0 DATA_BLOCKS_COUNT)
  /\ isValid (for_loop DATA_BLOCKS_COUNT (reconcile_data_bit do_fix used) t)
     = isValid t
       && no_lines (List.flat_map (fun k => dbm_error (fs_image t) used k)
                      (seqZ 0 DATA_BLOCKS_COUNT)).
Proof.
  intros Hl.
  exact (proj2 (bit_loop_report data_bitmap DATA_BLOCKS_COUNT
                  (fun _ k => used_at used k)
                  (fun img k => dbm_error img used k)
                  (fun fx => reconcile_data_bit fx used)
                  ltac:(unfold DATA_BLOCKS_COUNT; lia)
                  (reconcile_data_bit_step used)
                  (fun a b j _ _ => eq_refl)
                  (dbm_error_ext used) do_fix t Hl)).
Qed.

Lemma validate_data_bitmap_report (do_fix : bool) (s : state) :
  image_len (fs_image s) = IMAGE_SIZE ->
  findings (stdout (validate_data_bitmap do_fix true s))
  = findings (stdout s) ++ dbm_errors (fs_image s)
  /\ isValid (validate_data_bitmap do_fix true s)
     = no_lines (dbm_errors (fs_image s)).
Proof.
  intros Hl.
  assert (E : validate_data_bitmap do_fix true s
              = for_loop DATA_BLOCKS_COUNT
                  (reconcile_data_bit do_fix (collect_block_used (fs_image s)))
                  (printf MDbmValidating
                     (printf MDbmChecking
                        (with_valid (printf (MHeader PDataBitmap) s) true))))
    by reflexivity.
  rewrite E. clear E. unfold dbm_errors.
  generalize (collect_block_used (fs_image s)). intros used.
  remember (printf MDbmValidating
              (printf MDbmChecking
                 (with_valid (printf (MHeader PDataBitmap) s) true)))
    as t eqn:Et.
  assert (I : fs_image t = fs_image s) by (subst t; reflexivity).
  assert (O : findings (stdout t) = findings (stdout s)).
  { subst t. cbn [stdout printf with_valid].
    rewrite !findings_snoc. cbn [is_finding]. now rewrite !app_nil_r. }
  assert (V : isValid t = true) by (subst t; reflexivity).
  clear Et.
  destruct (data_bit_loop_report used do_fix t ltac:(congruence)) as [F W].
  rewrite F, W, I, O, V. split; reflexivity.
Qed.

(** X12: with its allocation granted, the data-bitmap pass in check-only
    mode returns [true] exactly when, for each block [b] of the data
    region, bit [b - 8] of the data bitmap says whether [b] is held by one
    of the four pointer slots of a live inode; the buffer is left as it was
    found. *)
Theorem X12_data_bitmap_check (s : state) :
  (isValid (validate_data_bitmap false true s) = true <->
     forall b, DATA_BLOCK_START_NUM <= b < TOTAL_BLOCKS ->
       (is_bit_set (fs_image s) data_bitmap (b - DATA_BLOCK_START_NUM) = true
        <-> top_level_pointer (fs_image s) INODE_COUNT b))
  /\ fs_image (validate_data_bitmap false true s) = fs_image s.
Proof.
  split.
  - rewrite validate_data_bitmap_valid. unfold data_bit_ok. split.
    + intros H b Hb.
      assert (K : 0 <= b - DATA_BLOCK_START_NUM < DATA_BLOCKS_COUNT)
        by (layout; lia).
      specialize (H _ K). apply Bool.eqb_prop in H. rewrite <- H.
      rewrite collect_block_used_spec by exact K.
      now replace (b - DATA_BLOCK_START_NUM + DATA_BLOCK_START_NUM) with b by lia.
    + intros H k Hk.
      assert (B : DATA_BLOCK_START_NUM <= k + DATA_BLOCK_START_NUM < TOTAL_BLOCKS)
        by (layout; lia).
      specialize (H _ B).
      replace (k + DATA_BLOCK_START_NUM - DATA_BLOCK_START_NUM) with k in H by lia.
      rewrite <- (collect_block_used_spec (fs_image s) k Hk) in H.
      destruct (used_at (collect_block_used (fs_image s)) k),
        (is_bit_set (fs_image s) data_bitmap k); try reflexivity;
        destruct H as [H1 H2]; (now discriminate H1) || (now discriminate H2).
  - apply (pe_check _ _ _ _ (validate_data_bitmap_effect false true s)).
    reflexivity.
Qed.

(** X13: what the data-bitmap pass reports and returns is the same in
    both modes and is decided by the buffer it is given: for each of the
    56 bits in ascending order, one ["Error:"] line when the block is held
    by a pointer slot and its bit is clear, or when it is not and its bit
    is set; the pass returns [true] exactly when there is no such line. *)
Theorem X13_data_bitmap_report (do_fix : bool) (s : state) :
  image_len (fs_image s) = IMAGE_SIZE ->
  findings (stdout (validate_data_bitmap do_fix true s))
  = findings (stdout s) ++ dbm_errors (fs_image s)
  /\ isValid (validate_data_bitmap do_fix true s)
     = no_lines (dbm_errors (fs_image s)).
Proof. intros Hl. apply (validate_data_bitmap_report do_fix s Hl). Qed.

Lemma X13_data_bitmap_report_witness :
  image_len (fs_image (pristine blank_image)) = IMAGE_SIZE
  /\ isValid (validate_data_bitmap true true (pristine blank_image))
     = no_lines (dbm_errors (fs_image (pristine blank_image))).
Proof.
  exact (conj blank_image_len
           (proj2 (X13_data_bitmap_report true (pristine blank_image)
                     blank_image_len))).
Defined.

Lemma data_bitmap_settled (s : state) :
  image_len (fs_image s) = IMAGE_SIZE ->
  forall k, 0 <= k < DATA_BLOCKS_COUNT ->
    data_bit_ok (fs_image (validate_data_bitmap true true s))
      (collect_block_used (fs_image (validate_data_bitmap true true s))) k
    = true.
Proof.
  intros Hl k Hk.
  destruct (validate_data_bitmap_fix s Hl) as (_ & Bits & _ & Frame).
  assert (C : collect_block_used (fs_image (validate_data_bitmap true true s))
              = collect_block_used (fs_image s)).
  { apply collect_block_used_ext. intros i f Hi _.
    apply inode_get_ext; [lia|]. intros off Ho. apply Frame.
    layout. change ((56 + 7) / 8) with 7. lia. }
  unfold data_bit_ok. rewrite C, (Bits k Hk). apply Bool.eqb_reflx.
Qed.

(** X14: the data-bitmap pass in repair mode writes nothing but the seven
    bytes that hold the 56 bits, and it settles the bitmap: the pass run
    again on the result returns [true], and a second repair leaves the
    result as it is. *)
Theorem X14_data_bitmap_repair_settles (s : state) :
  image_len (fs_image s) = IMAGE_SIZE ->
  (forall off, ~ (data_bitmap <= off < data_bitmap + 7) ->
     byte_at (fs_image (validate_data_bitmap true true s)) off
     = byte_at (fs_image s) off)
  /\ isValid (validate_data_bitmap false true
                (validate_data_bitmap true true s)) = true
  /\ fs_image (validate_data_bitmap true true
                 (validate_data_bitmap true true s))
     = fs_image (validate_data_bitmap true true s).
Proof.
  intros Hl.
  destruct (validate_data_bitmap_fix s Hl) as (_ & _ & _ & Frame).
  change ((DATA_BLOCKS_COUNT + 7) / 8) with 7 in Frame.
  assert (V : isValid (validate_data_bitmap false true
                         (validate_data_bitmap true true s)) = true).
  { apply validate_data_bitmap_valid. now apply data_bitmap_settled. }
  split; [exact Frame|]. split; [exact V|].
  rewrite (validate_data_bitmap_agree _ _ V).
  apply (pe_check _ _ _ _ (validate_data_bitmap_effect false true _)).
  reflexivity.
Qed.

Lemma X14_data_bitmap_repair_settles_witness :
  image_len (fs_image (pristine blank_image)) = IMAGE_SIZE
  /\ isValid (validate_data_bitmap false true
                (validate_data_bitmap true true (pristine blank_image)))
     = true.
Proof.
  exact (conj blank_image_len
           (proj1 (proj2 (X14_data_bitmap_repair_settles
                            (pristine blank_image) blank_image_len)))).
Defined.

(** X15: when the allocation of its table fails, a pass prints its banner
    and the line ["Memory allocation failed"], which is no ["Error:"]
    line, returns [false] and leaves the buffer untouched, in either
    mode.  This holds for the table [block_used] of the data-bitmap pass
    and for the table [inode_refs] of the duplicate pass. *)
Theorem X15_pass_allocation_failure (do_fix : bool) (s : state) :
  (isValid (validate_data_bitmap do_fix false s) = false
   /\ fs_image (validate_data_bitmap do_fix false s) = fs_image s
   /\ stdout (validate_data_bitmap do_fix false s)
      = stdout s ++ [MHeader PDataBitmap; MAllocFailed])
  /\ (isValid (check_duplicate_blocks do_fix false s) = false
      /\ fs_image (check_duplicate_blocks do_fix false s) = fs_image s
      /\ stdout (check_duplicate_blocks do_fix false s)
         = stdout s ++ [MHeader PDuplicate; MAllocFailed]).
Proof.
  unfold validate_data_bitmap, check_duplicate_blocks. cbv zeta.
  cbn [negb isValid fs_image stdout printf with_valid].
  rewrite <- !app_assoc. cbn [app]. auto 7.
Qed.

(** * The duplicate pass: the pointer slots of the inodes *)

Lemma dup_grows_refl s : dup_grows s s.
Proof. split; auto. Qed.

Lemma dup_grows_trans s1 s2 s3 :
  dup_grows s1 s2 -> dup_grows s2 s3 -> dup_grows s1 s3.
Proof.
  intros [S1 O1 L1] [S2 O2 L2]. split; auto. congruence.
Qed.

Lemma dup_grows_printf m s : dup_grows s (printf m s).
Proof.
  split; auto. intros x Hx. cbn. apply in_or_app. now left.
Qed.

Lemma dup_grows_with_valid v s : dup_grows s (with_valid s v).
Proof. split; auto. Qed.

Lemma dup_grows_with_image img s : dup_grows s (with_image s img).
Proof. split; auto. Qed.

Lemma dup_grows_mark_ref blk ino s : dup_grows s (mark_ref blk ino s).
Proof.
  split; [|auto|cbn; apply length_insert].
  intros b. unfold ref_seen, mark_ref. cbn [block_ref_count].
  destruct (Nat.eq_dec (Z.to_nat blk) (Z.to_nat b)) as [E|N].
  - rewrite E. destruct (block_ref_count s !! Z.to_nat b) eqn:L;
      [|discriminate].
    intros _. rewrite list_lookup_insert_eq; [reflexivity|].
    now apply lookup_lt_Some in L.
  - now rewrite list_lookup_insert_ne.
Qed.

Lemma mark_ref_seen blk ino s :
  (Z.to_nat blk < length (block_ref_count s))%nat ->
  ref_seen (mark_ref blk ino s) blk = true.
Proof.
  intros H. unfold ref_seen, mark_ref. cbn [block_ref_count].
  now rewrite list_lookup_insert_eq.
Qed.

Lemma dup_grows_check_entry do_fix ino base j v s :
  dup_grows s (dup_check_entry do_fix ino base j v s).
Proof.
  unfold dup_check_entry, check_data_block_for_duplicates.
  destruct (in_data_region v); [|apply dup_grows_refl].
  destruct (ref_seen s v); cbn [negb]; [|apply dup_grows_mark_ref].
  destruct do_fix.
  - eapply dup_grows_trans; [apply dup_grows_printf|].
    eapply dup_grows_trans; [apply dup_grows_printf|].
    eapply dup_grows_trans; [apply dup_grows_with_valid|].
    apply dup_grows_with_image.
  - eapply dup_grows_trans; [apply dup_grows_printf|].
    apply dup_grows_with_valid.
Qed.

Lemma dup_grows_walk do_fix ino :
  forall depth base s, dup_grows s (dup_walk depth do_fix ino base s).
Proof.
  induction depth as [|d IH]; intros base s; rewrite dup_walk_eq;
    apply (for_loop_ind (dup_grows s)); try apply dup_grows_refl;
    intros j t _ G; cbv zeta;
    (destruct (entry_get (fs_image t) base j =? 0); cbn [negb];
     [exact G|]).
  - eapply dup_grows_trans; [exact G|apply dup_grows_check_entry].
  - destruct (get_block _).
    + eapply dup_grows_trans; [exact G|].
      eapply dup_grows_trans; [apply dup_grows_check_entry|apply IH].
    + eapply dup_grows_trans; [exact G|apply dup_grows_check_entry].
Qed.

Lemma dup_grows_top do_fix i f t walk s :
  dup_grows s (dup_top do_fix i f t walk s).
Proof.
  unfold dup_top. cbv zeta.
  destruct (inode_get (fs_image s) i f =? 0); cbn [negb];
    [apply dup_grows_refl|].
  destruct (in_data_region _); [|apply dup_grows_refl].
  destruct (ref_seen s _).
  - destruct do_fix.
    + eapply dup_grows_trans; [apply dup_grows_with_valid|].
      eapply dup_grows_trans; [apply dup_grows_printf|].
      eapply dup_grows_trans; [apply dup_grows_printf|].
      apply dup_grows_with_image.
    + eapply dup_grows_trans; [apply dup_grows_with_valid|].
      apply dup_grows_printf.
  - destruct walk as [depth|]; [destruct (get_block _)|];
      try apply dup_grows_mark_ref.
    eapply dup_grows_trans; [apply dup_grows_mark_ref|apply dup_grows_walk].
Qed.

Lemma dup_grows_inode do_fix i s : dup_grows s (dup_inode do_fix i s).
Proof.
  unfold dup_inode. destruct (is_inode_valid _ _); cbn [negb];
    [|apply dup_grows_refl].
  do 3 (eapply dup_grows_trans; [|apply dup_grows_top]). apply dup_grows_top.
Qed.

Lemma in_data_region_range b :
  in_data_region b = true -> DATA_BLOCK_START_NUM <= b < TOTAL_BLOCKS.
Proof. unfold in_data_region. rewrite andb_true_iff. lia. Qed.

(** A slot that holds a block of the data region leaves the block seen. *)
Lemma dup_top_claims do_fix i f t walk s :
  in_data_region (inode_get (fs_image s) i f) = true ->
  length (block_ref_count s) = Z.to_nat TOTAL_BLOCKS ->
  ref_seen (dup_top do_fix i f t walk s) (inode_get (fs_image s) i f) = true.
Proof.
  intros R L. pose proof (in_data_region_range _ R) as Rb.
  unfold dup_top. cbv zeta. rewrite R.
  destruct (Z.eqb_spec (inode_get (fs_image s) i f) 0) as [E|_];
    [unfold DATA_BLOCK_START_NUM in Rb; lia|]. cbn [negb].
  destruct (ref_seen s (inode_get (fs_image s) i f)) eqn:Seen.
  - destruct do_fix; exact Seen.
  - assert (M : ref_seen (mark_ref (inode_get (fs_image s) i f) i s)
                  (inode_get (fs_image s) i f) = true).
    { apply mark_ref_seen. rewrite L.
      unfold TOTAL_BLOCKS, DATA_BLOCK_START_NUM in *. lia. }
    destruct walk as [depth|]; [destruct (get_block _)|]; try exact M.
    now apply (g_seen _ _ (dup_grows_walk do_fix i depth z _)).
Qed.

(** A slot that holds a block already seen is reported. *)
Lemma dup_top_reports i f t walk s :
  in_data_region (inode_get (fs_image s) i f) = true ->
  ref_seen s (inode_get (fs_image s) i f) = true ->
  dup_reported (inode_get (fs_image s) i f) (dup_top false i f t walk s).
Proof.
  intros R Seen. pose proof (in_data_region_range _ R) as Rb.
  unfold dup_top. cbv zeta. rewrite R, Seen.
  destruct (Z.eqb_spec (inode_get (fs_image s) i f) 0) as [E|_];
    [unfold DATA_BLOCK_START_NUM in Rb; lia|]. cbn [negb].
  split; [reflexivity|].
  exists t, (ref_owner (with_valid s false) (inode_get (fs_image s) i f)), i.
  cbn [stdout printf with_valid]. apply in_or_app. right. now left.
Qed.

Lemma dup_reported_stays b s s' :
  dup_reported b s -> dup_grows s s' -> quiet false s s' ->
  dup_reported b s'.
Proof.
  intros [V (tg & owner & ino & I)] G Q. split.
  - destruct (isValid s') eqn:E; [|reflexivity].
    destruct (q_valid _ _ _ Q E) as [V' _]. congruence.
  - exists tg, owner, ino. now apply (g_out _ _ G).
Qed.

(** ** The slots of one inode, in check-only mode *)

Lemma dup_inode_fold do_fix i s :
  is_inode_valid (fs_image s) i = true ->
  dup_inode do_fix i s = fold_left (dup_slot do_fix i) dup_slots s.
Proof. intros V. unfold dup_inode. now rewrite V. Qed.

Lemma dup_slot_check i x s :
  fs_image (dup_slot false i s x) = fs_image s
  /\ dup_grows s (dup_slot false i s x)
  /\ quiet false s (dup_slot false i s x).
Proof.
  unfold dup_slot. split; [|split].
  - apply (q_check _ _ _ (quiet_dup_top false i _ _ _ s)). reflexivity.
  - apply dup_grows_top.
  - apply quiet_dup_top.
Qed.

Lemma dup_slots_check i :
  forall l s,
    fs_image (fold_left (dup_slot false i) l s) = fs_image s
    /\ dup_grows s (fold_left (dup_slot false i) l s)
    /\ quiet false s (fold_left (dup_slot false i) l s).
Proof.
  induction l as [|x l IH]; intros s; cbn [fold_left].
  - split; [reflexivity|]. split; [apply dup_grows_refl|apply quiet_refl].
  - destruct (dup_slot_check i x s) as (I1 & G1 & Q1).
    destruct (IH (dup_slot false i s x)) as (I & G & Q).
    split; [congruence|]. split.
    + eapply dup_grows_trans; eassumption.
    + eapply quiet_trans; eassumption.
Qed.

Lemma dup_slots_claim i b :
  forall l s f tg w,
    In (f, tg, w) l ->
    inode_get (fs_image s) i f = b -> in_data_region b = true ->
    length (block_ref_count s) = Z.to_nat TOTAL_BLOCKS ->
    ref_seen (fold_left (dup_slot false i) l s) b = true.
Proof.
  induction l as [|x l IH]; intros s f tg w I E R L; [destruct I|].
  cbn [fold_left]. destruct (dup_slot_check i x s) as (I1 & G1 & _).
  destruct I as [->|I].
  - destruct (dup_slots_check i l (dup_slot false i s (f, tg, w)))
      as (_ & G & _).
    apply (g_seen _ _ G). unfold dup_slot. cbn [fst snd]. subst b.
    now apply dup_top_claims.
  - apply (IH _ f tg w I); [congruence|exact R|].
    rewrite (g_len _ _ G1). exact L.
Qed.

Lemma dup_slots_report i b :
  forall l s g tg w,
    In (g, tg, w) l ->
    inode_get (fs_image s) i g = b -> in_data_region b = true ->
    ref_seen s b = true ->
    dup_reported b (fold_left (dup_slot false i) l s).
Proof.
  induction l as [|x l IH]; intros s g tg w I E R Seen; [destruct I|].
  cbn [fold_left]. destruct (dup_slot_check i x s) as (I1 & G1 & _).
  destruct I as [->|I].
  - destruct (dup_slots_check i l (dup_slot false i s (g, tg, w)))
      as (_ & G & Q).
    apply (dup_reported_stays b _ _) with (2 := G) (3 := Q).
    unfold dup_slot. cbn [fst snd]. subst b. now apply dup_top_reports.
  - apply (IH _ g tg w I); [congruence|exact R|].
    now apply (g_seen _ _ G1).
Qed.

(** Two slots of one inode that hold the same block of the data region:
    the second one visited is reported. *)
Lemma dup_slots_self i b :
  forall l s f tf wf g tg wg,
    In (f, tf, wf) l -> In (g, tg, wg) l -> f <> g ->
    inode_get (fs_image s) i f = b -> inode_get (fs_image s) i g = b ->
    in_data_region b = true ->
    length (block_ref_count s) = Z.to_nat TOTAL_BLOCKS ->
    dup_reported b (fold_left (dup_slot false i) l s).
Proof.
  induction l as [|x l IH]; intros s f tf wf g tg wg If Ig N Ef Eg R L;
    [destruct If|].
  cbn [fold_left]. destruct (dup_slot_check i x s) as (I1 & G1 & _).
  assert (L1 : length (block_ref_count (dup_slot false i s x))
               = Z.to_nat TOTAL_BLOCKS) by (rewrite (g_len _ _ G1); exact L).
  destruct If as [->|If]; [|destruct Ig as [->|Ig]].
  - destruct Ig as [Ig|Ig]; [congruence|].
    apply (dup_slots_report i b l _ g tg wg Ig); [congruence|exact R|].
    unfold dup_slot. cbn [fst snd]. rewrite <- Ef.
    apply dup_top_claims; [rewrite Ef; exact R|exact L].
  - apply (dup_slots_report i b l _ f tf wf If); [congruence|exact R|].
    unfold dup_slot. cbn [fst snd]. rewrite <- Eg.
    apply dup_top_claims; [rewrite Eg; exact R|exact L].
  - apply (IH _ f tf wf g tg wg If Ig N); congruence.
Qed.

Lemma pointer_slot_in_dup_slots f :
  In f pointer_slots -> exists tg w, In (f, tg, w) dup_slots.
Proof.
  unfold pointer_slots, dup_slots. cbn [In].
  intros [<-|[<-|[<-|[<-|[]]]]]; eauto 8.
Qed.

(** ** The whole pass in check-only mode *)

Lemma dup_inode_check i s :
  fs_image (dup_inode false i s) = fs_image s
  /\ dup_grows s (dup_inode false i s)
  /\ quiet false s (dup_inode false i s).
Proof.
  split; [|split].
  - apply (q_check _ _ _ (quiet_dup_inode false i s)). reflexivity.
  - apply dup_grows_inode.
  - apply quiet_dup_inode.
Qed.

Lemma shared_pointer_reported_ordered (s : state) (i k : Z)
    (f g : inode_field) (b : Z) :
  0 <= i <= k -> k < INODE_COUNT -> (i, f) <> (k, g) ->
  In f pointer_slots -> In g pointer_slots ->
  is_inode_valid (fs_image s) i = true ->
  is_inode_valid (fs_image s) k = true ->
  inode_get (fs_image s) i f = b -> inode_get (fs_image s) k g = b ->
  in_data_region b = true ->
  dup_reported b (check_duplicate_blocks false true s).
Proof.
  intros Hik Hk N If Ig Vi Vk Ef Eg R.
  destruct (pointer_slot_in_dup_slots f If) as (tf & wf & Sf).
  destruct (pointer_slot_in_dup_slots g Ig) as (tg & wg & Sg).
  unfold check_duplicate_blocks. cbv zeta. cbn [negb].
  cbn [fs_image block_ref_count inode_refs isValid stdout printf with_valid].
  set (s0 := mkState (fs_image s) (replicate (Z.to_nat TOTAL_BLOCKS) false)
               (replicate (Z.to_nat TOTAL_BLOCKS) 0) true
               (stdout s ++ [MHeader PDuplicate])).
  assert (P : (fun j t =>
                 fs_image t = fs_image s
                 /\ length (block_ref_count t) = Z.to_nat TOTAL_BLOCKS
                 /\ (i < j -> ref_seen t b = true)
                 /\ (k < j -> dup_reported b t))
              INODE_COUNT (for_loop INODE_COUNT (dup_inode false) s0)).
  { apply for_loop_ind_idx.
    - unfold INODE_COUNT. lia.
    - split; [reflexivity|]. split; [apply length_replicate|]. split; lia.
    - intros j t Hj (I & L & Seen & Rep).
      destruct (dup_inode_check j t) as (I1 & G1 & Q1).
      split; [congruence|]. split; [rewrite (g_len _ _ G1); exact L|].
      split.
      + intros Hij. destruct (Z.eq_dec i j) as [<-|Nij].
        * rewrite dup_inode_fold by (rewrite I; exact Vi).
          apply (dup_slots_claim i b _ _ f tf wf Sf);
            [rewrite I; exact Ef|exact R|exact L].
        * apply (g_seen _ _ G1). apply Seen. lia.
      + intros Hkj. destruct (Z.eq_dec k j) as [<-|Nkj].
        * rewrite dup_inode_fold by (rewrite I; exact Vk).
          destruct (Z.eq_dec i k) as [->|Nik].
          -- apply (dup_slots_self k b _ _ f tf wf g tg wg Sf Sg);
               [congruence|rewrite I; exact Ef|rewrite I; exact Eg
               |exact R|exact L].
          -- apply (dup_slots_report k b _ _ g tg wg Sg);
               [rewrite I; exact Eg|exact R|apply Seen; lia].
        * apply (dup_reported_stays b t); [apply Rep; lia|exact G1|exact Q1]. }
  destruct P as (_ & _ & _ & Rep). apply Rep. lia.
Qed.

(** X16: the duplicate pass in check-only mode finds every block of the
    data region that two pointer slots of live inodes share, whether the
    two slots belong to two inodes or to one: the pass returns [false] and
    prints an ["Error:"] line that names the block. *)
Theorem X16_shared_pointer_detected (s : state) (i k : Z)
    (f g : inode_field) (b : Z) :
  0 <= i < INODE_COUNT -> 0 <= k < INODE_COUNT -> (i, f) <> (k, g) ->
  In f pointer_slots -> In g pointer_slots ->
  is_inode_valid (fs_image s) i = true ->
  is_inode_valid (fs_image s) k = true ->
  inode_get (fs_image s) i f = b -> inode_get (fs_image s) k g = b ->
  in_data_region b = true ->
  isValid (check_duplicate_blocks false true s) = false
  /\ exists tg owner ino,
       In (MDupError tg b owner ino)
         (stdout (check_duplicate_blocks false true s)).
Proof.
  intros Hi Hk N If Ig Vi Vk Ef Eg R.
  destruct (Z.le_ge_cases i k) as [H|H].
  - apply (shared_pointer_reported_ordered s i k f g b); auto; lia.
  - apply (shared_pointer_reported_ordered s k i g f b); auto; lia.
Qed.

Lemma X16_shared_pointer_detected_witness :
  0 <= 0 < INODE_COUNT /\ 0 <= 1 < INODE_COUNT
  /\ (0, i_direct_block) <> (1, i_direct_block)
  /\ In i_direct_block pointer_slots
  /\ is_inode_valid (fs_image (pristine shared_direct_image)) 0 = true
  /\ is_inode_valid (fs_image (pristine shared_direct_image)) 1 = true
  /\ inode_get (fs_image (pristine shared_direct_image)) 0 i_direct_block = 9
  /\ inode_get (fs_image (pristine shared_direct_image)) 1 i_direct_block = 9
  /\ in_data_region 9 = true
  /\ isValid (check_duplicate_blocks false true (pristine shared_direct_image))
     = false.
Proof.
  assert (R0 : 0 <= 0 < INODE_COUNT) by (unfold INODE_COUNT; lia).
  assert (R1 : 0 <= 1 < INODE_COUNT) by (unfold INODE_COUNT; lia).
  assert (N : (0, i_direct_block) <> (1, i_direct_block)) by discriminate.
  assert (I : In i_direct_block pointer_slots) by (left; reflexivity).
  assert (V0 : is_inode_valid (fs_image (pristine shared_direct_image)) 0
               = true) by (vm_compute; reflexivity).
  assert (V1 : is_inode_valid (fs_image (pristine shared_direct_image)) 1
               = true) by (vm_compute; reflexivity).
  assert (E0 : inode_get (fs_image (pristine shared_direct_image)) 0
                 i_direct_block = 9) by (vm_compute; reflexivity).
  assert (E1 : inode_get (fs_image (pristine shared_direct_image)) 1
                 i_direct_block = 9) by (vm_compute; reflexivity).
  assert (D : in_data_region 9 = true) by reflexivity.
  exact (conj R0 (conj R1 (conj N (conj I (conj V0 (conj V1 (conj E0
           (conj E1 (conj D
              (proj1 (X16_shared_pointer_detected
                        (pristine shared_direct_image) 0 1 i_direct_block
                        i_direct_block 9 R0 R1 N I I V0 V1 E0 E1 D))))))))))).
Defined.

(** ** Images without indirect blocks *)

Lemma ref_seen_mark_ref blk ino s b :
  DATA_BLOCK_START_NUM <= blk ->
  ref_seen (mark_ref blk ino s) b = true ->
  b = blk \/ ref_seen s b = true.
Proof.
  intros Hb. unfold ref_seen, mark_ref. cbn [block_ref_count].
  destruct (Nat.eq_dec (Z.to_nat blk) (Z.to_nat b)) as [E|N].
  - intros _. left. unfold DATA_BLOCK_START_NUM in Hb. lia.
  - rewrite list_lookup_insert_ne by exact N. auto.
Qed.

Lemma dup_top_absent do_fix i f t walk s :
  inode_get (fs_image s) i f = 0 -> dup_top do_fix i f t walk s = s.
Proof. intros E. unfold dup_top. cbv zeta. now rewrite E. Qed.

(** The direct slot in check-only mode: the block it holds is the only
    block that can become seen, and the pass can only turn to [false] when
    that block had been seen before. *)
Lemma dup_top_direct_check i s :
  fs_image (dup_top false i i_direct_block TagPlain None s) = fs_image s
  /\ (forall b,
        ref_seen (dup_top false i i_direct_block TagPlain None s) b = true ->
        ref_seen s b = true
        \/ (b = inode_get (fs_image s) i i_direct_block
            /\ in_data_region b = true))
  /\ (isValid (dup_top false i i_direct_block TagPlain None s) = false ->
      isValid s = false
      \/ (in_data_region (inode_get (fs_image s) i i_direct_block) = true
          /\ ref_seen s (inode_get (fs_image s) i i_direct_block) = true)).
Proof.
  unfold dup_top. cbv zeta.
  destruct (inode_get (fs_image s) i i_direct_block =? 0); cbn [negb];
    [auto|].
  destruct (in_data_region (inode_get (fs_image s) i i_direct_block)) eqn:R;
    [|auto].
  destruct (ref_seen s (inode_get (fs_image s) i i_direct_block)) eqn:Seen.
  - cbn [fs_image isValid printf with_valid]. split; [reflexivity|].
    split; [intros b Hb; left; exact Hb|]. auto.
  - cbn [fs_image isValid mark_ref]. split; [reflexivity|]. split; [|auto].
    intros b Hb.
    apply ref_seen_mark_ref in Hb;
      [|apply in_data_region_range in R; lia].
    destruct Hb as [->|Hb]; [right; auto|left; exact Hb].
Qed.

Lemma direct_only_inode i s :
  direct_only (fs_image s) i = true ->
  dup_inode false i s
  = if is_inode_valid (fs_image s) i
    then dup_top false i i_direct_block TagPlain None s
    else s.
Proof.
  unfold direct_only, dup_inode.
  destruct (is_inode_valid (fs_image s) i); cbn [negb orb]; [|reflexivity].
  rewrite !andb_true_iff, !Z.eqb_eq. intros [[E1 E2] E3].
  destruct (dup_top_direct_check i s) as (I & _ & _).
  rewrite (dup_top_absent false i i_single_indirect TagSingle (Some 0%nat))
    by (rewrite I; exact E1).
  rewrite (dup_top_absent false i i_double_indirect TagDouble (Some 1%nat))
    by (rewrite I; exact E2).
  rewrite (dup_top_absent false i i_triple_indirect TagTriple (Some 2%nat))
    by (rewrite I; exact E3).
  reflexivity.
Qed.

Lemma direct_only_sound (s : state) :
  (forall i, 0 <= i < INODE_COUNT -> direct_only (fs_image s) i = true) ->
  isValid (check_duplicate_blocks false true s) = false ->
  shared_direct (fs_image s) INODE_COUNT.
Proof.
  intros Hd.
  unfold check_duplicate_blocks. cbv zeta. cbn [negb].
  cbn [fs_image block_ref_count inode_refs isValid stdout printf with_valid].
  set (s0 := mkState (fs_image s) (replicate (Z.to_nat TOTAL_BLOCKS) false)
               (replicate (Z.to_nat TOTAL_BLOCKS) 0) true
               (stdout s ++ [MHeader PDuplicate])).
  assert (P : (fun j t =>
                 fs_image t = fs_image s
                 /\ (forall b, ref_seen t b = true ->
                       exists i, 0 <= i < j
                                 /\ is_inode_valid (fs_image s) i = true
                                 /\ inode_get (fs_image s) i i_direct_block = b
                                 /\ in_data_region b = true)
                 /\ (isValid t = false -> shared_direct (fs_image s) j))
              INODE_COUNT (for_loop INODE_COUNT (dup_inode false) s0)).
  { apply for_loop_ind_idx.
    - unfold INODE_COUNT. lia.
    - split; [reflexivity|]. split; [|discriminate].
      intros b Hb. unfold ref_seen, s0 in Hb. cbn [block_ref_count] in Hb.
      destruct (replicate (Z.to_nat TOTAL_BLOCKS) false !! Z.to_nat b) eqn:L;
        [|discriminate].
      apply lookup_replicate in L as [-> _]. discriminate.
    - intros j t Hj (I & Seen & Bad).
      rewrite direct_only_inode by (rewrite I; now apply Hd).
      rewrite I.
      destruct (is_inode_valid (fs_image s) j) eqn:V.
      + destruct (dup_top_direct_check j t) as (I1 & S1 & V1).
        rewrite I in S1, V1.
        split; [congruence|]. split.
        * intros b Hb. destruct (S1 b Hb) as [Old|[-> R]].
          -- destruct (Seen b Old) as (i & Hi & Rest).
             exists i. split; [lia|exact Rest].
          -- exists j. split; [lia|]. auto.
        * intros Hv. destruct (V1 Hv) as [Old|[R Sn]].
          -- destruct (Bad Old) as (i & k & Hik & Hk & Rest).
             exists i, k. split; [lia|]. split; [lia|exact Rest].
          -- destruct (Seen _ Sn) as (i & Hi & Vi & Ei & Ri).
             exists i, j. split; [lia|]. split; [lia|].
             rewrite Ei. auto.
      + split; [exact I|]. split.
        * intros b Hb. destruct (Seen b Hb) as (i & Hi & Rest).
          exists i. split; [lia|exact Rest].
        * intros Hv. destruct (Bad Hv) as (i & k & Hik & Hk & Rest).
          exists i, k. split; [lia|]. split; [lia|exact Rest]. }
  destruct P as (_ & _ & Bad). exact Bad.
Qed.

(** X29: on an image whose live inodes use no indirect block, the
    duplicate pass in check-only mode is exact: it returns [false] if and
    only if two live inodes have the same block of the data region as
    their direct block. *)
Theorem X29_direct_only_exact (s : state) :
  (forall i, 0 <= i < INODE_COUNT -> direct_only (fs_image s) i = true) ->
  (isValid (check_duplicate_blocks false true s) = false <->
     shared_direct (fs_image s) INODE_COUNT).
Proof.
  intros Hd. split; [now apply direct_only_sound|].
  intros (i & k & Hik & Hk & Vi & Vk & R & E).
  apply (shared_pointer_reported_ordered s i k i_direct_block i_direct_block
           (inode_get (fs_image s) i i_direct_block));
    try assumption; try (left; reflexivity); try lia; try (now symmetry).
  intros Q. inversion Q. lia.
Qed.

Lemma direct_only_all (img : image) :
  forallb (direct_only img) (seqZ 0 INODE_COUNT) = true ->
  forall i, 0 <= i < INODE_COUNT -> direct_only img i = true.
Proof.
  intros H i Hi. rewrite forallb_forall in H. apply H.
  apply list_elem_of_In, elem_of_seqZ. lia.
Qed.

Lemma X29_direct_only_exact_witness :
  (forall i, 0 <= i < INODE_COUNT ->
     direct_only (fs_image (pristine shared_direct_image)) i = true)
  /\ (isValid (check_duplicate_blocks false true
                 (pristine shared_direct_image)) = false <->
        shared_direct (fs_image (pristine shared_direct_image)) INODE_COUNT).
Proof.
  assert (A : forallb (direct_only (fs_image (pristine shared_direct_image)))
                (seqZ 0 INODE_COUNT) = true) by (vm_compute; reflexivity).
  exact (conj (direct_only_all _ A)
           (X29_direct_only_exact (pristine shared_direct_image)
              (direct_only_all _ A))).
Defined.

(** * What is printed and what is returned *)

Lemma reports_refl s : reports s s.
Proof. exists []. cbn. now rewrite app_nil_r, andb_true_r. Qed.

Lemma reports_trans s1 s2 s3 :
  reports s1 s2 -> reports s2 s3 -> reports s1 s3.
Proof.
  intros (e1 & O1 & V1) (e2 & O2 & V2). exists (e1 ++ e2). split.
  - now rewrite O2, O1, app_assoc.
  - rewrite V2, V1, existsb_app, negb_orb. now rewrite andb_assoc.
Qed.

Lemma reports_for_loop (body : Z -> state -> state) n s :
  (forall j t, 0 <= j < n -> reports t (body j t)) ->
  reports s (for_loop n body s).
Proof.
  intros H. apply (for_loop_ind (reports s)); [apply reports_refl|].
  intros j t Hj Ht. eapply reports_trans; [exact Ht|]. now apply H.
Qed.

(** Closes a [reports] obligation of a straight-line step once its
    branches have been separated. *)
Ltac reports_step :=
  first
    [ apply reports_refl
    | eexists; cbn [stdout isValid printf with_valid with_image];
      split;
      [ rewrite <- ?app_assoc; reflexivity
      | cbn; rewrite ?andb_false_r, ?andb_true_r; reflexivity ] ].

Lemma reports_check_sb_field do_fix f s :
  reports s (check_sb_field do_fix f s).
Proof.
  unfold check_sb_field. cbv zeta.
  destruct (sb_load (fs_image s) f =? sb_expected f); cbn [negb];
    [|destruct do_fix]; reports_step.
Qed.

Lemma reports_reconcile_data_bit do_fix used i s :
  reports s (reconcile_data_bit do_fix used i s).
Proof.
  unfold reconcile_data_bit. cbv zeta.
  destruct (used_at used i), (is_bit_set (fs_image s) data_bitmap i);
    cbn [negb andb]; try destruct do_fix; reports_step.
Qed.

Lemma reports_reconcile_inode_bit do_fix i s :
  reports s (reconcile_inode_bit do_fix i s).
Proof.
  unfold reconcile_inode_bit. cbv zeta.
  destruct (is_inode_valid (fs_image s) i),
    (is_bit_set (fs_image s) inode_bitmap i);
    cbn [negb andb]; try destruct do_fix; reports_step.
Qed.

Lemma reports_mark_ref blk ino s : reports s (mark_ref blk ino s).
Proof. exists []. cbn. now rewrite app_nil_r, andb_true_r. Qed.

Lemma reports_dup_check_entry do_fix ino base j v s :
  reports s (dup_check_entry do_fix ino base j v s).
Proof.
  unfold dup_check_entry, check_data_block_for_duplicates.
  destruct (in_data_region v); [destruct (ref_seen s v)|]; cbn [negb];
    try apply reports_mark_ref; try destruct do_fix; reports_step.
Qed.

Lemma reports_dup_walk do_fix ino :
  forall depth base s, reports s (dup_walk depth do_fix ino base s).
Proof.
  induction depth as [|d IH]; intros base s; rewrite dup_walk_eq;
    apply reports_for_loop; intros j t _; cbv zeta;
    destruct (entry_get (fs_image t) base j =? 0); cbn [negb];
    try apply reports_refl; try apply reports_dup_check_entry.
  destruct (get_block _).
  - eapply reports_trans; [apply reports_dup_check_entry|apply IH].
  - apply reports_dup_check_entry.
Qed.

Lemma reports_dup_top do_fix i f t walk s :
  reports s (dup_top do_fix i f t walk s).
Proof.
  unfold dup_top. cbv zeta.
  destruct (inode_get (fs_image s) i f =? 0); cbn [negb];
    [apply reports_refl|].
  destruct (in_data_region _); [|apply reports_refl].
  destruct (ref_seen s _).
  - destruct do_fix; reports_step.
  - destruct walk as [depth|]; [destruct (get_block _)|];
      try apply reports_mark_ref.
    eapply reports_trans; [apply reports_mark_ref|apply reports_dup_walk].
Qed.

Lemma reports_dup_inode do_fix i s : reports s (dup_inode do_fix i s).
Proof.
  unfold dup_inode. destruct (is_inode_valid _ _); cbn [negb];
    [|apply reports_refl].
  do 3 (eapply reports_trans; [|apply reports_dup_top]). apply reports_dup_top.
Qed.

Lemma reports_bad_walk do_fix top i :
  forall depth base s, reports s (bad_walk depth do_fix top i base s).
Proof.
  induction depth as [|d IH]; intros base s; rewrite bad_walk_eq;
    apply reports_for_loop; intros j t _; cbv zeta;
    (destruct (entry_get (fs_image t) base j >=? TOTAL_BLOCKS);
     [destruct do_fix; reports_step|]).
  - apply reports_refl.
  - destruct (entry_get (fs_image t) base j =? 0); cbn [negb];
      [apply reports_refl|].
    destruct (get_block _); [apply IH|apply reports_refl].
Qed.

Lemma reports_bad_top do_fix i f walk s :
  reports s (bad_top do_fix i f walk s).
Proof.
  unfold bad_top. cbv zeta.
  destruct (inode_get (fs_image s) i f >=? TOTAL_BLOCKS);
    [destruct do_fix; reports_step|].
  destruct walk as [depth|]; [|apply reports_refl].
  destruct (inode_get (fs_image s) i f =? 0); cbn [negb];
    [apply reports_refl|].
  destruct (get_block _); [apply reports_bad_walk|apply reports_refl].
Qed.

Lemma reports_bad_inode do_fix i s : reports s (bad_inode do_fix i s).
Proof.
  unfold bad_inode. destruct (is_inode_valid _ _); cbn [negb];
    [|apply reports_refl].
  do 3 (eapply reports_trans; [|apply reports_bad_top]). apply reports_bad_top.
Qed.

(** A pass starts by setting [isValid] and printing its banner, which is
    no alarm; what it returns then depends on its own lines alone. *)
Lemma pass_reports_intro (p : pass) (s s0 s' : state) :
  stdout s0 = stdout s ++ [MHeader p] -> isValid s0 = true ->
  reports s0 s' ->
  exists ext, stdout s' = stdout s ++ ext
              /\ isValid s' = negb (existsb is_alarm ext).
Proof.
  intros O V (ext & O' & V'). exists ([MHeader p] ++ ext). split.
  - now rewrite O', O, <- app_assoc.
  - rewrite V', V. reflexivity.
Qed.

Lemma validate_superblock_reports (do_fix : bool) (s : state) :
  exists ext, stdout (validate_superblock do_fix s) = stdout s ++ ext
              /\ isValid (validate_superblock do_fix s)
                 = negb (existsb is_alarm ext).
Proof.
  unfold validate_superblock. cbv zeta.
  apply (pass_reports_intro PSuperblock s
           (printf (MHeader PSuperblock) (with_valid s true)));
    [reflexivity|reflexivity|].
  do 8 (eapply reports_trans; [|apply reports_check_sb_field]).
  apply reports_check_sb_field.
Qed.

Lemma validate_data_bitmap_reports (do_fix c : bool) (s : state) :
  exists ext, stdout (validate_data_bitmap do_fix c s) = stdout s ++ ext
              /\ isValid (validate_data_bitmap do_fix c s)
                 = negb (existsb is_alarm ext).
Proof.
  unfold validate_data_bitmap. cbv zeta.
  apply (pass_reports_intro PDataBitmap s
           (with_valid (printf (MHeader PDataBitmap) s) true));
    [reflexivity|reflexivity|].
  destruct c; cbn [negb].
  - eapply reports_trans;
      [|apply reports_for_loop; intros; apply reports_reconcile_data_bit].
    reports_step.
  - reports_step.
Qed.

Lemma validate_inode_bitmap_reports (do_fix : bool) (s : state) :
  exists ext, stdout (validate_inode_bitmap do_fix s) = stdout s ++ ext
              /\ isValid (validate_inode_bitmap do_fix s)
                 = negb (existsb is_alarm ext).
Proof.
  unfold validate_inode_bitmap. cbv zeta.
  apply (pass_reports_intro PInodeBitmap s
           (with_valid (printf (MHeader PInodeBitmap) s) true));
    [reflexivity|reflexivity|].
  apply reports_for_loop; intros; apply reports_reconcile_inode_bit.
Qed.

Lemma check_duplicate_blocks_reports (do_fix c : bool) (s : state) :
  exists ext, stdout (check_duplicate_blocks do_fix c s) = stdout s ++ ext
              /\ isValid (check_duplicate_blocks do_fix c s)
                 = negb (existsb is_alarm ext).
Proof.
  unfold check_duplicate_blocks. cbv zeta.
  apply (pass_reports_intro PDuplicate s
           (with_valid (printf (MHeader PDuplicate) s) true));
    [reflexivity|reflexivity|].
  destruct c; cbn [negb].
  - eapply reports_trans;
      [|apply reports_for_loop; intros; apply reports_dup_inode].
    reports_step.
  - reports_step.
Qed.

Lemma check_bad_blocks_alarms (do_fix : bool) (s : state) :
  exists ext, stdout (check_bad_blocks do_fix s) = stdout s ++ ext
              /\ isValid (check_bad_blocks do_fix s)
                 = negb (existsb is_alarm ext).
Proof.
  unfold check_bad_blocks. cbv zeta.
  apply (pass_reports_intro PBadBlock s
           (with_valid (printf (MHeader PBadBlock) s) true));
    [reflexivity|reflexivity|].
  apply reports_for_loop; intros; apply reports_bad_inode.
Qed.

Lemma chain_reports (s s1 s2 s3 s4 s5 : state) :
  (exists ext, stdout s1 = stdout s ++ ext
               /\ isValid s1 = negb (existsb is_alarm ext)) ->
  (exists ext, stdout s2 = stdout s1 ++ ext
               /\ isValid s2 = negb (existsb is_alarm ext)) ->
  (exists ext, stdout s3 = stdout s2 ++ ext
               /\ isValid s3 = negb (existsb is_alarm ext)) ->
  (exists ext, stdout s4 = stdout s3 ++ ext
               /\ isValid s4 = negb (existsb is_alarm ext)) ->
  (exists ext, stdout s5 = stdout s4 ++ ext
               /\ isValid s5 = negb (existsb is_alarm ext)) ->
  exists ext, stdout s5 = stdout s ++ ext
              /\ isValid s1 && isValid s2 && isValid s3 && isValid s4
                 && isValid s5 = negb (existsb is_alarm ext).
Proof.
  intros (e1 & O1 & V1) (e2 & O2 & V2) (e3 & O3 & V3) (e4 & O4 & V4)
    (e5 & O5 & V5).
  exists (e1 ++ e2 ++ e3 ++ e4 ++ e5). split.
  - rewrite O5, O4, O3, O2, O1. now rewrite <- !app_assoc.
  - rewrite V1, V2, V3, V4, V5. rewrite !existsb_app, !negb_orb.
    now rewrite !andb_assoc.
Qed.

Lemma run_passes_reports (do_fix c1 c2 : bool) (s : state) :
  exists ext,
    stdout (fst (run_passes do_fix c1 c2 s)) = stdout s ++ ext
    /\ fs_valid (snd (run_passes do_fix c1 c2 s))
       = negb (existsb is_alarm ext).
Proof.
  rewrite run_passes_state, run_passes_verdicts. cbv zeta.
  rewrite fs_valid_mk.
  apply (chain_reports s
           (validate_superblock do_fix s)
           (validate_data_bitmap do_fix c1 (validate_superblock do_fix s))).
  - apply validate_superblock_reports.
  - apply validate_data_bitmap_reports.
  - apply validate_inode_bitmap_reports.
  - apply check_duplicate_blocks_reports.
  - apply check_bad_blocks_alarms.
Qed.

(** * The passes as a family, and the orchestrator *)

(** X17: what every pass respects, whatever it finds.  The buffer keeps
    its length; the banner of the pass is printed once; in check-only mode
    the buffer is not written; and a pass that returns [true] has printed
    no ["Error:"] line and has not written the buffer, in repair mode
    either. *)
Theorem X17_pass_effect (p : pass) (do_fix c : bool) (s : state) :
  pass_effect p do_fix s (run_pass p do_fix c s).
Proof.
  destruct p; unfold run_pass.
  - apply validate_superblock_effect.
  - apply validate_data_bitmap_effect.
  - apply validate_inode_bitmap_effect.
  - apply check_duplicate_blocks_effect.
  - apply check_bad_blocks_effect.
Qed.

(** X18: a pass that finds nothing behaves in repair mode exactly as in
    check-only mode: when the check-only pass returns [true], the repair
    pass ends in the same state, output included. *)
Theorem X18_clean_pass_same_in_both_modes (p : pass) (c : bool) (s : state) :
  isValid (run_pass p false c s) = true ->
  run_pass p true c s = run_pass p false c s.
Proof.
  destruct p; unfold run_pass.
  - apply validate_superblock_agree.
  - apply validate_data_bitmap_agree.
  - apply validate_inode_bitmap_agree.
  - apply check_duplicate_blocks_agree.
  - apply check_bad_blocks_agree.
Qed.

Lemma X18_clean_pass_same_in_both_modes_witness :
  isValid (run_pass PSuperblock false true
             (pristine (format_superblock blank_image))) = true
  /\ run_pass PSuperblock true true (pristine (format_superblock blank_image))
     = run_pass PSuperblock false true
         (pristine (format_superblock blank_image)).
Proof.
  assert (A : isValid (run_pass PSuperblock false true
                         (pristine (format_superblock blank_image))) = true)
    by (vm_compute; reflexivity).
  exact (conj A
           (X18_clean_pass_same_in_both_modes PSuperblock true
              (pristine (format_superblock blank_image)) A)).
Defined.

(** X19: a pass returns [false] exactly when it has printed an alarm, that
    is an ["Error:"] line or ["Memory allocation failed"]; its lines are
    appended to what was printed before. *)
Theorem X19_pass_verdict_matches_output (p : pass) (do_fix c : bool)
    (s : state) :
  exists ext,
    stdout (run_pass p do_fix c s) = stdout s ++ ext
    /\ isValid (run_pass p do_fix c s) = negb (existsb is_alarm ext).
Proof.
  destruct p; unfold run_pass.
  - apply validate_superblock_reports.
  - apply validate_data_bitmap_reports.
  - apply validate_inode_bitmap_reports.
  - apply check_duplicate_blocks_reports.
  - apply check_bad_blocks_alarms.
Qed.

Lemma stdout_print_summary post v s :
  stdout (print_summary post v s)
  = stdout s
    ++ [MSummaryHeader post; MSummary post PSuperblock (sb_valid v);
        MSummary post PDataBitmap (data_bitmap_valid v);
        MSummary post PInodeBitmap (inode_bitmap_valid v);
        MSummary post PDuplicate (no_duplicates v);
        MSummary post PBadBlock (no_bad_blocks v)]
    ++ [MOverall post (fs_valid v)].
Proof.
  unfold print_summary. cbv zeta. cbn [stdout printf].
  now rewrite <- !app_assoc.
Qed.

Lemma stdout_boot_state e :
  stdout (boot_state e)
  = [MBanner; MImageName (nth 1 (argv e) EmptyString);
     MMode (fix_requested e)].
Proof. reflexivity. Qed.

(** The output of a run that is not re-audited. *)
Lemma main_output_no_rerun (e : env) :
  startup_failure e = false -> rerun e = false ->
  exists ext,
    std_out (main e)
    = [MBanner; MImageName (nth 1 (argv e) EmptyString);
       MMode (fix_requested e)]
      ++ ext
      ++ [MSummaryHeader false;
          MSummary false PSuperblock (sb_valid (snd (first_round e)));
          MSummary false PDataBitmap (data_bitmap_valid (snd (first_round e)));
          MSummary false PInodeBitmap (inode_bitmap_valid (snd (first_round e)));
          MSummary false PDuplicate (no_duplicates (snd (first_round e)));
          MSummary false PBadBlock (no_bad_blocks (snd (first_round e)))]
      ++ [MOverall false (negb (existsb is_alarm ext))]
    /\ fs_valid (snd (first_round e)) = negb (existsb is_alarm ext).
Proof.
  intros Hs Hr. rewrite (main_started e Hs). cbv zeta. rewrite Hr.
  cbn [std_out]. rewrite stdout_print_summary.
  destruct (run_passes_reports (fix_requested e) (calloc_ok e 1%nat)
              (calloc_ok e 2%nat) (boot_state e)) as (ext & O & V).
  fold (first_round e) in O, V. exists ext. split; [|exact V].
  rewrite O, V, stdout_boot_state. now rewrite <- !app_assoc.
Qed.

(** X20: a run that is not re-audited, that is every check-only run and
    every repair run whose passes all return [true].  Its output starts
    with the three lines of the banner and ends with the overall status,
    and the status is CONSISTENT exactly when the output holds no alarm:
    no ["Error:"] line and no ["Memory allocation failed"]. *)
Theorem X20_status_matches_output (e : env) :
  startup_failure e = false -> rerun e = false ->
  (exists rest,
     std_out (main e)
     = [MBanner; MImageName (nth 1 (argv e) EmptyString);
        MMode (fix_requested e)] ++ rest)
  /\ last (std_out (main e))
     = Some (MOverall false (negb (existsb is_alarm (std_out (main e))))).
Proof.
  intros Hs Hr. destruct (main_output_no_rerun e Hs Hr) as (ext & O & _).
  rewrite O. split; [eexists; reflexivity|].
  rewrite !existsb_app. cbn [existsb is_alarm is_finding orb].
  rewrite !orb_false_r. now rewrite !app_assoc, last_snoc.
Qed.

Lemma X20_status_matches_output_witness :
  startup_failure (env_for check_args blank_image) = false
  /\ rerun (env_for check_args blank_image) = false
  /\ last (std_out (main (env_for check_args blank_image)))
     = Some (MOverall false
               (negb (existsb is_alarm
                        (std_out (main (env_for check_args blank_image)))))).
Proof.
  assert (A : startup_failure (env_for check_args blank_image) = false)
    by (vm_compute; reflexivity).
  assert (F : fix_requested (env_for check_args blank_image) = false)
    by (vm_compute; reflexivity).
  assert (B : rerun (env_for check_args blank_image) = false)
    by (unfold rerun; rewrite F; reflexivity).
  exact (conj A (conj B
           (proj2 (X20_status_matches_output
                     (env_for check_args blank_image) A B)))).
Defined.

Lemma fix_requested_iff (e : env) :
  fix_requested e = true <->
  length (argv e) = 3%nat /\ nth 2 (argv e) EmptyString = "--fix"%string.
Proof.
  unfold fix_requested, argc. rewrite andb_true_iff, Z.eqb_eq, String.eqb_eq.
  split; intros [A B]; (split; [lia|exact B]).
Qed.

(** X21: only the exact third argument [--fix] asks for repair.  With two
    arguments, or with any other third argument, the run is a check-only
    run and says so in its third line; it leaves the buffer and the file
    as they were and makes no [fwrite]. *)
Theorem X21_only_exact_flag_repairs (e : env) :
  startup_failure e = false ->
  nth 2 (argv e) EmptyString <> "--fix"%string ->
  nth_error (std_out (main e)) 2 = Some (MMode false)
  /\ final_buffer (main e) = Some (file_content e)
  /\ file_after (main e) = file_content e
  /\ write_count (sys_calls (main e)) = 0%nat.
Proof.
  intros Hs Hn.
  assert (F : fix_requested e = false).
  { destruct (fix_requested e) eqn:E; [|reflexivity].
    apply fix_requested_iff in E. tauto. }
  assert (R : rerun e = false) by (unfold rerun; now rewrite F).
  destruct (main_output_no_rerun e Hs R) as (ext & O & _).
  split; [rewrite O, F; reflexivity|].
  split.
  - rewrite (main_final_buffer e Hs). apply (f_equal Some).
    unfold first_round. rewrite F. apply run_passes_check_only.
  - rewrite (main_started e Hs). cbv zeta. rewrite R.
    split; reflexivity.
Qed.

Lemma X21_only_exact_flag_repairs_witness :
  startup_failure (env_for other_flag_args blank_image) = false
  /\ nth 2 (argv (env_for other_flag_args blank_image)) EmptyString
     <> "--fix"%string
  /\ file_after (main (env_for other_flag_args blank_image))
     = file_content (env_for other_flag_args blank_image).
Proof.
  assert (A : startup_failure (env_for other_flag_args blank_image) = false)
    by (vm_compute; reflexivity).
  assert (B : nth 2 (argv (env_for other_flag_args blank_image)) EmptyString
              <> "--fix"%string) by (cbn; discriminate).
  exact (conj A (conj B
           (proj1 (proj2 (proj2
              (X21_only_exact_flag_repairs
                 (env_for other_flag_args blank_image) A B)))))).
Defined.

(** X22: the image file is closed exactly once on every path on which it
    was opened, and [fclose] is then the last call the program makes; on
    the two paths without a successful [fopen] there is no [fclose]. *)
Theorem X22_file_closed_once (e : env) :
  if negb (usage_error e) && fopen_ok e
  then close_count (sys_calls (main e)) = 1%nat
       /\ last (sys_calls (main e)) = Some SysFclose
  else close_count (sys_calls (main e)) = 0%nat.
Proof.
  destruct (usage_error e) eqn:U; cbn [negb andb].
  { unfold main. cbv zeta. fold (argc e). unfold usage_error in U.
    rewrite U. reflexivity. }
  destruct (fopen_ok e) eqn:Fo.
  2:{ unfold main. cbv zeta. fold (argc e). unfold usage_error in U.
      rewrite U, Fo. reflexivity. }
  destruct (image_len (file_content e) =? IMAGE_SIZE) eqn:Sz,
    (malloc_ok e) eqn:Ma, (fread_ok e) eqn:Fr, (calloc_ok e 0%nat) eqn:Ca;
    [ assert (S : startup_failure e = false)
        by (unfold startup_failure, size_mismatch;
            now rewrite U, Fo, Sz, Ma, Fr, Ca);
      rewrite (main_started e S); cbv zeta;
      destruct (rerun e); cbn [sys_calls]; split; reflexivity
    | unfold main; cbv zeta; fold (argc e); unfold usage_error in U;
      rewrite U, Fo, Sz, ?Ma, ?Fr, ?Ca; cbn [negb]; split; reflexivity .. ].
Qed.

Lemma passes_run_app (a b : list msg) :
  passes_run (a ++ b) = passes_run a ++ passes_run b.
Proof. unfold passes_run. apply List.flat_map_app. Qed.

(** One round of passes from a state [s]: its lines, with the five
    banners among them, and its verdict. *)
Lemma run_passes_lines (do_fix c1 c2 : bool) (s : state) :
  exists ext,
    stdout (fst (run_passes do_fix c1 c2 s)) = stdout s ++ ext
    /\ passes_run ext = code_order
    /\ fs_valid (snd (run_passes do_fix c1 c2 s))
       = negb (existsb is_alarm ext).
Proof.
  destruct (run_passes_reports do_fix c1 c2 s) as (ext & O & V).
  exists ext. split; [exact O|]. split; [|exact V].
  pose proof (run_passes_banners do_fix c1 c2 s) as B.
  rewrite O, passes_run_app in B. now apply app_inv_head in B.
Qed.

(** X28: the output of a re-audited run, that is a [--fix] run in which
    some pass of the first round returned [false].  It consists of the
    three banner lines, the lines of the first round, which hold an alarm,
    the summary with the status ERRORS DETECTED, the header of the
    re-audit, the lines of the second round, and the post-fix summary.
    The post-fix status is CONSISTENT exactly when the second round
    printed no alarm; otherwise the warning follows it.  Each round
    prints the five banners in the order of the calls. *)
Theorem X28_reaudited_output (e : env) :
  startup_failure e = false -> rerun e = true ->
  exists ext1 ext2,
    existsb is_alarm ext1 = true
    /\ passes_run ext1 = code_order /\ passes_run ext2 = code_order
    /\ std_out (main e)
       = [MBanner; MImageName (nth 1 (argv e) EmptyString); MMode true]
         ++ ext1
         ++ summary_lines false (snd (first_round e))
         ++ [MOverall false false; MRecheckHeader]
         ++ ext2
         ++ summary_lines true (snd (second_round e))
         ++ [MOverall true (negb (existsb is_alarm ext2))]
         ++ (if existsb is_alarm ext2 then [MWarning] else []).
Proof.
  intros Hs Hr.
  assert (F : fix_requested e = true /\ fs_valid (snd (first_round e)) = false).
  { unfold rerun in Hr. apply andb_true_iff in Hr as [A B].
    split; [exact A|]. now apply negb_true_iff in B. }
  destruct F as [F V1].
  destruct (run_passes_lines (fix_requested e) (calloc_ok e 1%nat)
              (calloc_ok e 2%nat) (boot_state e)) as (ext1 & O1 & B1 & A1).
  fold (first_round e) in O1, A1.
  destruct (run_passes_lines false (calloc_ok e 3%nat) (calloc_ok e 4%nat)
              (printf MRecheckHeader
                 (print_summary false (snd (first_round e))
                    (fst (first_round e))))) as (ext2 & O2 & B2 & A2).
  fold (second_round e) in O2, A2.
  exists ext1, ext2.
  split; [rewrite A1 in V1; now apply negb_false_iff in V1|].
  split; [exact B1|]. split; [exact B2|].
  rewrite (main_started e Hs). cbv zeta. rewrite Hr. cbn [std_out].
  assert (S2 : stdout (print_summary true (snd (second_round e))
                         (fst (second_round e)))
               = [MBanner; MImageName (nth 1 (argv e) EmptyString); MMode true]
                 ++ ext1
                 ++ summary_lines false (snd (first_round e))
                 ++ [MOverall false false; MRecheckHeader]
                 ++ ext2
                 ++ summary_lines true (snd (second_round e))
                 ++ [MOverall true (negb (existsb is_alarm ext2))]).
  { rewrite stdout_print_summary, O2. cbn [stdout printf].
    rewrite stdout_print_summary, O1, stdout_boot_state, F, V1, A2.
    unfold summary_lines. rewrite <- !app_assoc. reflexivity. }
  rewrite A2, negb_involutive.
  destruct (existsb is_alarm ext2).
  - cbn [stdout printf]. rewrite S2. rewrite <- !app_assoc. reflexivity.
  - rewrite S2. now rewrite !app_nil_r.
Qed.

Lemma X28_reaudited_output_witness :
  startup_failure (env_for fix_args blank_image) = false
  /\ rerun (env_for fix_args blank_image) = true
  /\ exists ext1 ext2,
       existsb is_alarm ext1 = true
       /\ passes_run ext1 = code_order /\ passes_run ext2 = code_order
       /\ std_out (main (env_for fix_args blank_image))
          = [MBanner;
             MImageName (nth 1 (argv (env_for fix_args blank_image))
                           EmptyString);
             MMode true]
            ++ ext1
            ++ summary_lines false (snd (first_round (env_for fix_args blank_image)))
            ++ [MOverall false false; MRecheckHeader]
            ++ ext2
            ++ summary_lines true (snd (second_round (env_for fix_args blank_image)))
            ++ [MOverall true (negb (existsb is_alarm ext2))]
            ++ (if existsb is_alarm ext2 then [MWarning] else []).
Proof.
  assert (A : startup_failure (env_for fix_args blank_image) = false)
    by (vm_compute; reflexivity).
  assert (B : rerun (env_for fix_args blank_image) = true)
    by (lazy; reflexivity).
  exact (conj A (conj B
           (X28_reaudited_output (env_for fix_args blank_image) A B))).
Defined.

(** * [file1.c] *)

Lemma file1_fread_len file count buf :
  length (file1.fread file count buf) = length buf.
Proof.
  unfold file1.fread. cbv zeta.
  rewrite length_take, length_app, length_drop. lia.
Qed.

Lemma file1_loaded_len (e : file1.env) : image_len (file1_loaded e) = IMAGE_SIZE.
Proof.
  unfold image_len, file1_loaded. rewrite file1_fread_len.
  unfold file1.disk_at_start. rewrite length_replicate.
  apply Z2Nat.id. unfold IMAGE_SIZE, TOTAL_BLOCKS, BLOCK_SIZE. lia.
Qed.

Lemma file1_fread_whole (file : list byte) :
  image_len file = IMAGE_SIZE ->
  file1.fread file IMAGE_SIZE file1.disk_at_start = file.
Proof.
  intros H. unfold file1.fread. cbv zeta.
  assert (L : length file = Z.to_nat IMAGE_SIZE)
    by (unfold image_len in H; lia).
  assert (D : length file1.disk_at_start = Z.to_nat IMAGE_SIZE)
    by (unfold file1.disk_at_start; apply length_replicate).
  rewrite (take_ge file) by lia.
  rewrite (drop_ge file1.disk_at_start) by lia.
  rewrite app_nil_r. apply take_ge. lia.
Qed.

(** One iteration of [file1.c] against one iteration of the pass. *)
Lemma file1_check_inode_sim (out : list file1.msg) (i : Z)
    (s1 : file1.state) (t : state) :
  file1.disk s1 = fs_image t
  /\ file1.stdout s1 = out ++ List.flat_map file1_line (stdout t) ->
  file1.disk (file1.check_inode i s1) = fs_image (reconcile_inode_bit true i t)
  /\ file1.stdout (file1.check_inode i s1)
     = out ++ List.flat_map file1_line (stdout (reconcile_inode_bit true i t)).
Proof.
  intros [D O].
  unfold file1.check_inode, reconcile_inode_bit, is_inode_valid, is_bit_set,
    set_bit, clear_bit. cbv zeta.
  change file1.inode_bitmap with inode_bitmap. rewrite D.
  destruct ((0 <? inode_get (fs_image t) i i_links_count)
            && (inode_get (fs_image t) i i_dtime =? 0));
    destruct (Z.land (load8 (fs_image t) (inode_bitmap + Z.quot i 8))
                (Z.shiftl 1 (Z.rem i 8)) =? 0);
    cbn [negb andb file1.disk file1.stdout file1.printf fs_image stdout
         printf with_image with_valid];
    rewrite ?D, ?O, ?List.flat_map_app; cbn [List.flat_map file1_line app];
    rewrite ?app_nil_r, <- ?app_assoc; auto.
Qed.

Lemma file1_same_repair (img : image) (out : list file1.msg) :
  file1.disk (file1.check_and_fix_inode_bitmap (file1.mkState img out))
  = fs_image (validate_inode_bitmap true (pristine img))
  /\ file1.stdout (file1.check_and_fix_inode_bitmap (file1.mkState img out))
     = out ++ List.flat_map file1_line
                (stdout (validate_inode_bitmap true (pristine img))).
Proof.
  unfold file1.check_and_fix_inode_bitmap, validate_inode_bitmap. cbv zeta.
  change file1.TOTAL_INODES with INODE_COUNT.
  apply (for_loop_rel
           (fun (s1 : file1.state) (t : state) =>
              file1.disk s1 = fs_image t
              /\ file1.stdout s1 = out ++ List.flat_map file1_line (stdout t))).
  - split; [reflexivity|]. cbn. now rewrite app_nil_r.
  - intros j s' t' _ R. now apply file1_check_inode_sim.
Qed.

(** X23: the stand-alone fixer of [file1.c] and the inode-bitmap pass of
    [vsfsck.c] in repair mode are the same repair.  From the same buffer
    they arrive at the same buffer, and [file1.c] prints one ["Fixing"]
    line for each ["Fixing:"] line of the pass, in the same order and for
    the same inode. *)
Theorem X23_file1_same_repair (img : image) (out : list file1.msg) :
  file1.disk (file1.check_and_fix_inode_bitmap (file1.mkState img out))
  = fs_image (validate_inode_bitmap true (pristine img))
  /\ file1.stdout (file1.check_and_fix_inode_bitmap (file1.mkState img out))
     = out ++ List.flat_map file1_line
                (stdout (validate_inode_bitmap true (pristine img))).
Proof. apply file1_same_repair. Qed.

(** The inode-bitmap pass in repair mode, run on a freshly loaded buffer. *)
Lemma repaired_buffer (buf : image) :
  image_len buf = IMAGE_SIZE ->
  image_len (fs_image (validate_inode_bitmap true (pristine buf))) = IMAGE_SIZE
  /\ (forall i, 0 <= i < INODE_COUNT ->
        inode_bit_ok (fs_image (validate_inode_bitmap true (pristine buf))) i
        = true)
  /\ (forall off, ~ (inode_bitmap <= off < inode_bitmap + 10) ->
        byte_at (fs_image (validate_inode_bitmap true (pristine buf))) off
        = byte_at buf off).
Proof.
  intros L. split; [|split].
  - rewrite (pe_len _ _ _ _ (validate_inode_bitmap_effect true _)). exact L.
  - now apply inode_bitmap_settled.
  - destruct (validate_inode_bitmap_fix (pristine buf) L)
      as (_ & _ & _ & Frame).
    exact Frame.
Qed.

Lemma file1_repaired_eq (e : file1.env) :
  file1_repaired e
  = fs_image (validate_inode_bitmap true (pristine (file1_loaded e))).
Proof.
  unfold file1_repaired, file1_checked, file1.printf.
  cbn [file1.disk file1.stdout]. apply file1_same_repair.
Qed.

Lemma file1_main_success (e : file1.env) :
  length (file1.argv e) = 2%nat -> file1.fopen_ok e = true ->
  file1.reopen_ok e = true ->
  file1.main e
  = file1.mkOutcome 0 (file1.stdout (file1_checked e) ++ [file1.MCompleted])
      []
      (fwrite (file1_repaired e) (file1.fwrite_count e)
         (file1.file_content e)).
Proof.
  intros A F R.
  unfold file1.main, file1.load_image, file1.write_image, file1_repaired,
    file1_checked, file1_loaded.
  rewrite A, F, R. change (negb (Z.of_nat 2 =? 2)) with false.
  cbn [negb]. cbv beta iota zeta.
  cbn [file1.stdout file1.disk file1.printf]. reflexivity.
Qed.

Lemma fwrite_prefix (buf file : list byte) :
  image_len buf = IMAGE_SIZE ->
  fwrite buf IMAGE_SIZE file = buf ++ drop (Z.to_nat IMAGE_SIZE) file.
Proof.
  intros H. unfold fwrite. rewrite take_ge; [reflexivity|].
  unfold image_len in H. lia.
Qed.

(** X24: a run of [file1.c] that opens the file both times and writes the
    whole array.  Whatever the file holds and however much of it [fread]
    delivers, the program returns 0; the array has the size of an image;
    after the repair each of its eighty inode-bitmap bits says whether its
    inode is live, and only the ten bytes of those bits differ from what
    was loaded; the file receives the array in place of its first
    [TOTAL_BLOCKS * BLOCK_SIZE] bytes. *)
Theorem X24_file1_repairs (e : file1.env) :
  length (file1.argv e) = 2%nat -> file1.fopen_ok e = true ->
  file1.reopen_ok e = true -> file1.fwrite_count e = IMAGE_SIZE ->
  file1.exit_code (file1.main e) = 0
  /\ image_len (file1_repaired e) = IMAGE_SIZE
  /\ (forall i, 0 <= i < file1.TOTAL_INODES ->
        is_bit_set (file1_repaired e) file1.inode_bitmap i
        = is_inode_valid (file1_repaired e) i)
  /\ (forall off, ~ (file1.inode_bitmap <= off < file1.inode_bitmap + 10) ->
        byte_at (file1_repaired e) off = byte_at (file1_loaded e) off)
  /\ file1.file_after (file1.main e)
     = file1_repaired e ++ drop (Z.to_nat IMAGE_SIZE) (file1.file_content e).
Proof.
  intros A F R W.
  destruct (repaired_buffer (file1_loaded e) (file1_loaded_len e))
    as (L' & Bits & Frame).
  rewrite <- file1_repaired_eq in L', Bits, Frame.
  rewrite (file1_main_success e A F R).
  cbn [file1.exit_code file1.file_after].
  split; [reflexivity|]. split; [exact L'|].
  split; [|split].
  - intros i Hi. specialize (Bits i Hi).
    unfold inode_bit_ok in Bits. symmetry. now apply Bool.eqb_prop.
  - exact Frame.
  - rewrite W. now apply fwrite_prefix.
Qed.

Lemma X24_file1_repairs_witness :
  length (file1.argv (file1_env_for blank_image)) = 2%nat
  /\ file1.fopen_ok (file1_env_for blank_image) = true
  /\ file1.reopen_ok (file1_env_for blank_image) = true
  /\ file1.fwrite_count (file1_env_for blank_image) = IMAGE_SIZE
  /\ file1.exit_code (file1.main (file1_env_for blank_image)) = 0.
Proof.
  exact (conj eq_refl (conj eq_refl (conj eq_refl (conj eq_refl
           (proj1 (X24_file1_repairs (file1_env_for blank_image)
                     eq_refl eq_refl eq_refl eq_refl)))))).
Defined.

(** X25: when [file1.c] returns 1.  It does so exactly when it was not
    given one argument or one of its two [fopen] calls failed; it has then
    printed one line on the error stream and has left the file as it
    was.  Otherwise it returns 0 and its last line is the completion
    message. *)
Theorem X25_file1_failures (e : file1.env) :
  if (Z.of_nat (length (file1.argv e)) =? 2) && file1.fopen_ok e
     && file1.reopen_ok e
  then file1.exit_code (file1.main e) = 0
       /\ file1.std_err (file1.main e) = []
       /\ last (file1.std_out (file1.main e)) = Some file1.MCompleted
  else file1.exit_code (file1.main e) = 1
       /\ length (file1.std_err (file1.main e)) = 1%nat
       /\ file1.file_after (file1.main e) = file1.file_content e.
Proof.
  unfold file1.main, file1.load_image, file1.write_image.
  destruct (Z.of_nat (length (file1.argv e)) =? 2); cbn [negb andb];
    [|auto].
  destruct (file1.fopen_ok e); cbn [negb andb]; [|auto].
  destruct (file1.reopen_ok e); cbn [negb andb]; [|auto].
  cbv zeta. cbn [file1.exit_code file1.std_err file1.std_out file1.stdout
                 file1.printf].
  split; [reflexivity|]. split; [reflexivity|]. apply last_snoc.
Qed.

(** A buffer whose bitmap agrees with its inodes is left alone, and no
    line is printed. *)
Lemma file1_check_noop (s : file1.state) :
  (forall i, 0 <= i < INODE_COUNT -> inode_bit_ok (file1.disk s) i = true) ->
  file1.check_and_fix_inode_bitmap s = s.
Proof.
  intros H. unfold file1.check_and_fix_inode_bitmap.
  change file1.TOTAL_INODES with INODE_COUNT.
  apply (for_loop_ind (fun t => t = s)); [reflexivity|].
  intros j t Hj ->. specialize (H j Hj).
  unfold inode_bit_ok, is_inode_valid, is_bit_set in H.
  unfold file1.check_inode. cbv zeta.
  change file1.inode_bitmap with inode_bitmap.
  destruct ((0 <? inode_get (file1.disk s) j i_links_count)
            && (inode_get (file1.disk s) j i_dtime =? 0));
    destruct (Z.land (load8 (file1.disk s) (inode_bitmap + Z.quot j 8))
                (Z.shiftl 1 (Z.rem j 8)) =? 0);
    cbn [negb andb] in *; try reflexivity; discriminate.
Qed.

(** X26: a second run changes nothing.  When [file1.c] has run on an
    image file of the exact size, with [fread] and [fwrite] transferring
    the whole image, a second run on the file it has left prints no ["Fixing"]
    line and leaves the file as the first run left it. *)
Theorem X26_file1_second_run (e : file1.env) :
  length (file1.argv e) = 2%nat -> file1.fopen_ok e = true ->
  file1.reopen_ok e = true ->
  image_len (file1.file_content e) = IMAGE_SIZE ->
  file1.fread_count e = IMAGE_SIZE -> file1.fwrite_count e = IMAGE_SIZE ->
  file1.main (file1_rerun e)
  = file1.mkOutcome 0 [file1.MStarting; file1.MCompleted] []
      (file1.file_after (file1.main e)).
Proof.
  intros A F R Lf Cr Cw.
  destruct (repaired_buffer (file1_loaded e) (file1_loaded_len e))
    as (L' & Bits & _).
  rewrite <- file1_repaired_eq in L', Bits.
  assert (After : file1.file_after (file1.main e) = file1_repaired e).
  { rewrite (file1_main_success e A F R). cbn [file1.file_after].
    rewrite Cw. now apply fwrite_whole. }
  assert (Loaded : file1_loaded (file1_rerun e) = file1_repaired e).
  { unfold file1_loaded, file1_rerun. cbn [file1.file_content file1.fread_count].
    rewrite After, Cr. now apply file1_fread_whole. }
  assert (Checked : file1_checked (file1_rerun e)
                    = file1.printf file1.MStarting
                        (file1.mkState (file1_repaired e) [])).
  { unfold file1_checked. rewrite Loaded. apply file1_check_noop.
    exact Bits. }
  rewrite (file1_main_success (file1_rerun e) A F R).
  unfold file1_repaired at 1. rewrite Checked.
  cbn [file1.stdout file1.disk file1.printf app].
  change (file1.fwrite_count (file1_rerun e)) with (file1.fwrite_count e).
  change (file1.file_content (file1_rerun e))
    with (file1.file_after (file1.main e)).
  rewrite After, Cw. now rewrite fwrite_whole.
Qed.

Lemma X26_file1_second_run_witness :
  length (file1.argv (file1_env_for blank_image)) = 2%nat
  /\ file1.fopen_ok (file1_env_for blank_image) = true
  /\ file1.reopen_ok (file1_env_for blank_image) = true
  /\ image_len (file1.file_content (file1_env_for blank_image)) = IMAGE_SIZE
  /\ file1.fread_count (file1_env_for blank_image) = IMAGE_SIZE
  /\ file1.fwrite_count (file1_env_for blank_image) = IMAGE_SIZE
  /\ file1.main (file1_rerun (file1_env_for blank_image))
     = file1.mkOutcome 0 [file1.MStarting; file1.MCompleted] []
         (file1.file_after (file1.main (file1_env_for blank_image))).
Proof.
  assert (L : image_len (file1.file_content (file1_env_for blank_image))
              = IMAGE_SIZE) by (vm_compute; reflexivity).
  exact (conj eq_refl (conj eq_refl (conj eq_refl (conj L
           (conj eq_refl (conj eq_refl
              (X26_file1_second_run (file1_env_for blank_image)
                 eq_refl eq_refl eq_refl L eq_refl eq_refl))))))).
Defined.

Lemma image_len_app_drop (n : nat) (m : Z) (rep file : list byte) :
  image_len rep = m -> Z.of_nat n = m ->
  image_len (rep ++ drop n file) = Z.max m (image_len file)
  /\ drop n (rep ++ drop n file) = drop n file.
Proof.
  unfold image_len. intros L N. split.
  - rewrite length_app, length_drop. lia.
  - rewrite drop_app_length'; [reflexivity|lia].
Qed.

Lemma image_size_to_nat : Z.of_nat (Z.to_nat IMAGE_SIZE) = IMAGE_SIZE.
Proof. apply Z2Nat.id. unfold IMAGE_SIZE, TOTAL_BLOCKS, BLOCK_SIZE. lia. Qed.

(** X27: [file1.c] does not look at the size of the file.  After a run
    that opens the file both times and writes the whole array, the file
    has the size of an image or its old size, whichever is larger: a
    shorter file has grown to [TOTAL_BLOCKS * BLOCK_SIZE] bytes, and what
    a longer file holds behind those bytes is kept. *)
Theorem X27_file1_file_size (e : file1.env) :
  length (file1.argv e) = 2%nat -> file1.fopen_ok e = true ->
  file1.reopen_ok e = true -> file1.fwrite_count e = IMAGE_SIZE ->
  image_len (file1.file_after (file1.main e))
  = Z.max IMAGE_SIZE (image_len (file1.file_content e))
  /\ drop (Z.to_nat IMAGE_SIZE) (file1.file_after (file1.main e))
     = drop (Z.to_nat IMAGE_SIZE) (file1.file_content e).
Proof.
  intros A F R W.
  destruct (repaired_buffer (file1_loaded e) (file1_loaded_len e))
    as (L' & _ & _).
  rewrite <- file1_repaired_eq in L'.
  rewrite (file1_main_success e A F R). cbn [file1.file_after].
  rewrite W, (fwrite_prefix _ _ L').
  apply (image_len_app_drop (Z.to_nat IMAGE_SIZE) IMAGE_SIZE
           (file1_repaired e) (file1.file_content e) L' image_size_to_nat).
Qed.

Lemma X27_file1_file_size_witness :
  length (file1.argv (file1_env_for short_image)) = 2%nat
  /\ file1.fopen_ok (file1_env_for short_image) = true
  /\ file1.reopen_ok (file1_env_for short_image) = true
  /\ file1.fwrite_count (file1_env_for short_image) = IMAGE_SIZE
  /\ image_len (file1.file_after (file1.main (file1_env_for short_image)))
     = Z.max IMAGE_SIZE
         (image_len (file1.file_content (file1_env_for short_image))).
Proof.
  exact (conj eq_refl (conj eq_refl (conj eq_refl (conj eq_refl
           (proj1 (X27_file1_file_size (file1_env_for short_image)
                     eq_refl eq_refl eq_refl eq_refl)))))).
Defined.
